(** * Master/Session entity model of the 3D layout viewer

    A shallow embedding of the prototype (clone) protocol of the viewer:
    the entities [Wall], [Furniture], [Room], [Layout3D] and the
    [LayoutRegistry], with the asynchronous loading of Furniture assets.

    JavaScript objects of the THREE scene graph are shared and mutated in
    place (a Furniture root is at once a field of the Furniture and a child
    of its Room group), so they live in an explicit store indexed by
    addresses.  Geometry and material buffers are handles into a resource
    pool; the static class fields ([Wall.geometry], ...) are slots of the
    world.  Entity objects themselves are never shared between two owners
    in this program and are embedded as records holding addresses; a method
    that assigns a field of [this] returns the updated record.

    Numbers are exact rationals ([Qc]); [Math.random] is a stream of
    identifiers carried by the world.  Recursion over the store (cloning
    and traversing a subtree) is bounded by a [fuel] argument, and the
    results are stated for every fuel that covers the depth of the subtree.
    Shadow flags and console output play no part in any property below and
    are left out.

    Beside the entities stand the update effect of the [ThreeDViewer]
    component, which swaps the layout on show, and the import of DXF
    drawings: the [ReconstructionEngine], which builds a group of wall
    meshes from the entities of a parsed drawing, and the [ImportedLayout]
    wrapper. *)

From Stdlib Require Import QArith Qcanon.
From stdpp Require Import gmap strings list pretty.

Local Open Scope string_scope.
Local Open Scope nat_scope.
Local Open Scope list_scope.

(** ** Numbers and vectors *)

Definition num := Qc.

Definition n0 : num := Q2Qc 0.
Definition n1 : num := Q2Qc 1.
Definition n2 : num := Q2Qc 2.
Definition n20 : num := Q2Qc 20.
Definition n_half : num := Q2Qc (1 # 2).

Definition num_ltb (a b : num) : bool :=
  match Qccompare a b with Lt => true | _ => false end.

(** [Math.max] on two and on three arguments. *)
Definition Math_max2 (a b : num) : num := if num_ltb a b then b else a.
Definition Math_max (a b c : num) : num := Math_max2 (Math_max2 a b) c.

Record Vector3 := mkV { vx : num; vy : num; vz : num }.

Definition Vector3_zero : Vector3 := mkV n0 n0 n0.
Definition Vector3_one : Vector3 := mkV n1 n1 n1.

Definition Vector3_add (a b : Vector3) : Vector3 :=
  mkV (Qcplus (vx a) (vx b)) (Qcplus (vy a) (vy b)) (Qcplus (vz a) (vz b)).
Definition Vector3_sub (a b : Vector3) : Vector3 :=
  mkV (Qcminus (vx a) (vx b)) (Qcminus (vy a) (vy b)) (Qcminus (vz a) (vz b)).
Definition Vector3_multiply (a b : Vector3) : Vector3 :=
  mkV (Qcmult (vx a) (vx b)) (Qcmult (vy a) (vy b)) (Qcmult (vz a) (vz b)).
Definition Vector3_multiplyScalar (a : Vector3) (s : num) : Vector3 :=
  mkV (Qcmult (vx a) s) (Qcmult (vy a) s) (Qcmult (vz a) s).

(** [THREE.Box3]: an axis-aligned box.  A box whose upper bound lies below
    its lower bound on some axis is empty (THREE's empty box has bounds
    +Infinity / -Infinity, which every inverted box stands for here). *)
Record Box3 := mkBox { box_min : Vector3; box_max : Vector3 }.

Definition Box3_isEmpty (b : Box3) : bool :=
  num_ltb (vx (box_max b)) (vx (box_min b))
  || num_ltb (vy (box_max b)) (vy (box_min b))
  || num_ltb (vz (box_max b)) (vz (box_min b)).

Definition Box3_getSize (b : Box3) : Vector3 :=
  if Box3_isEmpty b then Vector3_zero else Vector3_sub (box_max b) (box_min b).

Definition Box3_getCenter (b : Box3) : Vector3 :=
  if Box3_isEmpty b then Vector3_zero
  else Vector3_multiplyScalar (Vector3_add (box_min b) (box_max b)) n_half.

(** ** Scene-graph objects *)

Definition addr := nat.
Definition handle := nat.

(** [userData]: absent keys read as [undefined], here [None]. *)
Record UserData := mkUD {
  entityId : option string;
  ud_type : option string;
  ud_name : option string;
  isMaster : option bool }.

Definition UserData_empty : UserData := mkUD None None None None.

(** A mesh has one material or an array of them. *)
Inductive MaterialRef :=
  | SingleMaterial (h : handle)
  | MaterialArray (hs : list handle).

Record Object3D := mkObj {
  isMesh : bool;
  position : Vector3;
  rotation : Vector3;
  scale : Vector3;
  userData : UserData;
  children : list addr;
  geometry : option handle;
  material : option MaterialRef }.

Definition set_position (v : Vector3) (o : Object3D) : Object3D :=
  mkObj (isMesh o) v (rotation o) (scale o) (userData o) (children o)
        (geometry o) (material o).
Definition set_rotation (v : Vector3) (o : Object3D) : Object3D :=
  mkObj (isMesh o) (position o) v (scale o) (userData o) (children o)
        (geometry o) (material o).
Definition set_scale (v : Vector3) (o : Object3D) : Object3D :=
  mkObj (isMesh o) (position o) (rotation o) v (userData o) (children o)
        (geometry o) (material o).
Definition set_userData (u : UserData) (o : Object3D) : Object3D :=
  mkObj (isMesh o) (position o) (rotation o) (scale o) u (children o)
        (geometry o) (material o).
Definition set_children (cs : list addr) (o : Object3D) : Object3D :=
  mkObj (isMesh o) (position o) (rotation o) (scale o) (userData o) cs
        (geometry o) (material o).

(** [new THREE.Group()] and [new THREE.Mesh(geometry, material)]. *)
Definition Group_blank : Object3D :=
  mkObj false Vector3_zero Vector3_zero Vector3_one UserData_empty [] None None.
Definition Mesh_blank (g m : handle) : Object3D :=
  mkObj true Vector3_zero Vector3_zero Vector3_one UserData_empty []
        (Some g) (Some (SingleMaterial m)).

(** ** The world: object store, resource pool, class statics, randomness *)

Record World := mkWorld {
  nodes : gmap addr Object3D;
  next_node : addr;
  next_resource : handle;
  disposed : gset handle;
  Wall_geometry : option handle;
  Wall_material : option handle;
  Furniture_placeholderGeometry : option handle;
  Furniture_placeholderMaterial : option handle;
  random : nat → string;
  drawn : nat }.

Definition with_nodes (f : gmap addr Object3D → gmap addr Object3D) (w : World) : World :=
  mkWorld (f (nodes w)) (next_node w) (next_resource w) (disposed w)
          (Wall_geometry w) (Wall_material w)
          (Furniture_placeholderGeometry w) (Furniture_placeholderMaterial w)
          (random w) (drawn w).

(** Read a field of the object at an address; a dangling address reads the
    blank group (it never occurs in a store built by the program). *)
Definition obj (w : World) (a : addr) : Object3D :=
  default Group_blank (nodes w !! a).

Definition update_obj (a : addr) (f : Object3D → Object3D) (w : World) : World :=
  with_nodes (alter f a) w.

Definition alloc_obj (o : Object3D) (w : World) : addr * World :=
  (next_node w,
   mkWorld (<[next_node w := o]> (nodes w)) (S (next_node w))
           (next_resource w) (disposed w)
           (Wall_geometry w) (Wall_material w)
           (Furniture_placeholderGeometry w) (Furniture_placeholderMaterial w)
           (random w) (drawn w)).

(** A fresh geometry or material buffer. *)
Definition alloc_resource (w : World) : handle * World :=
  (next_resource w,
   mkWorld (nodes w) (next_node w) (S (next_resource w)) (disposed w)
           (Wall_geometry w) (Wall_material w)
           (Furniture_placeholderGeometry w) (Furniture_placeholderMaterial w)
           (random w) (drawn w)).

(** [geometry.dispose()] / [material.dispose()]. *)
Definition dispose_resource (h : handle) (w : World) : World :=
  mkWorld (nodes w) (next_node w) (next_resource w) ({[h]} ∪ disposed w)
          (Wall_geometry w) (Wall_material w)
          (Furniture_placeholderGeometry w) (Furniture_placeholderMaterial w)
          (random w) (drawn w).

(** [generateId()]: [Math.random().toString(36).substr(2, 9)], the next
    element of the world's random stream. *)
Definition generateId (w : World) : string * World :=
  (random w (drawn w),
   mkWorld (nodes w) (next_node w) (next_resource w) (disposed w)
           (Wall_geometry w) (Wall_material w)
           (Furniture_placeholderGeometry w) (Furniture_placeholderMaterial w)
           (random w) (S (drawn w))).

(** [parent.add(child)] for a child that has no parent yet (every object
    the program adds is freshly created), and [parent.remove(child)]. *)
Definition Object3D_add (parent child : addr) (w : World) : World :=
  update_obj parent (fun o => set_children (children o ++ [child]) o) w.

Fixpoint remove_first (a : addr) (l : list addr) : list addr :=
  match l with
  | [] => []
  | b :: l' => if Nat.eqb a b then l' else b :: remove_first a l'
  end.

Definition Object3D_remove (parent child : addr) (w : World) : World :=
  update_obj parent (fun o => set_children (remove_first child (children o)) o) w.

Definition set_Wall_geometry (h : option handle) (w : World) : World :=
  mkWorld (nodes w) (next_node w) (next_resource w) (disposed w)
          h (Wall_material w)
          (Furniture_placeholderGeometry w) (Furniture_placeholderMaterial w)
          (random w) (drawn w).
Definition set_Wall_material (h : option handle) (w : World) : World :=
  mkWorld (nodes w) (next_node w) (next_resource w) (disposed w)
          (Wall_geometry w) h
          (Furniture_placeholderGeometry w) (Furniture_placeholderMaterial w)
          (random w) (drawn w).
Definition set_placeholderGeometry (h : option handle) (w : World) : World :=
  mkWorld (nodes w) (next_node w) (next_resource w) (disposed w)
          (Wall_geometry w) (Wall_material w)
          h (Furniture_placeholderMaterial w)
          (random w) (drawn w).
Definition set_placeholderMaterial (h : option handle) (w : World) : World :=
  mkWorld (nodes w) (next_node w) (next_resource w) (disposed w)
          (Wall_geometry w) (Wall_material w)
          (Furniture_placeholderGeometry w) h
          (random w) (drawn w).

(** [if (!C.slot) C.slot = new ...]: create the shared buffer on first use. *)
Definition ensure (get : World → option handle)
    (set : option handle → World → World) (w : World) : handle * World :=
  match get w with
  | Some h => (h, w)
  | None => let '(h, w1) := alloc_resource w in (h, set (Some h) w1)
  end.

(** JavaScript references, for strict (in)equality between objects of
    different kinds. *)
Inductive Ref :=
  | RefNull
  | RefObject (a : addr)
  | RefResource (h : handle).

Definition Ref_eqb (r1 r2 : Ref) : bool :=
  match r1, r2 with
  | RefNull, RefNull => true
  | RefObject a, RefObject b => Nat.eqb a b
  | RefResource g, RefResource h => Nat.eqb g h
  | _, _ => false
  end.

Definition Ref_of_resource (h : option handle) : Ref :=
  match h with Some h => RefResource h | None => RefNull end.

(** Truthiness of a string-or-null value. *)
Definition truthy (s : option string) : bool :=
  match s with
  | Some s => negb (String.eqb s "")
  | None => false
  end.

(** [object.traverse(callback)]: the object first, then its children in
    order.  The store is a graph, so the descent is bounded by [fuel]. *)
Fixpoint Object3D_traverse (fuel : nat) (callback : addr → World → World)
    (a : addr) (w : World) : option World :=
  match fuel with
  | O => None
  | S fuel' =>
      let w1 := callback a w in
      foldl (fun acc c => w' ← acc; Object3D_traverse fuel' callback c w')
            (Some w1) (children (obj w1 a))
  end.

(** [object.clone()] as used by [SkeletonUtils.clone]: a new object with
    the same transform, a copy of [userData], the same geometry and
    material references, and clones of the children.  The rotation is
    carried over as the three Euler angles; THREE copies the quaternion
    and derives the angles from it again, which denotes the same rotation
    but need not give the same three numbers, so the results on deep
    copies further down leave the rotation of a copy open. *)
Fixpoint clone_children (rec : addr → World → option (addr * World))
    (parent : addr) (cs : list addr) (w : World) : option World :=
  match cs with
  | [] => Some w
  | c :: cs' =>
      '(c', w1) ← rec c w;
      clone_children rec parent cs' (Object3D_add parent c' w1)
  end.

Fixpoint SkeletonUtils_clone (fuel : nat) (a : addr) (w : World)
    : option (addr * World) :=
  match fuel with
  | O => None
  | S fuel' =>
      let o := obj w a in
      let '(a', w1) := alloc_obj (set_children [] o) w in
      w2 ← clone_children (SkeletonUtils_clone fuel') a' (children o) w1;
      Some (a', w2)
  end.

(** ** Wall *)

Module Wall.

Record t := mk { width : num; height : num; depth : num; mesh : addr }.

Definition new (width height depth : num) (w : World) : t * World :=
  let '(g, w) := ensure Wall_geometry set_Wall_geometry w in
  let '(m, w) := ensure Wall_material set_Wall_material w in
  let '(a, w) := alloc_obj (Mesh_blank g m) w in
  let w := update_obj a (set_scale (mkV width height depth)) w in
  let '(i, w) := generateId w in
  let w := update_obj a (set_userData (mkUD (Some i) (Some "Wall") None None)) w in
  (mk width height depth a, w).

Definition setPosition (x y z : num) (this : t) (w : World) : World :=
  update_obj (mesh this) (set_position (mkV x y z)) w.

Definition clone (this : t) (w : World) : t * World :=
  let '(clonedWall, w) := new (width this) (height this) (depth this) w in
  let w := update_obj (mesh clonedWall)
             (set_position (position (obj w (mesh this)))) w in
  let w := update_obj (mesh clonedWall)
             (set_rotation (rotation (obj w (mesh this)))) w in
  let '(i, w) := generateId w in
  let w := update_obj (mesh clonedWall)
             (fun o => set_userData
                (mkUD (Some i) (ud_type (userData o)) (ud_name (userData o))
                      (isMaster (userData o))) o) w in
  (clonedWall, w).

(** The shared geometry and material are deliberately left alone. *)
Definition dispose (this : t) (w : World) : World := w.

End Wall.

(** ** Furniture *)

Module Furniture.

Record t := mk {
  name : option string;
  type : option string;
  modelUrl : option string;
  mesh : addr;
  root : addr }.

Definition set_mesh (m : addr) (f : t) : t :=
  mk (name f) (type f) (modelUrl f) m (root f).
Definition set_root (r : addr) (f : t) : t :=
  mk (name f) (type f) (modelUrl f) (mesh f) r.

Definition new (name type modelUrl : option string) (w : World) : t * World :=
  let '(g, w) := ensure Furniture_placeholderGeometry set_placeholderGeometry w in
  let '(m, w) := ensure Furniture_placeholderMaterial set_placeholderMaterial w in
  let '(a, w) := alloc_obj (Mesh_blank g m) w in
  let '(i, w) := generateId w in
  let w := update_obj a (set_userData (mkUD (Some i) (Some "Furniture") name None)) w in
  let '(r, w) := alloc_obj Group_blank w in
  let w := Object3D_add r a w in
  let '(j, w) := generateId w in
  let w := update_obj r (set_userData (mkUD (Some j) (Some "Furniture") name None)) w in
  (mk name type modelUrl a r, w).

Definition setPosition (v : Vector3) (this : t) (w : World) : World :=
  update_obj (root this) (set_position v) w.
Definition setScale (v : Vector3) (this : t) (w : World) : World :=
  update_obj (root this) (set_scale v) w.
Definition setRotation (v : Vector3) (this : t) (w : World) : World :=
  update_obj (root this) (set_rotation v) w.

(** Deep clone: a new Furniture whose [root] is a copy of this root's
    subtree; only the copied root receives a new identifier. *)
Definition clone (fuel : nat) (this : t) (w : World) : option (t * World) :=
  let '(clonedFurniture, w) := new (name this) (type this) (modelUrl this) w in
  '(clonedRoot, w) ← SkeletonUtils_clone fuel (root this) w;
  let clonedFurniture := set_root clonedRoot clonedFurniture in
  let '(i, w) := generateId w in
  let w := update_obj clonedRoot
             (fun o => set_userData
                (mkUD (Some i) (Some "Furniture") (name this)
                      (isMaster (userData o))) o) w in
  Some (clonedFurniture, w).

Definition dispose_material (m : MaterialRef) (w : World) : World :=
  match m with
  | SingleMaterial h => dispose_resource h w
  | MaterialArray hs => foldl (fun w h => dispose_resource h w) w hs
  end.

Definition dispose_node (a : addr) (w : World) : World :=
  let node := obj w a in
  if isMesh node then
    let w := match geometry node with
             | Some g => dispose_resource g w
             | None => w
             end in
    match material node with
    | Some m => dispose_material m w
    | None => w
    end
  else w.

Definition dispose (fuel : nat) (this : t) (w : World) : option World :=
  if negb (Ref_eqb (RefObject (mesh this))
                   (Ref_of_resource (Furniture_placeholderGeometry w)))
     && truthy (modelUrl this)
  then Object3D_traverse fuel dispose_node (mesh this) w
  else Some w.

End Furniture.

(** ** Description records (the JSON a layout is hydrated from)

    A key that is absent from the JSON object reads as [undefined]: [None]. *)

Record FurnitureData := mkFurnitureData {
  fd_name : option string;
  fd_type : option string;
  fd_modelUrl : option string;
  fd_position : option Vector3;
  fd_rotation : option Vector3;
  fd_scale : option Vector3 }.

Record RoomData := mkRoomData {
  rd_name : option string;
  rd_width : option num;
  rd_depth : option num;
  rd_furniture : option (list FurnitureData) }.

Record CameraView := mkCameraView {
  cam_position : Vector3;
  cam_lookAt : Vector3 }.

Record LayoutData := mkLayoutData {
  ld_id : option string;
  ld_name : option string;
  ld_cameraView : option CameraView;
  ld_rooms : option (list RoomData) }.

Module FurnitureFactory.

(** [Furniture.fromJSON] *)
Definition fromJSON (data : FurnitureData) (w : World) : Furniture.t * World :=
  let '(furniture, w) :=
    Furniture.new (fd_name data) (fd_type data) (fd_modelUrl data) w in
  let w := match fd_position data with
           | Some p => Furniture.setPosition p furniture w
           | None => w
           end in
  let w := match fd_rotation data with
           | Some r => Furniture.setRotation r furniture w
           | None => w
           end in
  let w := match fd_scale data with
           | Some s => Furniture.setScale s furniture w
           | None => w
           end in
  (furniture, w).

End FurnitureFactory.

(** ** Room *)

Module Room.

Record t := mk {
  name : option string;
  width : num;
  depth : num;
  furnitureList : list Furniture.t;
  walls : list Wall.t;
  group : addr }.

Definition set_walls (ws : list Wall.t) (r : t) : t :=
  mk (name r) (width r) (depth r) (furnitureList r) ws (group r).
Definition set_furnitureList (fs : list Furniture.t) (r : t) : t :=
  mk (name r) (width r) (depth r) fs (walls r) (group r).

Definition addWall (wall : Wall.t) (this : t) (w : World) : t * World :=
  (set_walls (walls this ++ [wall]) this,
   Object3D_add (group this) (Wall.mesh wall) w).

Definition addFurniture (furniture : Furniture.t) (this : t) (w : World)
    : t * World :=
  (set_furnitureList (furnitureList this ++ [furniture]) this,
   Object3D_add (group this) (Furniture.root furniture) w).

(** Wall height and thickness. *)
Definition h : num := Q2Qc (7 # 2).
Definition t_ : num := Q2Qc (1 # 2).

Definition generateWalls (this : t) (w : World) : t * World :=
  let w := foldl (fun w wl => Object3D_remove (group this) (Wall.mesh wl) w)
                 w (walls this) in
  let this := set_walls [] this in
  (* 1. Back Wall *)
  let '(back, w) := Wall.new (width this) h t_ w in
  let w := Wall.setPosition n0 (Qcdiv h n2) (Qcdiv (Qcopp (depth this)) n2) back w in
  let '(this, w) := addWall back this w in
  (* 2. Front Wall *)
  let '(front, w) := Wall.new (width this) h t_ w in
  let w := Wall.setPosition n0 (Qcdiv h n2) (Qcdiv (depth this) n2) front w in
  let '(this, w) := addWall front this w in
  (* 3. Left Wall *)
  let '(left_, w) := Wall.new t_ h (depth this) w in
  let w := Wall.setPosition (Qcdiv (Qcopp (width this)) n2) (Qcdiv h n2) n0 left_ w in
  let '(this, w) := addWall left_ this w in
  (* 4. Right Wall *)
  let '(right_, w) := Wall.new t_ h (depth this) w in
  let w := Wall.setPosition (Qcdiv (width this) n2) (Qcdiv h n2) n0 right_ w in
  addWall right_ this w.

(** [new Room(name, width = 20, depth = 20)]: an [undefined] width or depth
    takes the default. *)
Definition new (name : option string) (width depth : option num) (w : World)
    : t * World :=
  let '(g, w) := alloc_obj Group_blank w in
  let '(i, w) := generateId w in
  let w := update_obj g (set_userData (mkUD (Some i) (Some "Room") name None)) w in
  generateWalls (mk name (default n20 width) (default n20 depth) [] [] g) w.

Fixpoint fromJSON_furniture (items : list FurnitureData) (room : t) (w : World)
    : t * World :=
  match items with
  | [] => (room, w)
  | itemData :: rest =>
      let '(furniture, w) := FurnitureFactory.fromJSON itemData w in
      let '(room, w) := addFurniture furniture room w in
      fromJSON_furniture rest room w
  end.

Definition fromJSON (data : RoomData) (w : World) : t * World :=
  let '(room, w) := new (rd_name data) (rd_width data) (rd_depth data) w in
  match rd_furniture data with
  | Some items => fromJSON_furniture items room w
  | None => (room, w)
  end.

Fixpoint clone_furniture (fuel : nat) (items : list Furniture.t)
    (clonedRoom : t) (w : World) : option (t * World) :=
  match items with
  | [] => Some (clonedRoom, w)
  | item :: rest =>
      '(clonedItem, w) ← Furniture.clone fuel item w;
      let '(clonedRoom, w) := addFurniture clonedItem clonedRoom w in
      clone_furniture fuel rest clonedRoom w
  end.

(** Deep clone: walls come from the constructor, furniture is cloned. *)
Definition clone (fuel : nat) (this : t) (w : World) : option (t * World) :=
  let '(clonedRoom, w) :=
    new (name this) (Some (width this)) (Some (depth this)) w in
  '(clonedRoom, w) ← clone_furniture fuel (furnitureList this) clonedRoom w;
  let w := update_obj (group clonedRoom)
             (set_position (position (obj w (group this)))) w in
  let '(i, w) := generateId w in
  let w := update_obj (group clonedRoom)
             (fun o => set_userData
                (mkUD (Some i) (ud_type (userData o)) (ud_name (userData o))
                      (isMaster (userData o))) o) w in
  Some (clonedRoom, w).

Definition dispose (fuel : nat) (this : t) (w : World) : option World :=
  let w := foldl (fun w wl => Wall.dispose wl w) w (walls this) in
  foldl (fun acc f => w' ← acc; Furniture.dispose fuel f w')
        (Some w) (furnitureList this).

End Room.

(** ** Layout3D *)

Module Layout3D.

Record t := mk {
  id : option string;
  description : option string;
  rooms : list Room.t;
  cameraView : option CameraView;
  group : addr }.

Definition set_rooms (rs : list Room.t) (l : t) : t :=
  mk (id l) (description l) rs (cameraView l) (group l).
Definition set_cameraView (c : option CameraView) (l : t) : t :=
  mk (id l) (description l) (rooms l) c (group l).

Definition new (id description : option string) (w : World) : t * World :=
  let '(g, w) := alloc_obj Group_blank w in
  let w := update_obj g
             (set_userData (mkUD id (Some "Layout3D") None (Some true))) w in
  (mk id description [] None g, w).

Definition addRoom (room : Room.t) (this : t) (w : World) : t * World :=
  (set_rooms (rooms this ++ [room]) this,
   Object3D_add (group this) (Room.group room) w).

Fixpoint fromJSON_rooms (items : list RoomData) (layout : t) (w : World)
    : t * World :=
  match items with
  | [] => (layout, w)
  | roomData :: rest =>
      let '(room, w) := Room.fromJSON roomData w in
      let '(layout, w) := addRoom room layout w in
      fromJSON_rooms rest layout w
  end.

Definition fromJSON (data : LayoutData) (w : World) : t * World :=
  let '(layout, w) := new (ld_id data) (ld_name data) w in
  let layout := match ld_cameraView data with
                | Some c => set_cameraView (Some c) layout
                | None => layout
                end in
  match ld_rooms data with
  | Some items => fromJSON_rooms items layout w
  | None => (layout, w)
  end.

Fixpoint clone_rooms (fuel : nat) (items : list Room.t) (clonedLayout : t)
    (w : World) : option (t * World) :=
  match items with
  | [] => Some (clonedLayout, w)
  | room :: rest =>
      '(clonedRoom, w) ← Room.clone fuel room w;
      let '(clonedLayout, w) := addRoom clonedRoom clonedLayout w in
      clone_rooms fuel rest clonedLayout w
  end.

Definition clone (fuel : nat) (this : t) (w : World) : option (t * World) :=
  let '(clonedLayout, w) := new (id this) (description this) w in
  let clonedLayout := match cameraView this with
                      | Some c => set_cameraView (Some c) clonedLayout
                      | None => clonedLayout
                      end in
  '(clonedLayout, w) ← clone_rooms fuel (rooms this) clonedLayout w;
  let w := update_obj (group clonedLayout)
             (fun o => set_userData
                (mkUD (entityId (userData o)) (ud_type (userData o))
                      (ud_name (userData o)) (Some false)) o) w in
  Some (clonedLayout, w).

Definition dispose (fuel : nat) (this : t) (w : World) : option World :=
  foldl (fun acc r => w' ← acc; Room.dispose fuel r w') (Some w) (rooms this).

(** Every Furniture of the layout, in the order [loadAssets] visits them. *)
Definition furniture (this : t) : list Furniture.t :=
  concat (map Room.furnitureList (rooms this)).

End Layout3D.

(** ** Errors and the registry *)

Inductive JSError :=
  | Error (message : string).

Inductive Completion (A : Type) :=
  | Normal (a : A)
  | Throw (e : JSError).
Arguments Normal {A} a.
Arguments Throw {A} e.

Module LayoutRegistry.

Record t := mk { masters : gmap string Layout3D.t }.

Definition new : t := mk ∅.

Definition registerMaster (id : string) (layout : Layout3D.t) (this : t) : t :=
  mk (<[id := layout]> (masters this)).

Definition getSessionClone (fuel : nat) (id : string) (this : t) (w : World)
    : option (Completion Layout3D.t * World) :=
  match masters this !! id with
  | None => Some (Throw (Error ("Layout " +:+ id +:+ " not found in registry.")), w)
  | Some master =>
      '(session, w) ← Layout3D.clone fuel master w;
      Some (Normal session, w)
  end.

End LayoutRegistry.

(** ** Asset loading

    The GLTF loader is an external collaborator.  A fetch either fails or
    yields a parsed asset: a scene tree, instantiated as fresh objects and
    fresh buffers in the store, together with the box
    [new THREE.Box3().setFromObject(scene)] computes for it. *)

#[warnings="-register-all"]
Inductive GltfNode :=
  | GNode (mesh : bool) (pos rot scl : Vector3) (kids : list GltfNode).

Record Gltf := mkGltf { scene : GltfNode; bounds : Box3 }.

Inductive FetchOutcome :=
  | Fetched (gltf : Gltf)
  | Failed (err : JSError).

Fixpoint instantiate_kids (rec : GltfNode → World → addr * World)
    (parent : addr) (ks : list GltfNode) (w : World) : World :=
  match ks with
  | [] => w
  | k :: ks' =>
      let '(c, w) := rec k w in
      instantiate_kids rec parent ks' (Object3D_add parent c w)
  end.

Fixpoint instantiate (g : GltfNode) (w : World) : addr * World :=
  match g with
  | GNode m p r s kids =>
      let '(geo, mat, w) :=
        if m then
          let '(gh, w) := alloc_resource w in
          let '(mh, w) := alloc_resource w in
          (Some gh, Some (SingleMaterial mh), w)
        else (None, None, w) in
      let '(a, w) := alloc_obj (mkObj m p r s UserData_empty [] geo mat) w in
      (a, instantiate_kids instantiate a kids w)
  end.

Definition try_catch {A S : Type} (body : Completion A * S)
    (handler : JSError → S → Completion A * S) : Completion A * S :=
  match body with
  | (Throw e, s) => handler e s
  | (Normal a, s) => (Normal a, s)
  end.

Module Loading.

(** [await loader.loadAsync(this.modelUrl)]: the value of [gltf.scene] and
    its bounding box, or the rejection thrown at the await. *)
Definition await_loadAsync (out : FetchOutcome) (s : Furniture.t * World)
    : Completion (addr * Box3) * (Furniture.t * World) :=
  match out with
  | Fetched gltf =>
      let '(model, w) := instantiate (scene gltf) (snd s) in
      (Normal (model, bounds gltf), (fst s, w))
  | Failed err => (Throw err, s)
  end.

Definition maxDim (box : Box3) : num :=
  let size := Box3_getSize box in
  Math_max (vx size) (vy size) (vz size).

(** The normalization block of [loadModel]. *)
Definition normalize (model : addr) (box : Box3) (w : World) : World :=
  let center := Box3_getCenter box in
  let w := update_obj model
             (fun o => set_position (Vector3_sub (position o) center) o) w in
  if num_ltb n0 (maxDim box) then
    let scaleFactor := Qcdiv n1 (maxDim box) in
    update_obj model
      (fun o => set_scale (Vector3_multiplyScalar (scale o) scaleFactor) o) w
  else w.

(** Replace placeholder with real model. *)
Definition attach (model : addr) (this : Furniture.t) (w : World)
    : Furniture.t * World :=
  let w := Object3D_remove (Furniture.root this) (Furniture.mesh this) w in
  let w := Object3D_add (Furniture.root this) model w in
  (Furniture.set_mesh model this, w).

(** The part of [Furniture.loadModel] that runs when the fetch settles:
    the body of the [try] after the [await], and the [catch]. *)
Definition loadModel_resume (out : FetchOutcome) (this : Furniture.t) (w : World)
    : Completion unit * (Furniture.t * World) :=
  try_catch
    (match await_loadAsync out (this, w) with
     | (Normal (model, box), (this, w)) =>
         let w := normalize model box w in
         (Normal tt, attach model this w)
     | (Throw e, s) => (Throw e, s)
     end)
    (fun err s => (Normal tt, s)).

(** State of one [furniture.loadModel(loader)] call. *)
Inductive Task :=
  | Skipped
  | Awaiting (url : string)
  | Finished (out : FetchOutcome) (c : Completion unit).

(** The part of [loadModel] that runs at the call: return at once without a
    model URL, otherwise issue the fetch and suspend. *)
Definition loadModel_start (this : Furniture.t) : Task :=
  if truthy (Furniture.modelUrl this)
  then Awaiting (default "" (Furniture.modelUrl this))
  else Skipped.

Inductive PromiseState :=
  | Pending
  | Fulfilled
  | Rejected (e : JSError).

Definition promise_of (t : Task) : PromiseState :=
  match t with
  | Skipped => Fulfilled
  | Awaiting _ => Pending
  | Finished _ (Normal _) => Fulfilled
  | Finished _ (Throw e) => Rejected e
  end.

(** [Promise.all]: rejected as soon as one promise is, fulfilled when all
    are. *)
Fixpoint Promise_all (ps : list PromiseState) : PromiseState :=
  match ps with
  | [] => Fulfilled
  | Rejected e :: _ => Rejected e
  | Pending :: ps' =>
      match Promise_all ps' with Rejected e => Rejected e | _ => Pending end
  | Fulfilled :: ps' => Promise_all ps'
  end.

(** [Layout3D.loadAssets] in flight: the store, the Furniture objects in
    the order the two [forEach] loops visit them, and one task each. *)
Record State := mkState {
  world : World;
  furniture : list Furniture.t;
  tasks : list Task }.

Definition loadAssets_start (layout : Layout3D.t) (w : World) : State :=
  mkState w (Layout3D.furniture layout)
          (map loadModel_start (Layout3D.furniture layout)).

(** The promise [loadAssets] returns. *)
Definition loadAssets_promise (st : State) : PromiseState :=
  Promise_all (map promise_of (tasks st)).

(** One fetch settles, in any order the network decides, and the suspended
    [loadModel] runs to its end without interruption. *)
Inductive settle : State → State → Prop :=
  | settle_task st k url this out :
      tasks st !! k = Some (Awaiting url) →
      furniture st !! k = Some this →
      settle st
        (let r := loadModel_resume out this (world st) in
         mkState (snd (snd r))
                 (<[k := fst (snd r)]> (furniture st))
                 (<[k := Finished out (fst r)]> (tasks st))).

Inductive run : State → State → Prop :=
  | run_refl st : run st st
  | run_step st1 st2 st3 : run st1 st2 → settle st2 st3 → run st1 st3.

(** The same, driven by an explicit schedule of settled fetches. *)
Definition settle_at (k : nat) (out : FetchOutcome) (st : State) : State :=
  match tasks st !! k, furniture st !! k with
  | Some (Awaiting _), Some this =>
      let r := loadModel_resume out this (world st) in
      mkState (snd (snd r))
              (<[k := fst (snd r)]> (furniture st))
              (<[k := Finished out (fst r)]> (tasks st))
  | _, _ => st
  end.

Definition run_schedule (sched : list (nat * FetchOutcome)) (st : State) : State :=
  foldl (fun st e => settle_at (fst e) (snd e) st) st sched.

End Loading.

(** ** A concrete world and description, for evaluation *)

Fixpoint unary (n : nat) : string :=
  match n with O => "id" | S k => "x" +:+ unary k end.

Definition world0 : World :=
  mkWorld ∅ 0 0 ∅ None None None None unary 0.

Definition sofa_data : FurnitureData :=
  mkFurnitureData (Some "Sofa") (Some "seat") (Some "models/sofa.glb")
                  (Some (mkV n0 n0 n0)) None None.
Definition lamp_data : FurnitureData :=
  mkFurnitureData (Some "Lamp") (Some "light") None None None None.

Definition layout101_data : LayoutData :=
  mkLayoutData (Some "layout-101") (Some "Studio") None
    (Some [mkRoomData (Some "Living") (Some (Q2Qc 10)) (Some (Q2Qc 8))
                      (Some [sofa_data; lamp_data])]).

(** ** The viewer

    The update effect of [ThreeDViewer]: when the layout to show changes,
    the groups of the layouts shown so far are taken out of the scene and
    the root group of the new layout is added.  The scene is an object of
    the store like any other; its other children (floor, grid, lights)
    carry no [entityId]. *)

(** The store keeps no parent pointers: the parent of an object is the
    object that lists it among its children.  [object.removeFromParent()]. *)
Definition Object3D_removeFromParent (child : addr) (w : World) : World :=
  with_nodes (fmap (fun o => set_children (remove_first child (children o)) o)) w.

(** [parent.add(child)] for any child: THREE refuses to add an object to
    itself, and takes the child from the parent it has before appending
    it. *)
Definition Object3D_attach (parent child : addr) (w : World) : World :=
  if Nat.eqb parent child then w
  else Object3D_add parent child (Object3D_removeFromParent child w).

Module ThreeDViewer.

(** [for (let i = scene.children.length - 1; i >= 0; i--)], started with
    the number of children; [None] is the [TypeError] of reading
    [userData] of an index that holds no child. *)
Fixpoint removeLayouts (i : nat) (scene : addr) (w : World) : option World :=
  match i with
  | O => Some w
  | S i' =>
      match children (obj w scene) !! i' with
      | None => None
      | Some child =>
          removeLayouts i' scene
            (if truthy (entityId (userData (obj w child)))
             then Object3D_remove scene child w
             else w)
      end
  end.

(** The effect: nothing without a layout or without a scene. *)
Definition updateLayout (layoutData : option Layout3D.t) (sceneRef : option addr)
    (w : World) : option World :=
  match layoutData, sceneRef with
  | Some layoutData, Some scene =>
      w ← removeLayouts (length (children (obj w scene))) scene w;
      Some (Object3D_attach scene (Layout3D.group layoutData) w)
  | _, _ => Some w
  end.

(** The same loop in the version that cleans up what it removes: after
    [scene.remove(child)] the subtree of the child is traversed and the
    geometry and materials of every mesh are disposed.  The outer [None]
    is a traversal out of fuel, the inner one the [TypeError]. *)
Fixpoint removeAndDispose (fuel i : nat) (scene : addr) (w : World)
    : option (option World) :=
  match i with
  | O => Some (Some w)
  | S i' =>
      match children (obj w scene) !! i' with
      | None => Some None
      | Some child =>
          if truthy (entityId (userData (obj w child))) then
            w ← Object3D_traverse fuel Furniture.dispose_node child
                  (Object3D_remove scene child w);
            removeAndDispose fuel i' scene w
          else removeAndDispose fuel i' scene w
      end
  end.

End ThreeDViewer.

(** ** DXF import

    [ReconstructionEngine]: a parsed DXF drawing is turned into a group of
    wall meshes over a floor, centred on the origin and scaled to fit an
    area of 20 units.  [Math.sqrt], [Math.atan2] and [Math.PI] have no
    exact rational values and are taken from a record.  Every mesh the
    engine makes has a geometry and a material of its own; their
    parameters are recorded beside the store.  The arithmetic is exact
    here where the code computes in doubles: the results on the engine
    further down rest on the comparisons the code makes and on the
    structure of what it builds, not on the values it computes. *)

Record JSMath := mkMath {
  Math_sqrt : num → num;
  Math_atan2 : num → num → num;
  Math_PI : num }.

Record Vertex := mkVertex { vertex_x : num; vertex_y : num }.

(** An entity of the drawing; an absent [type] or [vertices] is [None],
    an absent [shape] or [closed] is falsy. *)
Record Entity := mkEntity {
  entity_type : option string;
  entity_vertices : option (list Vertex);
  entity_shape : bool;
  entity_closed : bool }.

Record DxfModel := mkDxfModel { dxf_entities : option (list Entity) }.

Inductive Shape :=
  | BoxGeometry (width height depth : num)
  | PlaneGeometry (width height : num).

Record Material := mkMaterial { mat_color : N; mat_doubleSide : bool }.

Record Studio := mkStudio {
  st_world : World;
  st_shapes : gmap handle Shape;
  st_materials : gmap handle Material }.

Definition with_world (w : World) (st : Studio) : Studio :=
  mkStudio w (st_shapes st) (st_materials st).

Definition new_geometry (s : Shape) (st : Studio) : handle * Studio :=
  let '(h, w) := alloc_resource (st_world st) in
  (h, mkStudio w (<[h := s]> (st_shapes st)) (st_materials st)).

Definition new_material (m : Material) (st : Studio) : handle * Studio :=
  let '(h, w) := alloc_resource (st_world st) in
  (h, mkStudio w (st_shapes st) (<[h := m]> (st_materials st))).

(** What a call returns: a value, or the [TypeError] of reading a property
    of [undefined]. *)
Inductive Result (A : Type) :=
  | Returned (a : A)
  | TypeError.
Arguments Returned {A} a.
Arguments TypeError {A}.

Module ReconstructionEngine.

Record t := mk { wallHeight : num; wallColor : N }.

Definition new : t := mk (Q2Qc (5 # 2)) 13421772%N.

(** The running bounds [minX, minY, maxX, maxY] start at plus and minus
    [Infinity], which no vertex reaches: they are [None] until the first
    vertex has been seen, and the coordinates of that vertex then. *)
Record Bounds := mkBounds { minX : num; minY : num; maxX : num; maxY : num }.

Definition updateBounds (v : Vertex) (b : option Bounds) : option Bounds :=
  match b with
  | None => Some (mkBounds (vertex_x v) (vertex_y v) (vertex_x v) (vertex_y v))
  | Some b =>
      Some (mkBounds
              (if num_ltb (vertex_x v) (minX b) then vertex_x v else minX b)
              (if num_ltb (vertex_y v) (minY b) then vertex_y v else minY b)
              (if num_ltb (maxX b) (vertex_x v) then vertex_x v else maxX b)
              (if num_ltb (maxY b) (vertex_y v) then vertex_y v else maxY b))
  end.

Definition scanBounds (entities : list Entity) : option Bounds :=
  foldl (fun b entity =>
           match entity_vertices entity with
           | Some vs => foldl (fun b v => updateBounds v b) b vs
           | None => b
           end)
        None entities.

Definition addWallSegment (M : JSMath) (this : t) (x1 y1 x2 y2 : num)
    (group : addr) (st : Studio) : Studio :=
  let dx := Qcminus x2 x1 in
  let dy := Qcminus y2 y1 in
  let length := Math_sqrt M (Qcplus (Qcmult dx dx) (Qcmult dy dy)) in
  if num_ltb length (Q2Qc (1 # 1000)) then st
  else
    let '(geometry, st) :=
      new_geometry (BoxGeometry length (wallHeight this) (Q2Qc (1 # 5))) st in
    let '(material, st) := new_material (mkMaterial (wallColor this) false) st in
    let '(wall, w) := alloc_obj (Mesh_blank geometry material) (st_world st) in
    let w := update_obj wall
               (set_position (mkV (Qcdiv (Qcplus x1 x2) n2)
                                  (Qcdiv (wallHeight this) n2)
                                  (Qcdiv (Qcopp (Qcplus y1 y2)) n2))) w in
    let angle := Math_atan2 M (Qcopp dy) dx in
    let w := update_obj wall
               (fun o => set_rotation (mkV (vx (rotation o)) angle (vz (rotation o))) o)
               w in
    with_world (Object3D_add group wall w) st.

(** The centring and scaling of a drawing, fixed once the bounds are
    known. *)
Record Fit := mkFit { centerX : num; centerY : num; scale : num }.

Definition offsetAndScale (f : Fit) (v : Vertex) : num * num :=
  (Qcmult (Qcminus (vertex_x v) (centerX f)) (scale f),
   Qcmult (Qcminus (vertex_y v) (centerY f)) (scale f)).

Definition addSegment (M : JSMath) (this : t) (f : Fit) (a b : Vertex)
    (group : addr) (st : Studio) : Studio :=
  let v1 := offsetAndScale f a in
  let v2 := offsetAndScale f b in
  addWallSegment M this (fst v1) (snd v1) (fst v2) (snd v2) group st.

(** [for (let i = 0; i < vertices.length - 1; i++)]: a wall between each
    vertex and the next. *)
Fixpoint addPolyline (M : JSMath) (this : t) (f : Fit) (vs : list Vertex)
    (group : addr) (st : Studio) : Studio :=
  match vs with
  | a :: ((b :: _) as rest) =>
      addPolyline M this f rest group (addSegment M this f a b group st)
  | _ => st
  end.

Definition isType (entity : Entity) (name : string) : bool :=
  bool_decide (entity_type entity = Some name).

(** The body of the second [forEach]. *)
Definition addEntity (M : JSMath) (this : t) (f : Fit) (entity : Entity)
    (group : addr) (st : Studio) : Result Studio :=
  if isType entity "LINE" then
    match entity_vertices entity with
    | Some (a :: b :: _) => Returned (addSegment M this f a b group st)
    | _ => TypeError
    end
  else if isType entity "LWPOLYLINE" || isType entity "POLYLINE" then
    match entity_vertices entity with
    | None => TypeError
    | Some vs =>
        let st := addPolyline M this f vs group st in
        if entity_shape entity || entity_closed entity then
          match last vs, head vs with
          | Some a, Some b => Returned (addSegment M this f a b group st)
          | _, _ => TypeError
          end
        else Returned st
    end
  else Returned st.

Fixpoint addEntities (M : JSMath) (this : t) (f : Fit) (entities : list Entity)
    (group : addr) (st : Studio) : Result Studio * Studio :=
  match entities with
  | [] => (Returned st, st)
  | entity :: rest =>
      match addEntity M this f entity group st with
      | Returned st => addEntities M this f rest group st
      | TypeError => (TypeError, st)
      end
  end.

Definition fit (b : Bounds) : Fit :=
  let width := Qcminus (maxX b) (minX b) in
  let height := Qcminus (maxY b) (minY b) in
  let maxDimension := Math_max2 width height in
  mkFit (Qcdiv (Qcplus (minX b) (maxX b)) n2)
        (Qcdiv (Qcplus (minY b) (maxY b)) n2)
        (if num_ltb n0 maxDimension then Qcdiv n20 maxDimension else n1).

Definition addFloor (M : JSMath) (b : Bounds) (group : addr) (st : Studio) : Studio :=
  let width := Qcminus (maxX b) (minX b) in
  let height := Qcminus (maxY b) (minY b) in
  let scale := scale (fit b) in
  let '(floorGeometry, st) :=
    new_geometry
      (PlaneGeometry
         (Math_max2 (Qcmult (Qcmult width scale) (Q2Qc (3 # 2))) (Q2Qc 50))
         (Math_max2 (Qcmult (Qcmult height scale) (Q2Qc (3 # 2))) (Q2Qc 50))) st in
  let '(floorMaterial, st) := new_material (mkMaterial 3355443%N true) st in
  let '(floor, w) := alloc_obj (Mesh_blank floorGeometry floorMaterial) (st_world st) in
  let w := update_obj floor
             (fun o => set_rotation
                         (mkV (Qcdiv (Qcopp (Math_PI M)) n2) (vy (rotation o))
                              (vz (rotation o))) o) w in
  let w := update_obj floor
             (fun o => set_position
                         (mkV (vx (position o)) (Qcopp (Q2Qc (1 # 100)))
                              (vz (position o))) o) w in
  with_world (Object3D_add group floor w) st.

(** [reconstruct(dxfModel)]: the group, or the [TypeError] of an entity
    that lacks the vertices its type needs, and the store either way. *)
Definition reconstruct (M : JSMath) (this : t) (dxfModel : option DxfModel)
    (st : Studio) : Result addr * Studio :=
  let '(group, w) := alloc_obj Group_blank (st_world st) in
  let st := with_world w st in
  match dxfModel with
  | None => (Returned group, st)
  | Some dxfModel =>
      match dxf_entities dxfModel with
      | None => (Returned group, st)
      | Some entities =>
          match scanBounds entities with
          | None => (Returned group, st)
          | Some b =>
              let st := addFloor M b group st in
              match addEntities M this (fit b) entities group st with
              | (Returned _, st) => (Returned group, st)
              | (TypeError, st) => (TypeError, st)
              end
          end
      end
  end.

End ReconstructionEngine.

(** The wrapper the viewer is given for an imported drawing. *)
Module ImportedLayout.

Record CameraSettings := mkCamera { cam_pos : Vector3; cam_target : Vector3 }.

Record t := mk { group : addr; id : string; cameraView : CameraSettings }.

(** [new ImportedLayout(group)] at clock reading [now] (milliseconds, as
    [Date.now()] returns them). *)
Definition new (now : N) (group : addr) (w : World) : t * World :=
  let entityId := "dxf-import-" +:+ pretty now in
  let w := update_obj group
             (fun o => set_userData
                         (mkUD (Some entityId) (ud_type (userData o))
                               (ud_name (userData o)) (isMaster (userData o))) o) w in
  (mk group entityId
      (mkCamera (mkV n0 n20 n20) (mkV n0 n0 n0)), w).

Definition dispose (fuel : nat) (this : t) (w : World) : option World :=
  Object3D_traverse fuel Furniture.dispose_node (group this) w.

End ImportedLayout.

(** * Specification vocabulary

    The predicates the lemmas and theorems are stated with. *)

(** ** Framing: what an operation leaves alone

    [frame keep w w'] holds when going from [w] to [w'] only allocates:
    objects at the addresses in [keep] are untouched, the static buffers
    once created stay the same, nothing is disposed, and the random stream
    only advances.  [bounded keep w]: every address to keep is allocated. *)

Definition bounded (keep : addr → Prop) (w : World) : Prop :=
  ∀ a, keep a → a < next_node w.

Definition slot_kept (s s' : option handle) : Prop :=
  ∀ h, s = Some h → s' = Some h.

Record frame (keep : addr → Prop) (w w' : World) : Prop := mkFrame {
  frame_next : next_node w ≤ next_node w';
  frame_nodes : ∀ a, keep a → nodes w' !! a = nodes w !! a;
  frame_wall_geometry : slot_kept (Wall_geometry w) (Wall_geometry w');
  frame_wall_material : slot_kept (Wall_material w) (Wall_material w');
  frame_ph_geometry :
    slot_kept (Furniture_placeholderGeometry w) (Furniture_placeholderGeometry w');
  frame_ph_material :
    slot_kept (Furniture_placeholderMaterial w) (Furniture_placeholderMaterial w');
  frame_random : random w' = random w;
  frame_drawn : drawn w ≤ drawn w';
  frame_disposed : disposed w' = disposed w }.

(** The addresses below [k]. *)
Definition below (k : addr) : addr → Prop := fun a => a < k.

(** Addresses below the allocation pointer, one excepted. *)
Definition below_except (w : World) (g : addr) : addr → Prop :=
  fun a => a < next_node w ∧ a ≠ g.

(** ** Facts about single objects *)

(** The store holds an object at [a], and it satisfies [P]. *)
Definition node_at (w : World) (a : addr) (P : Object3D → Prop) : Prop :=
  ∃ o, nodes w !! a = Some o ∧ P o.

Definition allocated (w : World) (a : addr) : Prop :=
  a < next_node w ∧ is_Some (nodes w !! a).

(** A wall mesh uses the class-wide geometry and material. *)
Definition wall_shared (w : World) (a : addr) : Prop :=
  ∃ g m, Wall_geometry w = Some g ∧ Wall_material w = Some m ∧
    node_at w a (fun o => geometry o = Some g ∧ material o = Some (SingleMaterial m)).

(** A placeholder mesh uses the class-wide placeholder buffers. *)
Definition placeholder_shared (w : World) (a : addr) : Prop :=
  ∃ g m, Furniture_placeholderGeometry w = Some g ∧
    Furniture_placeholderMaterial w = Some m ∧
    node_at w a (fun o => isMesh o = true ∧ geometry o = Some g ∧
                          material o = Some (SingleMaterial m)).

(** The identifier of an object is one of the draws [d0 .. drawn w) of the
    random stream. *)
Definition id_drawn (d0 : nat) (w : World) (a : addr) : Prop :=
  ∃ i, d0 ≤ i < drawn w ∧
    node_at w a (fun o => entityId (userData o) = Some (random w i)).

(** A copy agrees with the original on everything but the children,
    which are copies themselves. *)
Definition same_fields (o o' : Object3D) : Prop :=
  isMesh o' = isMesh o ∧ position o' = position o ∧ rotation o' = rotation o ∧
  scale o' = scale o ∧ userData o' = userData o ∧
  geometry o' = geometry o ∧ material o' = material o.

(** ** Subtrees of the store

    [tree k w n a]: the objects reachable from [a] in [w] lie below address
    [k] and form a structure of depth at most [n]. *)

Fixpoint tree (k : addr) (w : World) (n : nat) (a : addr) : Prop :=
  match n with
  | O => False
  | S n' => a < k ∧ Forall (tree k w n') (children (obj w a))
  end.

Fixpoint treeb (k : addr) (w : World) (n : nat) (a : addr) : bool :=
  match n with
  | O => false
  | S n' => (a <? k) && forallb (treeb k w n') (children (obj w a))
  end.

(** Every Furniture root of the layout heads a structure of depth at most
    [fuel] that lies below address [k]. *)
Definition Layout_trees (k fuel : nat) (w : World) (rooms : list Room.t) : Prop :=
  Forall (fun r => Forall (fun f => tree k w fuel (Furniture.root f))
                          (Room.furnitureList r)) rooms.

Definition Layout_treesb (k fuel : nat) (w : World) (rooms : list Room.t) : bool :=
  forallb (fun r => forallb (fun f => treeb k w fuel (Furniture.root f))
                            (Room.furnitureList r)) rooms.

(** A Furniture as hydration builds it: its root and its mesh were created
    after the world had [k] objects, the mesh is the one child of the root
    and has no children itself. *)
Definition Furniture_hung (k : addr) (w : World) (f : Furniture.t) : Prop :=
  k ≤ Furniture.mesh f ∧ Furniture.mesh f < Furniture.root f ∧
  Furniture.root f < next_node w ∧
  node_at w (Furniture.root f) (fun o => children o = [Furniture.mesh f]) ∧
  node_at w (Furniture.mesh f) (fun o => children o = []).

(** ** Clones and what they are made of *)

Definition wall_dims (wl : Wall.t) : Vector3 :=
  mkV (Wall.width wl) (Wall.height wl) (Wall.depth wl).

(** The four walls [generateWalls] builds for a room of the given width
    and depth: back, front, left, right. *)
Definition room_wall_dims (width depth : num) : list Vector3 :=
  [ mkV width Room.h Room.t_; mkV width Room.h Room.t_;
    mkV Room.t_ Room.h depth; mkV Room.t_ Room.h depth ].

(** One wall of [generateWalls]: construct, place, add to the room;
    [generateWalls] is four such blocks after the old walls are removed. *)
Definition wall_block (width height depth x y z : num) (rw : Room.t * World)
    : Room.t * World :=
  let '(wl, w1) := Wall.new width height depth (snd rw) in
  Room.addWall wl (fst rw) (Wall.setPosition x y z wl w1).

(** What is known of a wall created after the world had [k] objects and
    [d0] identifiers drawn. *)
Definition Wall_fresh (k d0 : nat) (w : World) (wl : Wall.t) : Prop :=
  k ≤ Wall.mesh wl ∧ Wall.mesh wl < next_node w ∧
  wall_shared w (Wall.mesh wl) ∧ id_drawn d0 w (Wall.mesh wl) ∧
  node_at w (Wall.mesh wl) (fun o => scale o = wall_dims wl).

(** The same of a Furniture, *)
Definition Furniture_fresh (k d0 : nat) (w : World) (f : Furniture.t) : Prop :=
  k ≤ Furniture.root f ∧ Furniture.root f < next_node w ∧
  k ≤ Furniture.mesh f ∧ Furniture.mesh f < next_node w ∧
  id_drawn d0 w (Furniture.root f).

(** and of a Room. *)
Definition Room_fresh (k d0 : nat) (w : World) (r : Room.t) : Prop :=
  k ≤ Room.group r ∧ Room.group r < next_node w ∧
  id_drawn d0 w (Room.group r) ∧
  Forall (Wall_fresh k d0 w) (Room.walls r) ∧
  Forall (Furniture_fresh k d0 w) (Room.furnitureList r).

(** A clone carries the attributes of its source. *)
Definition Furniture_cloned (f f' : Furniture.t) : Prop :=
  Furniture.name f' = Furniture.name f ∧
  Furniture.type f' = Furniture.type f ∧
  Furniture.modelUrl f' = Furniture.modelUrl f.

Definition Room_cloned (r r' : Room.t) : Prop :=
  Room.name r' = Room.name r ∧ Room.width r' = Room.width r ∧
  Room.depth r' = Room.depth r ∧
  map wall_dims (Room.walls r') = room_wall_dims (Room.width r) (Room.depth r) ∧
  Forall2 Furniture_cloned (Room.furnitureList r) (Room.furnitureList r').

Definition Layout_cloned (l l' : Layout3D.t) : Prop :=
  Layout3D.id l' = Layout3D.id l ∧
  Layout3D.description l' = Layout3D.description l ∧
  Layout3D.cameraView l' = Layout3D.cameraView l ∧
  Forall2 Room_cloned (Layout3D.rooms l) (Layout3D.rooms l').

(** ** Isolation *)

Definition transform (w : World) (a : addr) : Vector3 * Vector3 * Vector3 :=
  (position (obj w a), rotation (obj w a), scale (obj w a)).

(** The mutations of a Furniture transform. *)
Inductive Mutation :=
  | SetPosition (v : Vector3)
  | SetRotation (v : Vector3)
  | SetScale (v : Vector3).

Definition mutate (m : Mutation) (f : Furniture.t) (w : World) : World :=
  match m with
  | SetPosition v => Furniture.setPosition v f w
  | SetRotation v => Furniture.setRotation v f w
  | SetScale v => Furniture.setScale v f w
  end.

(** Mutating either of two Furniture leaves the transform of the other as
    it was, and a position written to the second is read back from it. *)
Definition isolated (w : World) (F F' : Furniture.t) : Prop :=
  (∀ m, transform (mutate m F' w) (Furniture.root F) = transform w (Furniture.root F)) ∧
  (∀ m, transform (mutate m F w) (Furniture.root F') = transform w (Furniture.root F')) ∧
  (∀ v, position (obj (Furniture.setPosition v F' w) (Furniture.root F')) = v).

(** ** Shared buffers *)

(** Two walls are distinct objects on one geometry handle and one material
    handle, those of the class. *)
Definition same_handles (w : World) (wl1 wl2 : Wall.t) : Prop :=
  Wall.mesh wl1 ≠ Wall.mesh wl2 ∧
  is_Some (geometry (obj w (Wall.mesh wl1))) ∧
  is_Some (material (obj w (Wall.mesh wl1))) ∧
  geometry (obj w (Wall.mesh wl1)) = geometry (obj w (Wall.mesh wl2)) ∧
  material (obj w (Wall.mesh wl1)) = material (obj w (Wall.mesh wl2)) ∧
  geometry (obj w (Wall.mesh wl1)) = Wall_geometry w ∧
  material (obj w (Wall.mesh wl1)) = SingleMaterial <$> Wall_material w.

(** What the program does to the store between two clones: objects are
    moved, re-parented and created and buffers are disposed, but an object
    that exists keeps its geometry and its material, and the class-wide
    wall buffers, once created, stay the same. *)
Definition buffers_kept (w w' : World) : Prop :=
  next_node w ≤ next_node w' ∧
  slot_kept (Wall_geometry w) (Wall_geometry w') ∧
  slot_kept (Wall_material w) (Wall_material w') ∧
  ∀ a o, a < next_node w → nodes w !! a = Some o →
    ∃ o', nodes w' !! a = Some o' ∧
          geometry o' = geometry o ∧ material o' = material o.

(** ** Identifiers *)

(** The random stream never yields the same identifier twice. *)
Definition no_repeat (w : World) : Prop :=
  ∀ i j, random w i = random w j → i = j.

(** The identifier of the object at [a] was drawn before [w]. *)
Definition drawn_earlier (w : World) (a : addr) : Prop :=
  ∃ j, j < drawn w ∧ entityId (userData (obj w a)) = Some (random w j).

(** The object at [a'] of [w'] carries an identifier drawn between [w] and
    [w']; it therefore differs from every identifier drawn before [w],
    unless the stream repeats itself. *)
Definition fresh_identifier (w w' : World) (a' : addr) : Prop :=
  (∃ i, drawn w ≤ i ∧ i < drawn w' ∧
        entityId (userData (obj w' a')) = Some (random w i)) ∧
  (no_repeat w → ∀ a, drawn_earlier w a →
     entityId (userData (obj w' a')) ≠ entityId (userData (obj w a))).

(** ** Loading *)

Definition gltf_position (g : GltfNode) : Vector3 :=
  match g with GNode _ p _ _ _ => p end.
Definition gltf_scale (g : GltfNode) : Vector3 :=
  match g with GNode _ _ _ s _ => s end.

(** The scale the normalization leaves on a model that came with scale [s]
    and bounding box [box]. *)
Definition normalized_scale (s : Vector3) (box : Box3) : Vector3 :=
  if num_ltb n0 (Loading.maxDim box)
  then Vector3_multiplyScalar s (Qcdiv n1 (Loading.maxDim box))
  else s.

(** Where a point of an unrotated object's own coordinate system lies in
    the coordinate system of its parent: THREE composes the local matrix as
    translation * rotation * scale. *)
Definition Object3D_localToParent (o : Object3D) (v : Vector3) : Vector3 :=
  Vector3_add (position o) (Vector3_multiply (scale o) v).

(** The coordinates of a vector as plain fractions. *)
Definition coords (v : Vector3) : Q * Q * Q :=
  (this (vx v), this (vy v), this (vz v)).

(** A task that is no longer waiting for its fetch. *)
Definition settled (t : Loading.Task) : Prop :=
  match t with Loading.Awaiting _ => False | _ => True end.

Definition completed_normally (t : Loading.Task) : Prop :=
  match t with Loading.Finished _ c => c = Normal tt | _ => True end.

(** The Furniture of a layout before loading: roots are distinct allocated
    objects, meshes are allocated and none is the root of a Furniture. *)
Record hydratable (w : World) (fs : list Furniture.t) : Prop := mkHydratable {
  roots_allocated : Forall (fun f => allocated w (Furniture.root f)) fs;
  meshes_below : Forall (fun f => Furniture.mesh f < next_node w) fs;
  roots_distinct : NoDup (map Furniture.root fs);
  meshes_not_roots :
    Forall (fun f => Forall (fun f' => Furniture.mesh f ≠ Furniture.root f') fs) fs }.

Definition hydratableb (w : World) (fs : list Furniture.t) : bool :=
  forallb (fun f => (Furniture.root f <? next_node w)
                    && bool_decide (is_Some (nodes w !! Furniture.root f))) fs
  && forallb (fun f => Furniture.mesh f <? next_node w) fs
  && bool_decide (NoDup (map Furniture.root fs))
  && forallb (fun f => forallb (fun f' => negb (Furniture.mesh f =? Furniture.root f'))
                               fs) fs.

(** What holds of one Furniture, given the state of its task: until its
    fetch succeeds, the Furniture, its root (and so the list of children
    under it) and its mesh are as they were; once it has, the model is a
    new object that is the Furniture's mesh, and the children of the root
    are those it had, without the mesh the Furniture had, followed by the
    model. *)
Definition task_post (w0 w : World) (f0 f : Furniture.t) (t : Loading.Task) : Prop :=
  match t with
  | Loading.Finished (Fetched _) _ =>
      ∃ model, next_node w0 ≤ model ∧ f = Furniture.set_mesh model f0 ∧
        children (obj w (Furniture.root f0)) =
          remove_first (Furniture.mesh f0) (children (obj w0 (Furniture.root f0)))
          ++ [model]
  | _ =>
      f = f0 ∧
      nodes w !! Furniture.root f0 = nodes w0 !! Furniture.root f0 ∧
      nodes w !! Furniture.mesh f0 = nodes w0 !! Furniture.mesh f0
  end.

(** The invariant of [loadAssets] in flight, with respect to the world
    [w0] and the Furniture [fs0] it started from. *)
Definition load_invariant (w0 : World) (fs0 : list Furniture.t) (st : Loading.State)
    : Prop :=
  length (Loading.furniture st) = length fs0 ∧
  length (Loading.tasks st) = length fs0 ∧
  next_node w0 ≤ next_node (Loading.world st) ∧
  ∀ k f0, fs0 !! k = Some f0 →
    ∃ f t, Loading.furniture st !! k = Some f ∧ Loading.tasks st !! k = Some t ∧
           task_post w0 (Loading.world st) f0 f t ∧ completed_normally t.

Definition settled_at (st : Loading.State) (j : nat) : Prop :=
  ∃ t, Loading.tasks st !! j = Some t ∧ settled t.

Definition same_lengths (st : Loading.State) : Prop :=
  length (Loading.furniture st) = length (Loading.tasks st).

(** The schedule that settles the tasks in index order. *)
Definition in_order (outcomes : nat → FetchOutcome) (n : nat)
    : list (nat * FetchOutcome) :=
  map (fun k => (k, outcomes k)) (seq 0 n).

(** ** Hydration *)

Definition absent {A : Type} (o : option A) : bool :=
  match o with Some _ => false | None => true end.

(** The fields the description format requires: [id], [name] and [rooms]
    of a layout, [name] and [furniture] of a room, [name] and [type] of a
    Furniture. *)
Definition Furniture_missing_required (d : FurnitureData) : bool :=
  absent (fd_name d) || absent (fd_type d).

Definition Room_missing_required (d : RoomData) : bool :=
  absent (rd_name d) || absent (rd_furniture d)
  || existsb Furniture_missing_required (default [] (rd_furniture d)).

Definition Layout_missing_required (d : LayoutData) : bool :=
  absent (ld_id d) || absent (ld_name d) || absent (ld_rooms d)
  || existsb Room_missing_required (default [] (ld_rooms d)).

(** What hydration builds from a description, field by field. *)
Definition Furniture_hydrated (d : FurnitureData) (f : Furniture.t) : Prop :=
  Furniture.name f = fd_name d ∧ Furniture.type f = fd_type d ∧
  Furniture.modelUrl f = fd_modelUrl d.

Definition Room_hydrated (d : RoomData) (r : Room.t) : Prop :=
  Room.name r = rd_name d ∧
  Room.width r = default n20 (rd_width d) ∧
  Room.depth r = default n20 (rd_depth d) ∧
  length (Room.walls r) = 4 ∧
  Forall2 Furniture_hydrated (default [] (rd_furniture d)) (Room.furnitureList r).

Definition Layout_hydrated (d : LayoutData) (l : Layout3D.t) : Prop :=
  Layout3D.id l = ld_id d ∧ Layout3D.description l = ld_name d ∧
  Layout3D.cameraView l = ld_cameraView d ∧
  Forall2 Room_hydrated (default [] (ld_rooms d)) (Layout3D.rooms l).

(** ** The running example *)

(** The master hydrated from the description, the world it lives in, and
    the registry it is registered in. *)
Definition master101 : Layout3D.t := fst (Layout3D.fromJSON layout101_data world0).
Definition world101 : World := snd (Layout3D.fromJSON layout101_data world0).

Definition registry101 : LayoutRegistry.t :=
  LayoutRegistry.registerMaster "layout-101" master101 LayoutRegistry.new.

(** The sofa hydrated on its own. *)
Definition sofa0 : Furniture.t := fst (FurnitureFactory.fromJSON sofa_data world0).
Definition world_sofa : World := snd (FurnitureFactory.fromJSON sofa_data world0).

(** The sofa after its fetch failed. *)
Definition failed_sofa : Furniture.t * World :=
  snd (Loading.loadModel_resume (Failed (Error "404")) sofa0 world_sofa).

(** An asset that is a single point. *)
Definition point_asset : Gltf :=
  mkGltf (GNode true Vector3_zero Vector3_zero Vector3_one [])
         (mkBox Vector3_one Vector3_one).

(** A cube of side 4 authored with one corner at its origin. *)
Definition cube4 : Gltf :=
  mkGltf (GNode true Vector3_zero Vector3_zero Vector3_one [])
         (mkBox Vector3_zero (mkV (Q2Qc 4) (Q2Qc 4) (Q2Qc 4))).

(** A description with no [id], whose room has neither name nor size, and
    whose Furniture has no type. *)
Definition malformed_data : LayoutData :=
  mkLayoutData None (Some "Studio") None
    (Some [mkRoomData None None None
             (Some [mkFurnitureData (Some "Sofa") None None None None None])]).

(** ** Deep copies *)

(** What a copy made by [Object3D.copy] has of its source: the kind, the
    position and the scale, the [userData], the geometry and the
    material.  The rotation is left open: THREE copies the quaternion and
    derives the Euler angles from it again, which gives the same rotation
    but not always the same three angles. *)
Definition same_make (o o' : Object3D) : Prop :=
  isMesh o' = isMesh o ∧ position o' = position o ∧ scale o' = scale o ∧
  userData o' = userData o ∧ geometry o' = geometry o ∧ material o' = material o.

(** [copy_of lo hi n w w' a a']: what stands at [a'] in [w'] repeats what
    stands at [a] in [w], object by object down to depth [n]: the same
    position and scale, [userData], geometry and material handles, and as
    many children, copies in turn; and every object of the copy lies at an
    address in [lo, hi). *)
Fixpoint copy_of (lo hi : addr) (n : nat) (w w' : World) (a a' : addr) : Prop :=
  match n with
  | O => False
  | S n' =>
      (lo ≤ a' ∧ a' < hi) ∧ same_make (obj w a) (obj w' a') ∧
      Forall2 (copy_of lo hi n' w w') (children (obj w a)) (children (obj w' a'))
  end.

(** The Furniture [c] of [w'] deep-copies the Furniture [f] of [w]: its root
    is an object at an address in [lo, hi) with the position and the scale
    of [f]'s root, over copies, [n] levels deep, of what stands under
    [f]'s root. *)
Definition Furniture_copy (lo hi n : nat) (w w' : World) (f c : Furniture.t) : Prop :=
  (lo ≤ Furniture.root c ∧ Furniture.root c < hi) ∧
  (position (obj w' (Furniture.root c)) = position (obj w (Furniture.root f)) ∧
   scale (obj w' (Furniture.root c)) = scale (obj w (Furniture.root f))) ∧
  Forall2 (copy_of lo hi n w w')
          (children (obj w (Furniture.root f)))
          (children (obj w' (Furniture.root c))).

(** Room by room and Furniture by Furniture, the layout [l'] of [w']
    deep-copies the layout [l] of [w]. *)
Definition Layout_copy (lo hi n : nat) (w w' : World) (l l' : Layout3D.t) : Prop :=
  Forall2 (fun r r' =>
             Forall2 (Furniture_copy lo hi n w w')
                     (Room.furnitureList r) (Room.furnitureList r'))
          (Layout3D.rooms l) (Layout3D.rooms l').

(** ** Buffers *)

(** The class-wide slots that are still [null]. *)
Definition unset (s : option handle) : nat :=
  match s with Some _ => 0 | None => 1 end.

Definition empty_slots (w : World) : nat :=
  unset (Wall_geometry w) + unset (Wall_material w)
  + unset (Furniture_placeholderGeometry w) + unset (Furniture_placeholderMaterial w).

(** Going from [w] to [w'], a buffer was created only to fill a class-wide
    slot that was empty. *)
Definition thrifty (w w' : World) : Prop :=
  next_resource w ≤ next_resource w' ∧
  next_resource w' + empty_slots w' = next_resource w + empty_slots w.

(** The resource pool and the class-wide slots are the same in both. *)
Definition same_pool (w w' : World) : Prop :=
  next_resource w' = next_resource w ∧
  Wall_geometry w' = Wall_geometry w ∧ Wall_material w' = Wall_material w ∧
  Furniture_placeholderGeometry w' = Furniture_placeholderGeometry w ∧
  Furniture_placeholderMaterial w' = Furniture_placeholderMaterial w.

(** ** The scene graph and the entity lists *)

(** Where [generateWalls] puts the four walls of a room of the given width
    and depth: back, front, left, right, each standing on the floor. *)
Definition room_wall_positions (width depth : num) : list Vector3 :=
  [ mkV n0 (Qcdiv Room.h n2) (Qcdiv (Qcopp depth) n2);
    mkV n0 (Qcdiv Room.h n2) (Qcdiv depth n2);
    mkV (Qcdiv (Qcopp width) n2) (Qcdiv Room.h n2) n0;
    mkV (Qcdiv width n2) (Qcdiv Room.h n2) n0 ].

(** The children of a room's group are the meshes of its walls followed by
    the roots of its Furniture, in the order of the entity lists. *)
Definition Room_mirrored (w : World) (r : Room.t) : Prop :=
  children (obj w (Room.group r))
    = map Wall.mesh (Room.walls r) ++ map Furniture.root (Room.furnitureList r).

(** The children of the layout's group are the groups of its rooms, and
    every room is mirrored. *)
Definition Layout_mirrored (w : World) (l : Layout3D.t) : Prop :=
  children (obj w (Layout3D.group l)) = map Room.group (Layout3D.rooms l) ∧
  Forall (Room_mirrored w) (Layout3D.rooms l).

(** ** Hydrated placement *)

(** The transform a Furniture description asks for: an absent position or
    rotation is the origin, an absent scale is one. *)
Definition described_transform (d : FurnitureData) : Vector3 * Vector3 * Vector3 :=
  (default Vector3_zero (fd_position d),
   default Vector3_zero (fd_rotation d),
   default Vector3_one (fd_scale d)).

(** The root of [f] is an object at an address in [lo, hi) that carries
    the transform [d] describes. *)
Definition Furniture_placed (lo hi : addr) (w : World) (d : FurnitureData)
    (f : Furniture.t) : Prop :=
  (lo ≤ Furniture.root f ∧ Furniture.root f < hi) ∧
  transform w (Furniture.root f) = described_transform d.

(** The walls of [r] are meshes at addresses in [lo, hi), scaled to their
    dimensions and standing where [generateWalls] puts the walls of a room
    of [r]'s width and depth. *)
Definition Room_walled (lo hi : addr) (w : World) (r : Room.t) : Prop :=
  Forall (fun wl => lo ≤ Wall.mesh wl ∧ Wall.mesh wl < hi) (Room.walls r) ∧
  map wall_dims (Room.walls r) = room_wall_dims (Room.width r) (Room.depth r) ∧
  map (fun wl => scale (obj w (Wall.mesh wl))) (Room.walls r)
    = room_wall_dims (Room.width r) (Room.depth r) ∧
  map (fun wl => position (obj w (Wall.mesh wl))) (Room.walls r)
    = room_wall_positions (Room.width r) (Room.depth r).

(** What hydration makes of a room description, in the store. *)
Definition Room_placed (lo hi : addr) (w : World) (d : RoomData) (r : Room.t) : Prop :=
  Room_walled lo hi w r ∧
  Forall2 (Furniture_placed lo hi w) (default [] (rd_furniture d))
          (Room.furnitureList r).

(** ** Disposal *)

(** The world with another set of disposed buffers. *)
Definition set_disposed (D : gset handle) (w : World) : World :=
  mkWorld (nodes w) (next_node w) (next_resource w) D
          (Wall_geometry w) (Wall_material w)
          (Furniture_placeholderGeometry w) (Furniture_placeholderMaterial w)
          (random w) (drawn w).

Definition material_buffers (m : MaterialRef) : gset handle :=
  match m with
  | SingleMaterial h => {[h]}
  | MaterialArray hs => list_to_set hs
  end.

(** The geometry and the materials of a mesh; a group has none. *)
Definition node_buffers (o : Object3D) : gset handle :=
  if isMesh o then
    from_option (fun g => {[g]}) ∅ (geometry o)
    ∪ from_option material_buffers ∅ (material o)
  else ∅.

(** The buffers of the meshes of a subtree, [fuel] levels deep. *)
Fixpoint subtree_buffers (fuel : nat) (w : World) (a : addr) : gset handle :=
  match fuel with
  | O => ∅
  | S fuel' =>
      node_buffers (obj w a)
      ∪ ⋃ (map (subtree_buffers fuel' w) (children (obj w a)))
  end.

(** The buffers [dispose] reaches from a Furniture: those under its [mesh]
    when it has a model URL, none otherwise. *)
Definition Furniture_buffers (fuel : nat) (w : World) (f : Furniture.t)
    : gset handle :=
  if truthy (Furniture.modelUrl f) then subtree_buffers fuel w (Furniture.mesh f)
  else ∅.

Definition Layout_buffers (fuel : nat) (w : World) (l : Layout3D.t) : gset handle :=
  ⋃ (map (Furniture_buffers fuel w) (Layout3D.furniture l)).

(** ** The registry *)

(** A series of [registerMaster] calls, in order. *)
Definition register_all (regs : list (string * Layout3D.t))
    (this : LayoutRegistry.t) : LayoutRegistry.t :=
  foldl (fun reg e => LayoutRegistry.registerMaster (fst e) (snd e) reg) this regs.

(** ** The viewer's scene *)

(** An object that belongs to no layout: it carries no identifier, or an
    empty one. *)
Definition anonymous (w : World) (c : addr) : bool :=
  negb (truthy (entityId (userData (obj w c)))).

(** [within P w n a]: the objects reachable from [a] in [w] satisfy [P] and
    form a structure of depth at most [n]. *)
Fixpoint within (P : addr → Prop) (w : World) (n : nat) (a : addr) : Prop :=
  match n with
  | O => False
  | S n' => P a ∧ Forall (within P w n') (children (obj w a))
  end.

(** A scene as the viewer keeps it: a floor that carries no identifier,
    and the master of the running example on show. *)
Definition scene101 : addr * World :=
  let '(floor, w) := alloc_obj Group_blank world101 in
  let '(scene, w) := alloc_obj Group_blank w in
  let w := Object3D_add scene floor w in
  (scene, Object3D_add scene (Layout3D.group master101) w).

(** ** Drawings *)

(** The vertices the bounds are taken over. *)
Definition all_vertices (entities : list Entity) : list Vertex :=
  concat (map (fun e => default [] (entity_vertices e)) entities).

(** A mesh without children on the geometry [gh] and the material that
    was created right after it. *)
Definition dxf_mesh (w : World) (c : addr) (gh : handle) : Prop :=
  node_at w c (fun o => isMesh o = true ∧ children o = [] ∧
                        geometry o = Some gh ∧
                        material o = Some (SingleMaterial (S gh))).

(** A wall of the reconstruction, on the geometry [h]: a box as high as
    the engine's walls and 0.2 thick, of a length that is not below 0.001,
    in the one-sided wall colour, standing at half the wall height. *)
Definition wall_built (this : ReconstructionEngine.t) (st : Studio) (c : addr)
    (h : handle) : Prop :=
  vy (position (obj (st_world st) c))
    = Qcdiv (ReconstructionEngine.wallHeight this) n2 ∧
  (∃ length,
     st_shapes st !! h
       = Some (BoxGeometry length (ReconstructionEngine.wallHeight this)
                           (Q2Qc (1 # 5))) ∧
     num_ltb length (Q2Qc (1 # 1000)) = false) ∧
  st_materials st !! S h
    = Some (mkMaterial (ReconstructionEngine.wallColor this) false).

(** The group [g] after [k] meshes have been added to it: they are the
    [k] objects created after the group, each on two buffers of its own,
    created in turn from [r0] on. *)
Definition reconstructed (g : addr) (r0 : handle) (k : nat) (w : World) : Prop :=
  next_node w = S g + k ∧ next_resource w = r0 + 2 * k ∧
  node_at w g (fun o => o = set_children (seq (S g) k) Group_blank) ∧
  (∀ i, i < k → dxf_mesh w (S g + i) (r0 + 2 * i)).

(** All of the [k] meshes but the first, the floor, are walls. *)
Definition walls_built (this : ReconstructionEngine.t) (g : addr) (r0 : handle)
    (k : nat) (st : Studio) : Prop :=
  ∀ i, 0 < i → i < k → wall_built this st (S g + i) (r0 + 2 * i).

(** The buffers of the studio below [r] are those of [st]. *)
Definition same_catalogue (r : handle) (st st' : Studio) : Prop :=
  ∀ h, h < r → st_shapes st' !! h = st_shapes st !! h ∧
               st_materials st' !! h = st_materials st !! h.

(** From [st] to [st'] the objects below [n] other than the group [g]
    and the buffers below [r] stay as they are, and nothing is disposed. *)
Definition kept (g n : addr) (r : handle) (st st' : Studio) : Prop :=
  frame (fun b => b ≠ g ∧ b < n) (st_world st) (st_world st') ∧
  same_catalogue r st st'.

(** A step of the reconstruction that found [k] meshes under the group
    and leaves at least as many. *)
Definition progress (this : ReconstructionEngine.t) (g : addr) (r0 : handle)
    (k : nat) (st st' : Studio) : Prop :=
  ∃ k', k ≤ k' ∧ reconstructed g r0 k' (st_world st') ∧
        walls_built this g r0 k' st' ∧
        kept g (S g + k) (r0 + 2 * k) st st'.

(** The floor of a reconstruction: a mesh without children on a plane, in
    the dark two-sided material, turned by [-Math.PI / 2] about x and
    laid at y = -0.01. *)
Definition floor_laid (M : JSMath) (st : Studio) (c : addr) : Prop :=
  ∃ h, (∃ width height, st_shapes st !! h = Some (PlaneGeometry width height)) ∧
       st_materials st !! S h = Some (mkMaterial 3355443%N true) ∧
       nodes (st_world st) !! c
         = Some (set_position (mkV n0 (Qcopp (Q2Qc (1 # 100))) n0)
                   (set_rotation (mkV (Qcdiv (Qcopp (Math_PI M)) n2) n0 n0)
                      (Mesh_blank h (S h)))).

(** An entity the second pass can read: a line has two vertices, a
    polyline has a list of vertices, and one to close is not empty. *)
Definition drawable (e : Entity) : bool :=
  if ReconstructionEngine.isType e "LINE" then
    match entity_vertices e with
    | Some (_ :: _ :: _) => true
    | _ => false
    end
  else if ReconstructionEngine.isType e "LWPOLYLINE"
          || ReconstructionEngine.isType e "POLYLINE" then
    match entity_vertices e with
    | Some vs => negb (entity_shape e || entity_closed e) || negb (bool_decide (vs = []))
    | None => false
    end
  else true.

(** The entities of a model; none when the model or its list is absent. *)
Definition model_entities (model : option DxfModel) : list Entity :=
  default [] (model ≫= dxf_entities).

(** *** A sample drawing *)

(** [Math] as far as the sample drawing needs it, whose walls run along
    the axes: square roots that are exact on squares of rationals, the
    angles of the four axis directions (0 elsewhere), and 355/113 for
    PI. *)
Definition sampleMath : JSMath :=
  let pi := Q2Qc (355 # 113) in
  mkMath (fun x => Q2Qc (Z.sqrt (Qnum x) # Pos.sqrt (Qden x)))
         (fun y x =>
            if bool_decide (y = n0) then (if num_ltb x n0 then pi else n0)
            else if bool_decide (x = n0) then
                   (if num_ltb y n0 then Qcopp (Qcdiv pi n2) else Qcdiv pi n2)
                 else n0)
         pi.

Definition vertex (x y : Z) : Vertex := mkVertex (Q2Qc (inject_Z x)) (Q2Qc (inject_Z y)).

(** A closed outline of 8 by 6 with a partition across it, and a text
    entity that carries no vertices. *)
Definition sample_drawing : DxfModel :=
  mkDxfModel (Some
    [ mkEntity (Some "LWPOLYLINE")
        (Some [vertex 100 100; vertex 108 100; vertex 108 106; vertex 100 106])
        false true;
      mkEntity (Some "LINE") (Some [vertex 104 100; vertex 104 106]) false false;
      mkEntity (Some "TEXT") None false false ]).

(** A drawing whose only entity is a line without vertices. *)
Definition blank_drawing : DxfModel :=
  mkDxfModel (Some [mkEntity (Some "LINE") None false false]).

(** The outline with a line that lost its vertices. *)
Definition broken_drawing : DxfModel :=
  mkDxfModel (Some (default [] (dxf_entities sample_drawing)
                    ++ default [] (dxf_entities blank_drawing))).

Definition studio0 : Studio := mkStudio world0 ∅ ∅.

(** ** A hall without models *)

(** A layout whose only Furniture has no model to load. *)
Definition hall_data : LayoutData :=
  mkLayoutData (Some "layout-7") (Some "Hall") None
    (Some [mkRoomData (Some "Hall") None None (Some [lamp_data])]).

Definition hall : Layout3D.t := fst (Layout3D.fromJSON hall_data world0).
Definition world_hall : World := snd (Layout3D.fromJSON hall_data world0).

(** ** Proof automation *)

(** Resolve a lookup in a store built from inserts and alters. *)
Ltac lookup_simpl :=
  repeat first [ rewrite lookup_alter_ne by congruence
               | rewrite lookup_insert_ne by congruence
               | rewrite lookup_alter_eq
               | rewrite lookup_insert_eq ].

(** * Verification *)

(** ** Framing *)

Lemma frame_refl keep w : frame keep w w.
Proof. constructor; unfold slot_kept; auto. Qed.

Lemma frame_trans keep w1 w2 w3 :
  frame keep w1 w2 → frame keep w2 w3 → frame keep w1 w3.
Proof.
  intros [] []. constructor; unfold slot_kept in *;
    [lia | intros a Ha; rewrite frame_nodes1 by done; auto | auto | auto | auto | auto
    | congruence | lia | congruence].
Qed.

Lemma frame_weaken (keep keep' : addr → Prop) w w' :
  (∀ a, keep' a → keep a) → frame keep w w' → frame keep' w w'.
Proof. intros Hk []. constructor; auto. Qed.

Lemma bounded_frame keep w w' : bounded keep w → frame keep w w' → bounded keep w'.
Proof. intros Hb [] a Ha. specialize (Hb a Ha). lia. Qed.

Lemma frame_obj keep w w' a : frame keep w w' → keep a → obj w' a = obj w a.
Proof. intros [] Ha. unfold obj. by rewrite frame_nodes0. Qed.

Lemma frame_update_obj keep a f w :
  ¬ keep a → frame keep w (update_obj a f w).
Proof.
  intros Ha. constructor; unfold slot_kept; auto. intros b Hb. simpl.
  apply lookup_alter_ne. by intros ->.
Qed.

Lemma frame_alloc_obj keep o w :
  bounded keep w → frame keep w (snd (alloc_obj o w)).
Proof.
  intros Hb. constructor; unfold slot_kept; simpl; auto.
  intros a Ha. apply lookup_insert_ne. specialize (Hb a Ha). lia.
Qed.

Lemma frame_alloc_resource keep w : frame keep w (snd (alloc_resource w)).
Proof. constructor; unfold slot_kept; simpl; auto. Qed.

Lemma frame_generateId keep w : frame keep w (snd (generateId w)).
Proof. constructor; unfold slot_kept; simpl; auto. Qed.

Lemma frame_Object3D_add keep p c w : ¬ keep p → frame keep w (Object3D_add p c w).
Proof. apply frame_update_obj. Qed.

Lemma frame_Object3D_remove keep p c w :
  ¬ keep p → frame keep w (Object3D_remove p c w).
Proof. apply frame_update_obj. Qed.

(** A freshly allocated address is never one that has to be kept. *)
Lemma bounded_fresh keep w a : bounded keep w → next_node w ≤ a → ¬ keep a.
Proof. intros Hb Hle Hk. specialize (Hb a Hk). lia. Qed.

(** Reading the store after the primitive operations. *)
Lemma obj_update_eq a f w :
  is_Some (nodes w !! a) → obj (update_obj a f w) a = f (obj w a).
Proof.
  intros [o Ho]. unfold obj, update_obj. simpl.
  rewrite lookup_alter_eq, Ho. done.
Qed.

Lemma obj_update_ne a b f w : a ≠ b → obj (update_obj a f w) b = obj w b.
Proof. intros Hne. unfold obj, update_obj. simpl. by rewrite lookup_alter_ne. Qed.

Lemma obj_alloc_eq o w : obj (snd (alloc_obj o w)) (next_node w) = o.
Proof. unfold obj. simpl. by rewrite lookup_insert_eq. Qed.

Lemma obj_alloc_ne o w b : b ≠ next_node w → obj (snd (alloc_obj o w)) b = obj w b.
Proof. intros Hne. unfold obj. simpl. by rewrite lookup_insert_ne. Qed.

(** ** Facts about single objects, and their stability *)

Lemma node_at_frame keep w w' a P :
  frame keep w w' → keep a → node_at w a P → node_at w' a P.
Proof.
  intros Hf Hk (o & Ho & HP). exists o. split; [|done].
  by rewrite (frame_nodes _ _ _ Hf a Hk).
Qed.

Lemma node_at_obj w a P : node_at w a P → P (obj w a).
Proof. intros (o & Ho & HP). unfold obj. by rewrite Ho. Qed.

Lemma node_at_impl w a (P Q : Object3D → Prop) :
  (∀ o, P o → Q o) → node_at w a P → node_at w a Q.
Proof. intros H (o & Ho & HP). exists o. auto. Qed.

(** Updating an object in place. *)
Lemma node_at_update_eq w a f (P Q : Object3D → Prop) :
  (∀ o, P o → Q (f o)) → node_at w a P → node_at (update_obj a f w) a Q.
Proof.
  intros H (o & Ho & HP). exists (f o). split; [|auto].
  simpl. by rewrite lookup_alter_eq, Ho.
Qed.

Lemma node_at_update_ne w a b f P :
  a ≠ b → node_at w b P → node_at (update_obj a f w) b P.
Proof.
  intros Hne (o & Ho & HP). exists o. split; [|done].
  simpl. by rewrite lookup_alter_ne.
Qed.

Lemma wall_shared_frame keep w w' a :
  frame keep w w' → keep a → wall_shared w a → wall_shared w' a.
Proof.
  intros Hf Hk (g & m & Hg & Hm & Hn). exists g, m.
  split; [by apply (frame_wall_geometry _ _ _ Hf)|].
  split; [by apply (frame_wall_material _ _ _ Hf)|].
  by eapply node_at_frame.
Qed.

Lemma id_drawn_frame keep d0 w w' a :
  frame keep w w' → keep a → id_drawn d0 w a → id_drawn d0 w' a.
Proof.
  intros Hf Hk (i & Hi & Hn). exists i.
  split; [pose proof (frame_drawn _ _ _ Hf); lia|].
  rewrite (frame_random _ _ _ Hf). by eapply node_at_frame.
Qed.

Lemma id_drawn_weaken d0 d1 w a : d0 ≤ d1 → id_drawn d1 w a → id_drawn d0 w a.
Proof. intros Hle (i & Hi & Hn). exists i. split; [lia|done]. Qed.

(** ** The constructors *)

Lemma Wall_new_spec keep width height depth w wl w' :
  Wall.new width height depth w = (wl, w') →
  bounded keep w →
  frame keep w w' ∧
  wl = Wall.mk width height depth (next_node w) ∧
  next_node w' = S (next_node w) ∧
  drawn w' = S (drawn w) ∧
  wall_shared w' (next_node w) ∧
  node_at w' (next_node w) (fun o =>
    scale o = mkV width height depth ∧ position o = Vector3_zero ∧
    children o = [] ∧
    userData o = mkUD (Some (random w (drawn w))) (Some "Wall") None None).
Proof.
  destruct w as [ns nn nr ds wg wm pg pm rnd dr].
  unfold Wall.new, ensure, bounded. simpl.
  intros Hnew Hb.
  assert (Hfresh : ∀ a, keep a → a ≠ nn).
  { intros a Ha ->. specialize (Hb _ Ha). lia. }
  destruct wg as [g|], wm as [m|]; simpl in Hnew; injection Hnew as <- <-;
    (split; [constructor; unfold slot_kept; simpl; auto;
              [intros a Ha; rewrite !lookup_alter_ne, lookup_insert_ne by (specialize (Hfresh a Ha); congruence); done
              | try (intros ? [=]) ..]
            |]);
    (split; [done|]); (split; [done|]); (split; [done|]);
    (split; [ eexists _, _; split; [reflexivity|]; split; [reflexivity|];
              eexists; split; [simpl; rewrite !lookup_alter_eq, lookup_insert_eq; reflexivity | done]
            | eexists; split; [simpl; rewrite !lookup_alter_eq, lookup_insert_eq; reflexivity | done] ]).
Qed.

Lemma Furniture_new_spec keep name type url w f w' :
  Furniture.new name type url w = (f, w') →
  bounded keep w →
  frame keep w w' ∧
  f = Furniture.mk name type url (next_node w) (S (next_node w)) ∧
  next_node w' = S (S (next_node w)) ∧
  drawn w' = S (S (drawn w)) ∧
  placeholder_shared w' (next_node w) ∧
  node_at w' (next_node w) (fun o =>
    children o = [] ∧
    userData o = mkUD (Some (random w (drawn w))) (Some "Furniture") name None) ∧
  node_at w' (S (next_node w)) (fun o =>
    children o = [next_node w] ∧ position o = Vector3_zero ∧
    rotation o = Vector3_zero ∧ scale o = Vector3_one ∧
    userData o = mkUD (Some (random w (S (drawn w)))) (Some "Furniture") name None).
Proof.
  destruct w as [ns nn nr ds wg wm pg pm rnd dr].
  unfold Furniture.new, ensure, bounded. simpl.
  intros Hnew Hb.
  assert (Hfresh : ∀ a, keep a → a ≠ nn ∧ a ≠ S nn).
  { intros a Ha. specialize (Hb _ Ha). lia. }
  assert (Hne : nn ≠ S nn) by lia.
  assert (Hne' : S nn ≠ nn) by lia.
  destruct pg as [g|], pm as [m|]; simpl in Hnew; injection Hnew as <- <-;
    (split; [constructor; unfold slot_kept; simpl; auto;
              [intros a Ha; destruct (Hfresh a Ha);
               lookup_simpl; done
              | try (intros ? [=]) ..]
            |]);
    (split; [done|]); (split; [done|]); (split; [done|]);
    (split; [ eexists _, _; split; [reflexivity|]; split; [reflexivity|];
              eexists; split;
                [simpl; lookup_simpl; reflexivity | done]
            |]);
    (split; [ eexists; split;
                [simpl; lookup_simpl; reflexivity | done]
            | eexists; split;
                [simpl; lookup_simpl; reflexivity | done] ]).
Qed.

(** ** Cloning a subtree of the store *)

Lemma tree_mono k w n m a : n ≤ m → tree k w n a → tree k w m a.
Proof.
  revert m a. induction n as [|n IH]; intros m a Hle; [done|].
  destruct m as [|m]; [lia|]. simpl. intros [Ha Hc]. split; [done|].
  eapply Forall_impl; [exact Hc|]. intros c. apply IH. lia.
Qed.

Lemma tree_frame keep k w w' n a :
  frame keep w w' → (∀ b, b < k → keep b) → tree k w n a → tree k w' n a.
Proof.
  intros Hf Hk. revert a. induction n as [|n IH]; intros a; [done|].
  simpl. intros [Ha Hc]. split; [done|].
  rewrite (frame_obj keep w w' a Hf (Hk a Ha)).
  eapply Forall_impl; [exact Hc|]. auto.
Qed.

Lemma tree_bound k w n a : tree k w n a → a < k.
Proof. destruct n; simpl; [done|]. by intros []. Qed.

Lemma clone_children_frame (rec : addr → World → option (addr * World))
    (keep : addr → Prop) :
  (∀ c w c' w', rec c w = Some (c', w') → bounded keep w →
     frame keep w w' ∧ next_node w ≤ c' ∧ c' < next_node w') →
  ∀ parent cs w w',
    clone_children rec parent cs w = Some w' →
    bounded keep w → ¬ keep parent → frame keep w w'.
Proof.
  intros rec_frame parent cs.
  induction cs as [|c cs IH]; intros w w'; simpl.
  - intros [= <-] _ _. apply frame_refl.
  - destruct (rec c w) as [[c' w1]|] eqn:Hrec; simpl; [|done].
    intros Hcs Hb Hp.
    destruct (rec_frame _ _ _ _ Hrec Hb) as (Hf1 & _ & _).
    eapply frame_trans; [exact Hf1|].
    eapply frame_trans; [by apply frame_Object3D_add|].
    apply IH; [done| |done].
    eapply bounded_frame; [|by apply frame_Object3D_add].
    by eapply bounded_frame.
Qed.

Lemma SkeletonUtils_clone_frame keep fuel a w a' w' :
  SkeletonUtils_clone fuel a w = Some (a', w') →
  bounded keep w →
  frame keep w w' ∧ next_node w ≤ a' ∧ a' < next_node w'.
Proof.
  revert a w a' w'. induction fuel as [|fuel IH]; intros a w a' w'; [done|].
  simpl. intros Hc Hb.
  destruct (clone_children _ _ _ _) as [w2|] eqn:Hcs; simpl in Hc; [|done].
  injection Hc as <- <-.
  assert (Hb1 : bounded keep (snd (alloc_obj (set_children [] (obj w a)) w))).
  { eapply bounded_frame; [done|]. by apply frame_alloc_obj. }
  assert (Hf2 := clone_children_frame _ keep IH _ _ _ _ Hcs Hb1
                   (bounded_fresh keep w _ Hb (le_n _))).
  split; [|split].
  - eapply frame_trans; [|exact Hf2]. by apply frame_alloc_obj.
  - done.
  - pose proof (frame_next _ _ _ Hf2) as Hn. simpl in Hn. lia.
Qed.

Lemma bounded_below k w : k ≤ next_node w → bounded (below k) w.
Proof. intros Hk a Ha. unfold below in Ha. lia. Qed.

Lemma clone_children_succeeds k fuel parent cs w :
  (∀ a w, tree k w fuel a → k ≤ next_node w →
          is_Some (SkeletonUtils_clone fuel a w)) →
  Forall (tree k w fuel) cs → k ≤ next_node w → k ≤ parent →
  is_Some (clone_children (SkeletonUtils_clone fuel) parent cs w).
Proof.
  intros IH. revert w. induction cs as [|c cs IHcs]; intros w Hcs Hk Hp; simpl.
  - by eexists.
  - apply Forall_cons in Hcs as [Hc Hcs].
    destruct (IH c w Hc Hk) as [[c' w1] Hrec]. rewrite Hrec. simpl.
    destruct (SkeletonUtils_clone_frame (below k) _ _ _ _ _ Hrec
                (bounded_below _ _ Hk)) as (Hf & _ & _).
    assert (Hf' : frame (below k) w (Object3D_add parent c' w1)).
    { eapply frame_trans; [exact Hf|]. apply frame_Object3D_add.
      unfold below. lia. }
    apply IHcs; [|pose proof (frame_next _ _ _ Hf'); lia|done].
    eapply Forall_impl; [exact Hcs|]. intros b. by apply (tree_frame (below k)).
Qed.

(** With enough fuel for the depth of the subtree, the clone is produced. *)
Lemma SkeletonUtils_clone_succeeds k fuel a w :
  tree k w fuel a → k ≤ next_node w → is_Some (SkeletonUtils_clone fuel a w).
Proof.
  revert a w. induction fuel as [|fuel IH]; intros a w; [done|].
  simpl. intros [Ha Hc] Hk.
  set (w1 := snd (alloc_obj (set_children [] (obj w a)) w)).
  assert (Hf : frame (below k) w w1).
  { apply frame_alloc_obj. by apply bounded_below. }
  destruct (clone_children_succeeds k fuel (next_node w) (children (obj w a)) w1 IH)
    as [w2 Hw2].
  - eapply Forall_impl; [exact Hc|]. intros b. by apply (tree_frame (below k)).
  - pose proof (frame_next _ _ _ Hf). lia.
  - done.
  - unfold w1 in Hw2. simpl in Hw2. rewrite Hw2. by eexists.
Qed.

Lemma node_at_add w p c a (P : Object3D → Prop) :
  (∀ o cs, P o → P (set_children cs o)) →
  node_at w a P → node_at (Object3D_add p c w) a P.
Proof.
  intros HP Hn. destruct (decide (p = a)) as [->|Hne].
  - eapply node_at_update_eq; [|exact Hn]. intros o Ho. by apply HP.
  - by apply node_at_update_ne.
Qed.

Lemma clone_children_parent fuel parent cs w w' (P : Object3D → Prop) :
  (∀ o cs, P o → P (set_children cs o)) →
  clone_children (SkeletonUtils_clone fuel) parent cs w = Some w' →
  parent < next_node w → node_at w parent P → node_at w' parent P.
Proof.
  intros HP. revert w. induction cs as [|c cs IH]; intros w; simpl.
  - by intros [= <-].
  - destruct (SkeletonUtils_clone fuel c w) as [[c' w1]|] eqn:Hrec; simpl; [|done].
    intros Hcs Hp Hn.
    destruct (SkeletonUtils_clone_frame (fun b => b = parent) _ _ _ _ _ Hrec)
      as (Hf & _ & _); [by intros b ->|].
    apply (IH _ Hcs).
    + pose proof (frame_next _ _ _ Hf). simpl. lia.
    + apply node_at_add; [done|]. by eapply node_at_frame.
Qed.

Lemma SkeletonUtils_clone_node fuel a w a' w' :
  SkeletonUtils_clone fuel a w = Some (a', w') →
  a' = next_node w ∧ node_at w' a' (same_fields (obj w a)).
Proof.
  destruct fuel as [|fuel]; [done|]. simpl.
  destruct (clone_children _ _ _ _) as [w2|] eqn:Hcs; simpl; [|done].
  intros [= <- <-]. split; [done|].
  eapply clone_children_parent; [|exact Hcs| |].
  - intros o cs. unfold same_fields. by destruct o.
  - simpl. lia.
  - eexists. split; [simpl; apply lookup_insert_eq|].
    unfold same_fields. by destruct (obj w a).
Qed.

(** ** Cloning entities *)

Lemma Furniture_fresh_frame keep k d0 w w' f :
  frame keep w w' → keep (Furniture.root f) →
  Furniture_fresh k d0 w f → Furniture_fresh k d0 w' f.
Proof.
  intros Hf Hk (H1 & H2 & H3 & H4 & H5). pose proof (frame_next _ _ _ Hf).
  repeat split; try lia. eapply id_drawn_frame; eauto.
Qed.

Lemma Furniture_clone_spec keep fuel f w f' w' :
  Furniture.clone fuel f w = Some (f', w') →
  bounded keep w →
  frame keep w w' ∧ Furniture_cloned f f' ∧
  Furniture_fresh (next_node w) (drawn w) w' f'.
Proof.
  unfold Furniture.clone. intros Hc Hb.
  destruct (Furniture.new _ _ _ w) as [cf w1] eqn:Hnew.
  destruct (Furniture_new_spec keep _ _ _ _ _ _ Hnew Hb)
    as (Hf1 & -> & Hn1 & Hd1 & _ & _ & _).
  destruct (SkeletonUtils_clone fuel (Furniture.root f) w1)
    as [[r w2]|] eqn:Hsk; simpl in Hc; [|done].
  injection Hc as <- <-.
  assert (Hb1 : bounded keep w1) by (by eapply bounded_frame).
  destruct (SkeletonUtils_clone_frame keep _ _ _ _ _ Hsk Hb1) as (Hf2 & Hr1 & Hr2).
  destruct (SkeletonUtils_clone_node _ _ _ _ _ Hsk) as (-> & Hnode).
  split; [|split].
  - eapply frame_trans; [exact Hf1|]. eapply frame_trans; [exact Hf2|].
    eapply frame_trans; [apply frame_generateId|].
    apply frame_update_obj. simpl.
    apply (bounded_fresh keep w1); [done|lia].
  - done.
  - pose proof (frame_next _ _ _ Hf1). pose proof (frame_next _ _ _ Hf2).
    unfold Furniture_fresh. simpl. repeat split; try lia.
    exists (drawn w2). split.
    + pose proof (frame_drawn _ _ _ Hf1). pose proof (frame_drawn _ _ _ Hf2).
      simpl. lia.
    + eapply node_at_update_eq; [|exact Hnode]. done.
Qed.

Lemma Furniture_clone_succeeds k fuel f w :
  tree k w fuel (Furniture.root f) → k ≤ next_node w →
  is_Some (Furniture.clone fuel f w).
Proof.
  intros Ht Hk. unfold Furniture.clone.
  destruct (Furniture.new _ _ _ w) as [cf w1] eqn:Hnew.
  destruct (Furniture_new_spec (below k) _ _ _ _ _ _ Hnew (bounded_below _ _ Hk))
    as (Hf1 & _).
  destruct (SkeletonUtils_clone_succeeds k fuel (Furniture.root f) w1)
    as [[r w2] Hsk].
  - by apply (tree_frame (below k) k w).
  - pose proof (frame_next _ _ _ Hf1). lia.
  - rewrite Hsk. simpl. by eexists.
Qed.

Lemma Wall_fresh_frame keep k d0 w w' wl :
  frame keep w w' → keep (Wall.mesh wl) →
  Wall_fresh k d0 w wl → Wall_fresh k d0 w' wl.
Proof.
  intros Hf Hk (H1 & H2 & H3 & H4 & H5). pose proof (frame_next _ _ _ Hf).
  repeat split; try lia.
  - eapply wall_shared_frame; eauto.
  - eapply id_drawn_frame; eauto.
  - eapply node_at_frame; eauto.
Qed.

Lemma wall_shared_add w p c a : wall_shared w a → wall_shared (Object3D_add p c w) a.
Proof.
  intros (g & m & Hg & Hm & Hn). exists g, m. repeat split; try done.
  apply node_at_add; [|done]. intros o cs. by destruct o.
Qed.

Lemma id_drawn_add d0 w p c a : id_drawn d0 w a → id_drawn d0 (Object3D_add p c w) a.
Proof.
  intros (i & Hi & Hn). exists i. split; [done|].
  apply node_at_add; [|done]. intros o cs. by destruct o.
Qed.

Lemma Wall_fresh_add k d0 w p c wl :
  Wall_fresh k d0 w wl → Wall_fresh k d0 (Object3D_add p c w) wl.
Proof.
  intros (H1 & H2 & H3 & H4 & H5). repeat split; try done.
  - by apply wall_shared_add.
  - by apply id_drawn_add.
  - apply node_at_add; [|done]. intros o cs. by destruct o.
Qed.

Lemma Furniture_fresh_add k d0 w p c f :
  Furniture_fresh k d0 w f → Furniture_fresh k d0 (Object3D_add p c w) f.
Proof.
  intros (H1 & H2 & H3 & H4 & H5). repeat split; try done.
  by apply id_drawn_add.
Qed.

Lemma bounded_below_except w g : bounded (below_except w g) w.
Proof. by intros a []. Qed.

(** One wall of [generateWalls]: construct, place, add to the room. *)
Lemma wall_step width height depth x y z (r : Room.t) w wl w1 r' w' :
  Wall.new width height depth w = (wl, w1) →
  Room.addWall wl r (Wall.setPosition x y z wl w1) = (r', w') →
  Room.group r < next_node w →
  frame (below_except w (Room.group r)) w w' ∧
  wl = Wall.mk width height depth (next_node w) ∧
  r' = Room.set_walls (Room.walls r ++ [wl]) r ∧
  next_node w' = S (next_node w) ∧ drawn w' = S (drawn w) ∧
  random w' = random w ∧
  Wall_fresh (next_node w) (drawn w) w' wl ∧
  (∀ P : Object3D → Prop, (∀ o cs, P o → P (set_children cs o)) →
     node_at w (Room.group r) P → node_at w' (Room.group r) P).
Proof.
  intros Hnew Hadd Hlt.
  set (keep := below_except w (Room.group r)).
  assert (Hb : bounded keep w) by apply bounded_below_except.
  assert (Hg : ¬ keep (Room.group r)) by (by intros []).
  destruct (Wall_new_spec keep _ _ _ _ _ _ Hnew Hb)
    as (Hf1 & -> & Hn1 & Hd1 & Hsh & Hnode).
  destruct (Wall_new_spec (fun a => a = Room.group r) _ _ _ _ _ _ Hnew)
    as (Hfg & _); [by intros a ->|].
  unfold Room.addWall in Hadd. injection Hadd as <- <-. simpl.
  assert (Hfr : ¬ keep (next_node w)) by (by apply (bounded_fresh keep w)).
  split; [|split; [done|split; [done|split; [done|split; [done|split; [|split]]]]]].
  - eapply frame_trans; [exact Hf1|].
    eapply frame_trans; [by apply frame_update_obj|].
    by apply frame_Object3D_add.
  - apply (frame_random _ _ _ Hf1).
  - unfold Wall_fresh. simpl. rewrite Hn1.
    destruct Hsh as (g & m & Hwg & Hwm & Hn).
    repeat split; try lia.
    + exists g, m. repeat split; try done.
      apply node_at_add; [intros o cs; by destruct o|].
      eapply node_at_update_eq; [|exact Hn]. done.
    + exists (drawn w). split; [simpl; lia|].
      apply node_at_add; [intros o cs; by destruct o|].
      eapply node_at_update_eq; [|exact Hnode]. simpl.
      intros o (_ & _ & _ & ->). simpl. by rewrite (frame_random _ _ _ Hf1).
    + apply node_at_add; [intros o cs; by destruct o|].
      eapply node_at_update_eq; [|exact Hnode]. simpl. by intros o (-> & _).
  - intros P HP Hn. apply node_at_add; [done|].
    apply node_at_update_ne; [simpl; lia|]. by eapply node_at_frame.
Qed.

Lemma generateWalls_blocks this w :
  Room.generateWalls this w =
  wall_block Room.t_ Room.h (Room.depth this)
             (Qcdiv (Room.width this) n2) (Qcdiv Room.h n2) n0
    (wall_block Room.t_ Room.h (Room.depth this)
                (Qcdiv (Qcopp (Room.width this)) n2) (Qcdiv Room.h n2) n0
       (wall_block (Room.width this) Room.h Room.t_
                   n0 (Qcdiv Room.h n2) (Qcdiv (Room.depth this) n2)
          (wall_block (Room.width this) Room.h Room.t_
                      n0 (Qcdiv Room.h n2) (Qcdiv (Qcopp (Room.depth this)) n2)
             (Room.set_walls [] this,
              foldl (fun w wl => Object3D_remove (Room.group this) (Wall.mesh wl) w)
                    w (Room.walls this))))).
Proof.
  unfold Room.generateWalls, wall_block.
  repeat (cbn [fst snd Room.width Room.depth Room.set_walls Room.addWall
               Room.walls Room.group];
          match goal with
          | |- context [Wall.new ?a ?b ?c ?v] =>
              lazymatch v with
              | context [Wall.new] => fail
              | _ => destruct (Wall.new a b c v)
              end
          end).
  reflexivity.
Qed.

Lemma wall_block_spec width height depth x y z (r : Room.t) w r' w' :
  wall_block width height depth x y z (r, w) = (r', w') →
  Room.group r < next_node w →
  let wl := Wall.mk width height depth (next_node w) in
  frame (below_except w (Room.group r)) w w' ∧
  r' = Room.set_walls (Room.walls r ++ [wl]) r ∧
  next_node w' = S (next_node w) ∧ drawn w' = S (drawn w) ∧
  random w' = random w ∧
  Wall_fresh (next_node w) (drawn w) w' wl ∧
  (∀ P : Object3D → Prop, (∀ o cs, P o → P (set_children cs o)) →
     node_at w (Room.group r) P → node_at w' (Room.group r) P).
Proof.
  unfold wall_block. cbn [fst snd].
  destruct (Wall.new width height depth w) as [wl0 w1] eqn:Hnew.
  intros Hadd Hlt.
  destruct (wall_step _ _ _ _ _ _ _ _ _ _ _ _ Hnew Hadd Hlt)
    as (H1 & -> & H2 & H3 & H4 & H5 & H6 & H7).
  exact (conj H1 (conj H2 (conj H3 (conj H4 (conj H5 (conj H6 H7)))))).
Qed.

Lemma Wall_fresh_weaken k k' d d' w wl :
  k' ≤ k → d' ≤ d → Wall_fresh k d w wl → Wall_fresh k' d' w wl.
Proof.
  intros Hk Hd (H1 & H2 & H3 & H4 & H5).
  repeat split; try done; [lia|]. by eapply id_drawn_weaken.
Qed.

Lemma Room_new_spec keep name wd dp w r w' :
  Room.new name wd dp w = (r, w') →
  bounded keep w →
  frame keep w w' ∧
  Room.name r = name ∧ Room.width r = default n20 wd ∧
  Room.depth r = default n20 dp ∧ Room.furnitureList r = [] ∧
  Room.group r = next_node w ∧ next_node w < next_node w' ∧
  map wall_dims (Room.walls r) = room_wall_dims (Room.width r) (Room.depth r) ∧
  Forall (Wall_fresh (S (next_node w)) (drawn w) w') (Room.walls r) ∧
  id_drawn (drawn w) w' (Room.group r).
Proof.
  unfold Room.new, alloc_obj, generateId. cbv beta iota zeta.
  rewrite generateWalls_blocks.
  cbn [Room.walls Room.width Room.depth Room.group Room.set_walls foldl
       nodes next_node random drawn].
  intros Hnew Hb.
  set (g := next_node w) in *.
  set (w0 := update_obj g _ _) in Hnew.
  assert (Hw0 : next_node w0 = S g) by done.
  assert (Hd0 : drawn w0 = S (drawn w)) by done.
  assert (Hr0 : random w0 = random w) by done.
  assert (Hf0 : frame keep w w0).
  { constructor; unfold slot_kept; simpl; auto. intros a Ha.
    specialize (Hb a Ha). fold g in Hb. lookup_simpl.
    rewrite lookup_alter_ne, lookup_insert_ne by lia. done. }
  assert (Hid0 : id_drawn (drawn w) w0 g).
  { exists (drawn w). split; [lia|]. eexists. split.
    - unfold w0. simpl. lookup_simpl. reflexivity.
    - done. }
  clearbody w0.
  set (r0 := Room.mk _ _ _ _ _ _) in Hnew.
  destruct (wall_block _ _ _ _ _ _ (_, w0)) as [r1 w1] eqn:H1.
  destruct (wall_block_spec _ _ _ _ _ _ _ _ _ _ H1)
    as (Hf1 & -> & Hnx1 & Hdr1 & Hrn1 & Hwf1 & Hg1); [simpl; lia|].
  simpl in Hnew, Hf1, Hg1.
  destruct (wall_block _ _ _ _ _ _ (_, w1)) as [r2 w2] eqn:H2.
  destruct (wall_block_spec _ _ _ _ _ _ _ _ _ _ H2)
    as (Hf2 & -> & Hnx2 & Hdr2 & Hrn2 & Hwf2 & Hg2); [simpl; lia|].
  simpl in Hnew, Hf2, Hg2.
  destruct (wall_block _ _ _ _ _ _ (_, w2)) as [r3 w3] eqn:H3.
  destruct (wall_block_spec _ _ _ _ _ _ _ _ _ _ H3)
    as (Hf3 & -> & Hnx3 & Hdr3 & Hrn3 & Hwf3 & Hg3); [simpl; lia|].
  simpl in Hnew, Hf3, Hg3.
  destruct (wall_block_spec _ _ _ _ _ _ _ _ _ _ Hnew)
    as (Hf4 & -> & Hnx4 & Hdr4 & Hrn4 & Hwf4 & Hg4); [simpl; lia|].
  simpl in Hf4, Hg4. simpl.
  assert (Hk : ∀ w'', g < next_node w'' → ∀ a, keep a → below_except w'' g a).
  { intros w'' Hlt a Ha. specialize (Hb a Ha). unfold below_except.
    fold g in Hb. lia. }
  split; [|repeat split; try done].
  - eapply frame_trans; [exact Hf0|].
    eapply frame_trans; [eapply frame_weaken; [|exact Hf1]; apply Hk; lia|].
    eapply frame_trans; [eapply frame_weaken; [|exact Hf2]; apply Hk; lia|].
    eapply frame_trans; [eapply frame_weaken; [|exact Hf3]; apply Hk; lia|].
    eapply frame_weaken; [|exact Hf4]. apply Hk. lia.
  - lia.
  - repeat apply Forall_cons_2; [| | | |apply Forall_nil_2].
    + apply (Wall_fresh_weaken (next_node w0) _ (drawn w0)); [lia|lia|].
      eapply Wall_fresh_frame; [exact Hf4|simpl; unfold below_except; lia|].
      eapply Wall_fresh_frame; [exact Hf3|simpl; unfold below_except; lia|].
      eapply Wall_fresh_frame; [exact Hf2|simpl; unfold below_except; lia|].
      exact Hwf1.
    + apply (Wall_fresh_weaken (next_node w1) _ (drawn w1)); [lia|lia|].
      eapply Wall_fresh_frame; [exact Hf4|simpl; unfold below_except; lia|].
      eapply Wall_fresh_frame; [exact Hf3|simpl; unfold below_except; lia|].
      exact Hwf2.
    + apply (Wall_fresh_weaken (next_node w2) _ (drawn w2)); [lia|lia|].
      eapply Wall_fresh_frame; [exact Hf4|simpl; unfold below_except; lia|].
      exact Hwf3.
    + apply (Wall_fresh_weaken (next_node w3) _ (drawn w3)); [lia|lia|].
      exact Hwf4.
  - destruct Hid0 as (i & Hi & Hn). exists i. split; [lia|].
    rewrite Hrn4, Hrn3, Hrn2, Hrn1.
    apply Hg4; [intros o cs; by destruct o|].
    apply Hg3; [intros o cs; by destruct o|].
    apply Hg2; [intros o cs; by destruct o|].
    apply Hg1; [intros o cs; by destruct o|].
    done.
Qed.

Lemma Furniture_fresh_weaken k k' d d' w f :
  k' ≤ k → d' ≤ d → Furniture_fresh k d w f → Furniture_fresh k' d' w f.
Proof.
  intros Hk Hd (H1 & H2 & H3 & H4 & H5).
  repeat split; try done; try lia. by eapply id_drawn_weaken.
Qed.

Lemma below_except_mono w w' g a :
  next_node w ≤ next_node w' → below_except w g a → below_except w' g a.
Proof. unfold below_except. lia. Qed.

(** The furniture loop of [Room.clone]. *)
Lemma clone_furniture_spec fuel items cr w cr' w' :
  Room.clone_furniture fuel items cr w = Some (cr', w') →
  Room.group cr < next_node w →
  frame (below_except w (Room.group cr)) w w' ∧
  (∃ fs', cr' = Room.set_furnitureList (Room.furnitureList cr ++ fs') cr ∧
          Forall2 Furniture_cloned items fs' ∧
          Forall (Furniture_fresh (next_node w) (drawn w) w') fs') ∧
  (∀ P : Object3D → Prop, (∀ o cs, P o → P (set_children cs o)) →
     node_at w (Room.group cr) P → node_at w' (Room.group cr) P).
Proof.
  revert cr w. induction items as [|item items IH]; intros cr w; simpl.
  - intros [= <- <-] Hg. split; [apply frame_refl|]. split; [|done].
    exists []. rewrite app_nil_r. by destruct cr.
  - destruct (Furniture.clone fuel item w) as [[c w1]|] eqn:Hc; simpl; [|done].
    intros Hrest Hg.
    set (g := Room.group cr) in *.
    destruct (Furniture_clone_spec (below_except w g) _ _ _ _ _ Hc
                (bounded_below_except w g)) as (Hf1 & Hcl & Hfr).
    destruct (Furniture_clone_spec (fun a => a = g) _ _ _ _ _ Hc) as (Hfg & _);
      [by intros a ->|].
    pose proof (frame_next _ _ _ Hf1) as Hn1.
    apply IH in Hrest as (Hf2 & (fs' & -> & Hcls & Hfrs) & Hgp); [|simpl; lia].
    simpl in Hf2, Hgp. fold g in Hf2, Hgp.
    pose proof (frame_next _ _ _ Hf2) as Hn2. simpl in Hn2.
    split; [|split].
    + eapply frame_trans; [exact Hf1|].
      eapply frame_trans; [apply frame_Object3D_add; by intros []|].
      eapply frame_weaken; [|exact Hf2]. intros a.
      apply below_except_mono. simpl. lia.
    + exists (c :: fs'). split; [|split].
      * simpl. by rewrite <- app_assoc.
      * by constructor.
      * constructor.
        -- eapply Furniture_fresh_frame; [exact Hf2| |].
           ++ destruct Hfr as (? & ? & _). unfold below_except. simpl. lia.
           ++ by apply Furniture_fresh_add.
        -- eapply Forall_impl; [exact Hfrs|]. intros f.
           apply Furniture_fresh_weaken; [simpl; lia|].
           pose proof (frame_drawn _ _ _ Hf1). simpl. lia.
    + intros P HP Hn. apply Hgp; [done|].
      apply node_at_add; [done|]. by eapply node_at_frame.
Qed.

Lemma clone_furniture_succeeds k fuel items cr w :
  Forall (fun f => tree k w fuel (Furniture.root f)) items →
  k ≤ next_node w → k ≤ Room.group cr → Room.group cr < next_node w →
  is_Some (Room.clone_furniture fuel items cr w).
Proof.
  revert cr w. induction items as [|item items IH]; intros cr w Ht Hk Hg Hlt; simpl.
  - by eexists.
  - apply Forall_cons in Ht as [Ht Hts].
    destruct (Furniture_clone_succeeds k fuel item w Ht Hk) as [[c w1] Hc].
    rewrite Hc. simpl.
    destruct (Furniture_clone_spec (below k) _ _ _ _ _ Hc (bounded_below _ _ Hk))
      as (Hf1 & _ & _).
    assert (Hf : frame (below k) w (Object3D_add (Room.group cr) (Furniture.root c) w1)).
    { eapply frame_trans; [exact Hf1|]. apply frame_Object3D_add. unfold below. lia. }
    pose proof (frame_next _ _ _ Hf) as Hn.
    simpl in Hn.
    apply IH; simpl; [|lia|lia|lia].
    eapply Forall_impl; [exact Hts|]. intros f. by apply (tree_frame (below k)).
Qed.

Lemma Room_fresh_frame keep k d0 w w' r :
  frame keep w w' → (∀ a, k ≤ a → a < next_node w → keep a) →
  Room_fresh k d0 w r → Room_fresh k d0 w' r.
Proof.
  intros Hf Hk (H1 & H2 & H3 & H4 & H5). pose proof (frame_next _ _ _ Hf).
  split; [done|]. split; [lia|]. split; [eapply id_drawn_frame; eauto|]. split.
  - eapply Forall_impl; [exact H4|]. intros wl Hwl.
    eapply Wall_fresh_frame; [exact Hf| |done].
    destruct Hwl as (? & ? & _). auto.
  - eapply Forall_impl; [exact H5|]. intros f Hfr.
    eapply Furniture_fresh_frame; [exact Hf| |done].
    destruct Hfr as (? & ? & _). auto.
Qed.

Lemma Room_fresh_add k d0 w p c r :
  Room_fresh k d0 w r → Room_fresh k d0 (Object3D_add p c w) r.
Proof.
  intros (H1 & H2 & H3 & H4 & H5).
  split; [done|]. split; [done|]. split; [by apply id_drawn_add|]. split.
  - eapply Forall_impl; [exact H4|]. intros wl. apply Wall_fresh_add.
  - eapply Forall_impl; [exact H5|]. intros f. apply Furniture_fresh_add.
Qed.

Lemma Room_fresh_weaken k k' d d' w r :
  k' ≤ k → d' ≤ d → Room_fresh k d w r → Room_fresh k' d' w r.
Proof.
  intros Hk Hd (H1 & H2 & H3 & H4 & H5).
  split; [lia|]. split; [done|]. split; [by eapply id_drawn_weaken|]. split.
  - eapply Forall_impl; [exact H4|]. intros wl. by apply Wall_fresh_weaken.
  - eapply Forall_impl; [exact H5|]. intros f. by apply Furniture_fresh_weaken.
Qed.

Lemma Room_clone_spec keep fuel r w r' w' :
  Room.clone fuel r w = Some (r', w') →
  bounded keep w →
  frame keep w w' ∧ Room_cloned r r' ∧
  Room_fresh (next_node w) (drawn w) w' r'.
Proof.
  unfold Room.clone. intros Hc Hb.
  destruct (Room.new _ _ _ w) as [cr w1] eqn:Hnew.
  destruct (Room_new_spec keep _ _ _ _ _ _ Hnew Hb)
    as (Hf1 & Hname & Hwd & Hdp & Hfl & Hg & Hlt & Hdims & Hwalls & Hid).
  destruct (Room.clone_furniture _ _ _ _) as [[cr' w2]|] eqn:Hloop;
    simpl in Hc; [|done].
  injection Hc as <- <-.
  destruct (clone_furniture_spec _ _ _ _ _ _ Hloop)
    as (Hf2 & (fs' & -> & Hcls & Hfrs) & Hgp); [lia|].
  rewrite Hfl in *. simpl in *. rewrite Hg in *.
  set (g := next_node w) in *.
  pose proof (frame_next _ _ _ Hf2) as Hn2.
  pose proof (frame_drawn _ _ _ Hf1) as Hd1.
  pose proof (frame_drawn _ _ _ Hf2) as Hd2.
  assert (Hkg : ¬ keep g) by (by apply (bounded_fresh keep w)).
  assert (Hgn : node_at w2 g (fun _ => True)).
  { destruct Hid as (i & _ & Hn). apply Hgp in Hn; [|intros o cs; by destruct o].
    eapply node_at_impl; [|exact Hn]. done. }
  set (wf := update_obj g _ _).
  assert (Hff : frame (fun a => a ≠ g) w2 wf).
  { constructor; unfold slot_kept; simpl; auto.
    intros a Ha. by lookup_simpl. }
  split; [|split].
  - eapply frame_trans; [exact Hf1|].
    eapply frame_trans.
    { eapply frame_weaken; [|exact Hf2]. intros a Ha. specialize (Hb a Ha).
      unfold below_except. fold g in Hb. lia. }
    eapply frame_weaken; [|exact Hff]. intros a Ha ->. done.
  - unfold Room_cloned. simpl. rewrite Hname, Hwd, Hdp. simpl.
    repeat split; try done. rewrite Hdims. unfold room_wall_dims.
    rewrite ?Hwd, ?Hdp. reflexivity.
  - unfold Room_fresh. simpl. rewrite !Hg.
    split; [done|]. split; [unfold wf; simpl; lia|]. split; [|split].
    + exists (drawn w2). split; [unfold wf; simpl; lia|].
      destruct Hgn as (o & Ho & _). eexists. split.
      * unfold wf. simpl. lookup_simpl. rewrite Ho. reflexivity.
      * done.
    + eapply Forall_impl; [exact Hwalls|]. intros wl Hwl.
      apply (Wall_fresh_weaken (S g) _ (drawn w)); [lia|lia|].
      eapply Wall_fresh_frame; [exact Hff| |].
      * destruct Hwl as (? & _). lia.
      * eapply Wall_fresh_frame; [exact Hf2| |done].
        destruct Hwl as (? & ? & _). unfold below_except. lia.
    + eapply Forall_impl; [exact Hfrs|]. intros f Hfr.
      apply (Furniture_fresh_weaken (next_node w1) _ (drawn w1)); [lia|lia|].
      eapply Furniture_fresh_frame; [exact Hff| |done].
      destruct Hfr as (? & _). lia.
Qed.

Lemma Room_clone_succeeds k fuel r w :
  Forall (fun f => tree k w fuel (Furniture.root f)) (Room.furnitureList r) →
  k ≤ next_node w → is_Some (Room.clone fuel r w).
Proof.
  intros Ht Hk. unfold Room.clone.
  destruct (Room.new _ _ _ w) as [cr w1] eqn:Hnew.
  destruct (Room_new_spec (below k) _ _ _ _ _ _ Hnew (bounded_below _ _ Hk))
    as (Hf1 & _ & _ & _ & _ & Hg & Hlt & _).
  destruct (clone_furniture_succeeds k fuel (Room.furnitureList r) cr w1)
    as [[cr' w2] Hloop]; try lia.
  - eapply Forall_impl; [exact Ht|]. intros f. by apply (tree_frame (below k)).
  - rewrite Hloop. simpl. by eexists.
Qed.

(** The room loop of [Layout3D.clone]. *)
Lemma clone_rooms_spec fuel items cl w cl' w' :
  Layout3D.clone_rooms fuel items cl w = Some (cl', w') →
  Layout3D.group cl < next_node w →
  frame (below_except w (Layout3D.group cl)) w w' ∧
  (∃ rs', cl' = Layout3D.set_rooms (Layout3D.rooms cl ++ rs') cl ∧
          Forall2 Room_cloned items rs' ∧
          Forall (Room_fresh (next_node w) (drawn w) w') rs') ∧
  (∀ P : Object3D → Prop, (∀ o cs, P o → P (set_children cs o)) →
     node_at w (Layout3D.group cl) P → node_at w' (Layout3D.group cl) P).
Proof.
  revert cl w. induction items as [|item items IH]; intros cl w; simpl.
  - intros [= <- <-] Hg. split; [apply frame_refl|]. split; [|done].
    exists []. rewrite app_nil_r. by destruct cl.
  - destruct (Room.clone fuel item w) as [[c w1]|] eqn:Hc; simpl; [|done].
    intros Hrest Hg.
    set (g := Layout3D.group cl) in *.
    destruct (Room_clone_spec (below_except w g) _ _ _ _ _ Hc
                (bounded_below_except w g)) as (Hf1 & Hcl & Hfr).
    destruct (Room_clone_spec (fun a => a = g) _ _ _ _ _ Hc) as (Hfg & _);
      [by intros a ->|].
    pose proof (frame_next _ _ _ Hf1) as Hn1.
    apply IH in Hrest as (Hf2 & (rs' & -> & Hcls & Hfrs) & Hgp); [|simpl; lia].
    simpl in Hf2, Hgp. fold g in Hf2, Hgp.
    pose proof (frame_next _ _ _ Hf2) as Hn2. simpl in Hn2.
    split; [|split].
    + eapply frame_trans; [exact Hf1|].
      eapply frame_trans; [apply frame_Object3D_add; by intros []|].
      eapply frame_weaken; [|exact Hf2]. intros a.
      apply below_except_mono. simpl. lia.
    + exists (c :: rs'). split; [|split].
      * simpl. by rewrite <- app_assoc.
      * by constructor.
      * constructor.
        -- eapply Room_fresh_frame; [exact Hf2| |].
           ++ intros a Ha1 Ha2. unfold below_except. simpl in Ha2 |- *. lia.
           ++ by apply Room_fresh_add.
        -- eapply Forall_impl; [exact Hfrs|]. intros r.
           apply Room_fresh_weaken; [simpl; lia|].
           pose proof (frame_drawn _ _ _ Hf1). simpl. lia.
    + intros P HP Hn. apply Hgp; [done|].
      apply node_at_add; [done|]. by eapply node_at_frame.
Qed.

Lemma Layout_trees_frame keep k fuel w w' rooms :
  frame keep w w' → (∀ b, b < k → keep b) →
  Layout_trees k fuel w rooms → Layout_trees k fuel w' rooms.
Proof.
  intros Hf Hk Ht. eapply Forall_impl; [exact Ht|]. intros r Hr.
  eapply Forall_impl; [exact Hr|]. intros f. by apply (tree_frame keep).
Qed.

Lemma clone_rooms_succeeds k fuel items cl w :
  Layout_trees k fuel w items →
  k ≤ next_node w → k ≤ Layout3D.group cl → Layout3D.group cl < next_node w →
  is_Some (Layout3D.clone_rooms fuel items cl w).
Proof.
  revert cl w. induction items as [|item items IH]; intros cl w Ht Hk Hg Hlt; simpl.
  - by eexists.
  - apply Forall_cons in Ht as [Ht Hts].
    destruct (Room_clone_succeeds k fuel item w Ht Hk) as [[c w1] Hc].
    rewrite Hc. simpl.
    destruct (Room_clone_spec (below k) _ _ _ _ _ Hc (bounded_below _ _ Hk))
      as (Hf1 & _ & _).
    assert (Hf : frame (below k) w (Object3D_add (Layout3D.group cl) (Room.group c) w1)).
    { eapply frame_trans; [exact Hf1|]. apply frame_Object3D_add. unfold below. lia. }
    pose proof (frame_next _ _ _ Hf) as Hn. simpl in Hn.
    apply IH; simpl; [|lia|lia|lia].
    by apply (Layout_trees_frame (below k) k fuel w).
Qed.

Lemma Layout3D_clone_spec keep fuel l w l' w' :
  Layout3D.clone fuel l w = Some (l', w') →
  bounded keep w →
  frame keep w w' ∧ Layout_cloned l l' ∧
  Layout3D.group l' = next_node w ∧
  Forall (Room_fresh (S (next_node w)) (drawn w) w') (Layout3D.rooms l') ∧
  node_at w' (Layout3D.group l') (fun o =>
    userData o = mkUD (Layout3D.id l) (Some "Layout3D") None (Some false)).
Proof.
  unfold Layout3D.clone, Layout3D.new, alloc_obj. cbv beta iota zeta.
  intros Hc Hb.
  set (g := next_node w) in *.
  set (w0 := update_obj g _ _) in Hc.
  set (cl := match Layout3D.cameraView l with Some _ => _ | None => _ end) in Hc.
  assert (Hcl : Layout3D.id cl = Layout3D.id l ∧
                Layout3D.description cl = Layout3D.description l ∧
                Layout3D.cameraView cl = Layout3D.cameraView l ∧
                Layout3D.rooms cl = [] ∧ Layout3D.group cl = g).
  { unfold cl. by destruct (Layout3D.cameraView l). }
  clearbody cl. destruct Hcl as (Hid & Hdesc & Hcam & Hrooms & Hg).
  assert (Hf0 : frame keep w w0).
  { constructor; unfold slot_kept; simpl; auto. intros a Ha.
    specialize (Hb a Ha). fold g in Hb.
    rewrite lookup_alter_ne, lookup_insert_ne by lia. done. }
  assert (Hn0 : node_at w0 g (fun o =>
            userData o = mkUD (Layout3D.id l) (Some "Layout3D") None (Some true))).
  { eexists. split; [unfold w0; simpl; lookup_simpl; reflexivity|done]. }
  assert (Hw0 : next_node w0 = S g) by done.
  assert (Hd0 : drawn w0 = drawn w) by done.
  clearbody w0.
  destruct (Layout3D.clone_rooms _ _ _ _) as [[cl' w1]|] eqn:Hloop;
    simpl in Hc; [|done].
  injection Hc as <- <-.
  destruct (clone_rooms_spec _ _ _ _ _ _ Hloop)
    as (Hf1 & (rs' & -> & Hcls & Hfrs) & Hgp); [lia|].
  rewrite Hrooms, Hg in *. simpl in *. rewrite ?Hg in *.
  pose proof (frame_next _ _ _ Hf1) as Hn1.
  apply Hgp in Hn0; [|intros o cs; by destruct o].
  set (wf := update_obj g _ _).
  assert (Hff : frame (fun a => a ≠ g) w1 wf).
  { constructor; unfold slot_kept; simpl; auto.
    intros a Ha. by lookup_simpl. }
  split; [|split; [|split; [|split]]].
  - eapply frame_trans; [exact Hf0|].
    eapply frame_trans.
    { eapply frame_weaken; [|exact Hf1]. intros a Ha. specialize (Hb a Ha).
      unfold below_except. fold g in Hb. lia. }
    eapply frame_weaken; [|exact Hff]. intros a Ha ->.
    specialize (Hb g Ha). unfold g in Hb. lia.
  - unfold Layout_cloned. simpl. by rewrite Hid, Hdesc, Hcam.
  - done.
  - eapply Forall_impl; [exact Hfrs|]. intros r Hr.
    rewrite <- Hw0, <- Hd0.
    eapply Room_fresh_frame; [exact Hff| |exact Hr].
    intros a Ha _. cbv beta. lia.
  - destruct Hn0 as (o & Ho & Hud). eexists. split.
    + unfold wf. simpl. lookup_simpl. rewrite Ho. reflexivity.
    + simpl. by rewrite Hud.
Qed.

Lemma Layout3D_clone_succeeds k fuel l w :
  Layout_trees k fuel w (Layout3D.rooms l) → k ≤ next_node w →
  is_Some (Layout3D.clone fuel l w).
Proof.
  intros Ht Hk. unfold Layout3D.clone, Layout3D.new, alloc_obj.
  cbv beta iota zeta.
  set (g := next_node w) in *.
  set (w0 := update_obj g _ _).
  set (cl := match Layout3D.cameraView l with Some _ => _ | None => _ end).
  assert (Hg : Layout3D.group cl = g).
  { unfold cl. by destruct (Layout3D.cameraView l). }
  assert (Hf0 : frame (below k) w w0).
  { constructor; unfold slot_kept; simpl; auto. intros a Ha. unfold below in Ha.
    rewrite lookup_alter_ne, lookup_insert_ne by lia. done. }
  destruct (clone_rooms_succeeds k fuel (Layout3D.rooms l) cl w0)
    as [[cl' w1] Hloop].
  - by apply (Layout_trees_frame (below k) k fuel w).
  - simpl. lia.
  - lia.
  - rewrite Hg. simpl. lia.
  - rewrite Hloop. simpl. by eexists.
Qed.

(** ** Hydration builds well-formed layouts *)

Lemma Furniture_hung_frame keep k w w' f :
  frame keep w w' → keep (Furniture.root f) → keep (Furniture.mesh f) →
  Furniture_hung k w f → Furniture_hung k w' f.
Proof.
  intros Hf Hr Hm (H1 & H2 & H3 & H4 & H5). pose proof (frame_next _ _ _ Hf).
  repeat split; try done; try lia; by eapply node_at_frame.
Qed.

Lemma Furniture_hung_weaken k k' w f :
  k' ≤ k → Furniture_hung k w f → Furniture_hung k' w f.
Proof. intros Hk (H1 & H2 & H3 & H4 & H5). repeat split; try done; lia. Qed.

Lemma Furniture_hung_add k w p c f :
  p < k → Furniture_hung k w f → Furniture_hung k (Object3D_add p c w) f.
Proof.
  intros Hp (H1 & H2 & H3 & H4 & H5).
  repeat split; try done; apply node_at_update_ne; try done; lia.
Qed.

Lemma Furniture_hung_tree k w f :
  Furniture_hung k w f → tree (next_node w) w 2 (Furniture.root f).
Proof.
  intros (H1 & H2 & H3 & H4 & H5).
  apply node_at_obj in H4. apply node_at_obj in H5.
  simpl. split; [done|]. rewrite H4. constructor; [|constructor].
  split; [lia|]. rewrite H5. constructor.
Qed.

Lemma Furniture_fromJSON_spec keep d w f w' :
  FurnitureFactory.fromJSON d w = (f, w') →
  bounded keep w →
  frame keep w w' ∧ Furniture_hung (next_node w) w' f.
Proof.
  unfold FurnitureFactory.fromJSON. intros Hj Hb.
  destruct (Furniture.new _ _ _ w) as [f0 w1] eqn:Hnew.
  destruct (Furniture_new_spec keep _ _ _ _ _ _ Hnew Hb)
    as (Hf1 & -> & Hn1 & _ & _ & Hmesh & Hroot).
  injection Hj as <- <-. simpl.
  set (r := S (next_node w)) in *.
  assert (Hkr : ¬ keep r) by (apply (bounded_fresh keep w); [done|unfold r; lia]).
  assert (Hstep : ∀ (g : Object3D → Object3D) w2,
            (∀ o, children (g o) = children o) →
            frame keep w w2 ∧ next_node w2 = S r ∧
            node_at w2 r (fun o => children o = [next_node w]) ∧
            node_at w2 (next_node w) (fun o => children o = []) →
            frame keep w (update_obj r g w2) ∧ next_node (update_obj r g w2) = S r ∧
            node_at (update_obj r g w2) r (fun o => children o = [next_node w]) ∧
            node_at (update_obj r g w2) (next_node w) (fun o => children o = [])).
  { intros g w2 Hg (Ha & Hb2 & Hc & Hd). split; [|split; [done|split]].
    - eapply frame_trans; [exact Ha|]. by apply frame_update_obj.
    - eapply node_at_update_eq; [|exact Hc]. intros o Ho. by rewrite Hg.
    - apply node_at_update_ne; [unfold r; lia|done]. }
  assert (H0 : frame keep w w1 ∧ next_node w1 = S r ∧
               node_at w1 r (fun o => children o = [next_node w]) ∧
               node_at w1 (next_node w) (fun o => children o = [])).
  { split; [done|]. split; [done|]. split.
    - eapply node_at_impl; [|exact Hroot]. by intros o (-> & _).
    - eapply node_at_impl; [|exact Hmesh]. by intros o (-> & _). }
  assert (Hfinal : ∀ w2,
            frame keep w w2 ∧ next_node w2 = S r ∧
            node_at w2 r (fun o => children o = [next_node w]) ∧
            node_at w2 (next_node w) (fun o => children o = []) →
            frame keep w w2 ∧
            Furniture_hung (next_node w) w2
              (Furniture.mk (fd_name d) (fd_type d) (fd_modelUrl d) (next_node w) r)).
  { intros w2 (Ha & Hb2 & Hc & Hd). split; [done|].
    unfold Furniture_hung. simpl. repeat split; try done; unfold r; lia. }
  apply Hfinal.
  unfold Furniture.setPosition, Furniture.setRotation, Furniture.setScale.
  destruct (fd_position d), (fd_rotation d), (fd_scale d); simpl;
    repeat (apply Hstep; [by intros []|]); exact H0.
Qed.

Lemma fromJSON_furniture_spec k items room w room' w' :
  Room.fromJSON_furniture items room w = (room', w') →
  Room.group room < k → k ≤ next_node w →
  frame (below_except w (Room.group room)) w w' ∧
  ∃ fs', room' = Room.set_furnitureList (Room.furnitureList room ++ fs') room ∧
         Forall (Furniture_hung k w') fs'.
Proof.
  revert room w. induction items as [|d items IH]; intros room w; simpl.
  - intros [= <- <-] Hg Hk. split; [apply frame_refl|].
    exists []. rewrite app_nil_r. split; [by destruct room|constructor].
  - destruct (FurnitureFactory.fromJSON d w) as [f w1] eqn:Hj.
    unfold Room.addFurniture. intros Hrest Hg Hk.
    set (g := Room.group room) in *.
    destruct (Furniture_fromJSON_spec (below_except w g) _ _ _ _ Hj
                (bounded_below_except w g)) as (Hf1 & Hhung).
    pose proof (frame_next _ _ _ Hf1) as Hn1.
    apply IH in Hrest as (Hf2 & fs' & -> & Hfs); [|simpl; lia|simpl; lia].
    simpl in Hf2. fold g in Hf2.
    split.
    + eapply frame_trans; [exact Hf1|].
      eapply frame_trans; [apply frame_Object3D_add; by intros []|].
      eapply frame_weaken; [|exact Hf2]. intros a.
      apply below_except_mono. simpl. lia.
    + exists (f :: fs'). split; [simpl; by rewrite <- app_assoc|].
      constructor; [|done].
      apply (Furniture_hung_weaken (next_node w)); [done|].
      destruct Hhung as (H1 & H2 & H3 & H4 & H5).
      eapply Furniture_hung_frame; [exact Hf2| | |].
      * unfold below_except. simpl. lia.
      * unfold below_except. simpl. lia.
      * apply Furniture_hung_add; [lia|]. done.
Qed.

Lemma Room_fromJSON_spec keep d w r w' :
  Room.fromJSON d w = (r, w') →
  bounded keep w →
  frame keep w w' ∧ Room.group r = next_node w ∧ next_node w < next_node w' ∧
  Forall (Furniture_hung (S (next_node w)) w') (Room.furnitureList r).
Proof.
  unfold Room.fromJSON. intros Hj Hb.
  destruct (Room.new _ _ _ w) as [room w1] eqn:Hnew.
  destruct (Room_new_spec keep _ _ _ _ _ _ Hnew Hb)
    as (Hf1 & _ & _ & _ & Hfl & Hg & Hlt & _).
  destruct (rd_furniture d) as [items|].
  - destruct (fromJSON_furniture_spec (S (next_node w)) _ _ _ _ _ Hj)
      as (Hf2 & fs' & -> & Hfs); [lia|lia|].
    pose proof (frame_next _ _ _ Hf2). simpl. rewrite Hfl. simpl.
    split; [|split; [done|split; [lia|done]]].
    eapply frame_trans; [exact Hf1|]. eapply frame_weaken; [|exact Hf2].
    intros a Ha. specialize (Hb a Ha). unfold below_except. lia.
  - injection Hj as <- <-. rewrite Hfl.
    split; [done|]. split; [done|]. split; [done|]. constructor.
Qed.

Lemma fromJSON_rooms_spec k items layout w layout' w' :
  Layout3D.fromJSON_rooms items layout w = (layout', w') →
  Layout3D.group layout < k → k ≤ next_node w →
  frame (below_except w (Layout3D.group layout)) w w' ∧
  ∃ rs', layout' = Layout3D.set_rooms (Layout3D.rooms layout ++ rs') layout ∧
         Forall (fun r => Forall (Furniture_hung k w') (Room.furnitureList r)) rs'.
Proof.
  revert layout w. induction items as [|d items IH]; intros layout w; simpl.
  - intros [= <- <-] Hg Hk. split; [apply frame_refl|].
    exists []. rewrite app_nil_r. split; [by destruct layout|constructor].
  - destruct (Room.fromJSON d w) as [r w1] eqn:Hj.
    unfold Layout3D.addRoom. intros Hrest Hg Hk.
    set (g := Layout3D.group layout) in *.
    destruct (Room_fromJSON_spec (below_except w g) _ _ _ _ Hj
                (bounded_below_except w g)) as (Hf1 & Hgr & Hlt & Hhung).
    pose proof (frame_next _ _ _ Hf1) as Hn1.
    apply IH in Hrest as (Hf2 & rs' & -> & Hrs); [|simpl; lia|simpl; lia].
    simpl in Hf2. fold g in Hf2.
    split.
    + eapply frame_trans; [exact Hf1|].
      eapply frame_trans; [apply frame_Object3D_add; by intros []|].
      eapply frame_weaken; [|exact Hf2]. intros a.
      apply below_except_mono. simpl. lia.
    + exists (r :: rs'). split; [simpl; by rewrite <- app_assoc|].
      constructor; [|done].
      eapply Forall_impl; [exact Hhung|]. intros f Hf.
      apply (Furniture_hung_weaken (S (next_node w))); [lia|].
      destruct Hf as (H1 & H2 & H3 & H4 & H5).
      eapply Furniture_hung_frame; [exact Hf2| | |].
      * unfold below_except. simpl. lia.
      * unfold below_except. simpl. lia.
      * apply Furniture_hung_add; [lia|]. done.
Qed.

(** Every layout hydrated from a description, in any world, satisfies the
    well-formedness the clone theorems ask for, with fuel 2: a Furniture
    root and the placeholder under it. *)
Lemma fromJSON_trees d w l w' :
  Layout3D.fromJSON d w = (l, w') →
  Layout_trees (next_node w') 2 w' (Layout3D.rooms l).
Proof.
  unfold Layout3D.fromJSON, Layout3D.new, alloc_obj. cbv beta iota zeta.
  set (g := next_node w). set (w0 := update_obj g _ _).
  set (l0 := match ld_cameraView d with Some _ => _ | None => _ end).
  assert (Hl0 : Layout3D.rooms l0 = [] ∧ Layout3D.group l0 = g).
  { unfold l0. by destruct (ld_cameraView d). }
  assert (Hn0 : next_node w0 = S g) by done.
  clearbody l0 w0. destruct Hl0 as (Hrooms & Hg).
  destruct (ld_rooms d) as [items|].
  - intros Hj.
    destruct (fromJSON_rooms_spec (S g) _ _ _ _ _ Hj) as (_ & rs' & -> & Hrs);
      [lia|lia|].
    simpl. rewrite Hrooms. simpl.
    eapply Forall_impl; [exact Hrs|]. intros r Hr.
    eapply Forall_impl; [exact Hr|]. intros f. apply Furniture_hung_tree.
  - intros [= <- <-]. rewrite Hrooms. constructor.
Qed.

(** ** Executable well-formedness checks *)

Lemma treeb_tree k w n a : treeb k w n a = true → tree k w n a.
Proof.
  revert a. induction n as [|n IH]; intros a; simpl; [done|].
  rewrite andb_true_iff, Nat.ltb_lt, forallb_forall.
  intros [Ha Hc]. split; [done|]. apply Forall_forall. intros c Hin.
  apply IH, Hc. by apply list_elem_of_In.
Qed.

Lemma Layout_treesb_trees k fuel w rooms :
  Layout_treesb k fuel w rooms = true → Layout_trees k fuel w rooms.
Proof.
  unfold Layout_treesb, Layout_trees. rewrite forallb_forall. intros H.
  apply Forall_forall. intros r Hr. apply list_elem_of_In in Hr.
  specialize (H r Hr). rewrite forallb_forall in H.
  apply Forall_forall. intros f Hf. apply treeb_tree, H. by apply list_elem_of_In.
Qed.

Lemma master101_trees : Layout_trees (next_node world101) 2 world101 (Layout3D.rooms master101).
Proof. apply Layout_treesb_trees. vm_compute. reflexivity. Qed.

Lemma Forall2_with_Forall {A B} (R : A → B → Prop) (P : A → Prop) (Q : B → Prop) l1 l2 :
  Forall2 R l1 l2 → Forall P l1 → Forall Q l2 →
  Forall2 (fun a b => R a b ∧ P a ∧ Q b) l1 l2.
Proof.
  induction 1 as [|a b l1 l2 HR _ IH]; intros HP HQ; [constructor|].
  apply Forall_cons in HP as [HPa HP]. apply Forall_cons in HQ as [HQb HQ].
  constructor; auto.
Qed.

(** ** Claim C9: master flag and identifier of a clone *)

(** C9. For every Layout [l], master or not, [l.clone()] is produced (given
    fuel for the depth of its furniture subtrees), its root group carries
    [isMaster = false], and its identifier is that of [l]. *)
Theorem clone_flag_and_identifier fuel l w :
  Layout_trees (next_node w) fuel w (Layout3D.rooms l) →
  ∃ l' w', Layout3D.clone fuel l w = Some (l', w') ∧
    isMaster (userData (obj w' (Layout3D.group l'))) = Some false ∧
    Layout3D.id l' = Layout3D.id l.
Proof.
  intros Ht.
  destruct (Layout3D_clone_succeeds _ fuel l w Ht (le_n _)) as [[l' w'] Hc].
  exists l', w'. split; [done|].
  destruct (Layout3D_clone_spec (fun _ => False) _ _ _ _ _ Hc)
    as (_ & (Hid & _) & _ & _ & Hn); [by intros a []|].
  split; [|done]. apply node_at_obj in Hn. by rewrite Hn.
Qed.

Lemma clone_flag_and_identifier_witness :
  Layout_trees (next_node world101) 2 world101 (Layout3D.rooms master101) ∧
  ∃ l' w', Layout3D.clone 2 master101 world101 = Some (l', w') ∧
    isMaster (userData (obj w' (Layout3D.group l'))) = Some false ∧
    Layout3D.id l' = Layout3D.id master101.
Proof.
  split; [exact master101_trees|].
  apply (clone_flag_and_identifier 2 master101 world101). exact master101_trees.
Defined.

(** ** Claim C5: walls are regenerated *)

(** C5. For every Room [r], whatever its list of walls holds, [r.clone()]
    is a Room with exactly four walls whose dimensions are the function
    [room_wall_dims] of [r]'s width and depth; each wall is a new object of
    the store (not one that existed before the call) scaled to its
    dimensions. *)
Theorem Room_clone_regenerates_walls fuel r w :
  Forall (fun f => tree (next_node w) w fuel (Furniture.root f))
         (Room.furnitureList r) →
  ∃ r' w', Room.clone fuel r w = Some (r', w') ∧
    length (Room.walls r') = 4 ∧
    map wall_dims (Room.walls r') = room_wall_dims (Room.width r) (Room.depth r) ∧
    Forall (fun wl => next_node w ≤ Wall.mesh wl ∧
                      scale (obj w' (Wall.mesh wl)) = wall_dims wl)
           (Room.walls r').
Proof.
  intros Ht.
  destruct (Room_clone_succeeds _ fuel r w Ht (le_n _)) as [[r' w'] Hc].
  exists r', w'. split; [done|].
  destruct (Room_clone_spec (fun _ => False) _ _ _ _ _ Hc)
    as (_ & (_ & _ & _ & Hdims & _) & (_ & _ & _ & Hwalls & _)); [by intros a []|].
  split; [|split; [done|]].
  - rewrite <- (length_map wall_dims), Hdims. reflexivity.
  - eapply Forall_impl; [exact Hwalls|]. intros wl (H1 & _ & _ & _ & H5).
    split; [done|]. by apply node_at_obj in H5.
Qed.

Lemma Room_clone_regenerates_walls_witness :
  ∃ r, Layout3D.rooms master101 !! 0 = Some r ∧
  Forall (fun f => tree (next_node world101) world101 2 (Furniture.root f))
         (Room.furnitureList r) ∧
  ∃ r' w', Room.clone 2 r world101 = Some (r', w') ∧
    length (Room.walls r') = 4 ∧
    map wall_dims (Room.walls r') = room_wall_dims (Room.width r) (Room.depth r) ∧
    Forall (fun wl => next_node world101 ≤ Wall.mesh wl ∧
                      scale (obj w' (Wall.mesh wl)) = wall_dims wl)
           (Room.walls r').
Proof.
  pose proof master101_trees as Ht. unfold Layout_trees in Ht.
  destruct (Layout3D.rooms master101) as [|r rs] eqn:Hr; [by vm_compute in Hr|].
  apply Forall_cons in Ht as [Ht _].
  exists r. split; [done|]. split; [exact Ht|].
  exact (Room_clone_regenerates_walls 2 r world101 Ht).
Defined.

(** ** Claim C1: session isolation *)

Lemma transform_mutate_ne m f w a :
  Furniture.root f ≠ a → transform (mutate m f w) a = transform w a.
Proof.
  intros Hne. unfold transform.
  destruct m; simpl; unfold Furniture.setPosition, Furniture.setRotation,
    Furniture.setScale; by rewrite obj_update_ne.
Qed.

(** C1. For a master registered under [id], [getSessionClone(id)] returns a
    session whose rooms and furniture correspond one to one to the
    master's; mutating the transform of a session Furniture leaves the
    transform of the master's Furniture unchanged, and the other way
    round. *)
Theorem session_isolation fuel id reg master w :
  LayoutRegistry.masters reg !! id = Some master →
  Layout_trees (next_node w) fuel w (Layout3D.rooms master) →
  ∃ session w',
    LayoutRegistry.getSessionClone fuel id reg w = Some (Normal session, w') ∧
    Forall2 (fun r r' =>
               Forall2 (fun F F' => Furniture_cloned F F' ∧ isolated w' F F')
                       (Room.furnitureList r) (Room.furnitureList r'))
            (Layout3D.rooms master) (Layout3D.rooms session).
Proof.
  intros Hreg Ht. unfold LayoutRegistry.getSessionClone. rewrite Hreg.
  destruct (Layout3D_clone_succeeds _ fuel master w Ht (le_n _)) as [[l' w'] Hc].
  rewrite Hc. simpl. exists l', w'. split; [done|].
  destruct (Layout3D_clone_spec (fun _ => False) _ _ _ _ _ Hc)
    as (_ & (_ & _ & _ & Hrooms) & _ & Hfresh & _); [by intros a []|].
  pose proof (Forall2_with_Forall _ _ _ _ _ Hrooms Ht Hfresh) as H.
  eapply Forall2_impl; [exact H|]. clear H.
  intros r r' ((_ & _ & _ & _ & Hfs) & Htr & (_ & _ & _ & _ & Hfr)).
  pose proof (Forall2_with_Forall _ _ _ _ _ Hfs Htr Hfr) as H.
  eapply Forall2_impl; [exact H|]. clear H.
  intros F F' (Hcl & HF & (HF'1 & HF'2 & _ & _ & Hid)).
  apply tree_bound in HF.
  assert (Hne : Furniture.root F ≠ Furniture.root F') by lia.
  split; [done|]. split; [|split].
  - intros m. by apply transform_mutate_ne.
  - intros m. by apply transform_mutate_ne.
  - intros v. unfold Furniture.setPosition. rewrite obj_update_eq; [done|].
    destruct Hid as (i & _ & o & Ho & _). by exists o.
Qed.

Lemma session_isolation_witness :
  ∃ session w',
    LayoutRegistry.getSessionClone 2 "layout-101" registry101 world101
      = Some (Normal session, w') ∧
    Forall2 (fun r r' =>
               Forall2 (fun F F' => Furniture_cloned F F' ∧ isolated w' F F')
                       (Room.furnitureList r) (Room.furnitureList r'))
            (Layout3D.rooms master101) (Layout3D.rooms session).
Proof.
  apply (session_isolation 2 "layout-101" registry101 master101 world101).
  - reflexivity.
  - exact master101_trees.
Defined.

(** ** Claim C4: clones share the wall buffers *)

Lemma Forall_Forall2_same_length {A B} (P : A → Prop) (Q : B → Prop) l1 l2 :
  length l1 = length l2 → Forall P l1 → Forall Q l2 →
  Forall2 (fun a b => P a ∧ Q b) l1 l2.
Proof.
  revert l2. induction l1 as [|a l1 IH]; intros [|b l2] Hlen HP HQ;
    simpl in Hlen; try done.
  apply Forall_cons in HP as [HPa HP]. apply Forall_cons in HQ as [HQb HQ].
  constructor; [done|]. apply IH; [lia|done|done].
Qed.

Lemma Forall2_right {A B} (R : A → B → Prop) (Q : B → Prop) l1 l2 :
  Forall2 R l1 l2 → (∀ a b, R a b → Q b) → Forall Q l2.
Proof. induction 1; intros HQ; constructor; eauto. Qed.

Lemma Forall_and_2 {A} (P Q : A → Prop) l :
  Forall P l → Forall Q l → Forall (fun a => P a ∧ Q a) l.
Proof. induction 1; intros HQ; [constructor|]. apply Forall_cons in HQ as []. constructor; auto. Qed.

Lemma tree_widen k k' w n a : k ≤ k' → tree k w n a → tree k' w n a.
Proof.
  intros Hk. revert a. induction n as [|n IH]; intros a; [done|].
  simpl. intros [Ha Hc]. split; [lia|]. eapply Forall_impl; [exact Hc|]. auto.
Qed.

Lemma Layout_trees_widen k k' fuel w rooms :
  k ≤ k' → Layout_trees k fuel w rooms → Layout_trees k' fuel w rooms.
Proof.
  intros Hk Ht. eapply Forall_impl; [exact Ht|]. intros r Hr.
  eapply Forall_impl; [exact Hr|]. intros f. by apply tree_widen.
Qed.

Lemma buffers_kept_frame w w' :
  frame (below (next_node w)) w w' → buffers_kept w w'.
Proof.
  intros Hf. split; [apply (frame_next _ _ _ Hf)|].
  split; [apply (frame_wall_geometry _ _ _ Hf)|].
  split; [apply (frame_wall_material _ _ _ Hf)|].
  intros a o Ha Ho. exists o. split; [|done].
  rewrite <- Ho. apply (frame_nodes _ _ _ Hf a Ha).
Qed.

Lemma buffers_kept_trans w1 w2 w3 :
  buffers_kept w1 w2 → buffers_kept w2 w3 → buffers_kept w1 w3.
Proof.
  intros (N1 & G1 & M1 & K1) (N2 & G2 & M2 & K2).
  split; [lia|]. split; [unfold slot_kept in *; auto|].
  split; [unfold slot_kept in *; auto|].
  intros a o Ha Ho. destruct (K1 a o Ha Ho) as (o' & Ho' & Hg & Hm).
  destruct (K2 a o' ltac:(lia) Ho') as (o'' & Ho'' & Hg' & Hm').
  exists o''. split; [done|]. split; congruence.
Qed.

(** Moving, turning or resizing a Furniture keeps the buffers. *)
Lemma buffers_kept_mutate m f w : buffers_kept w (mutate m f w).
Proof.
  assert (H : ∀ g, (∀ o, geometry (g o) = geometry o ∧ material (g o) = material o) →
            buffers_kept w (update_obj (Furniture.root f) g w)).
  { intros g Hg. split; [simpl; lia|].
    split; [unfold slot_kept; simpl; auto|]. split; [unfold slot_kept; simpl; auto|].
    intros a o _ Ho. simpl.
    destruct (decide (Furniture.root f = a)) as [->|Hne].
    - exists (g o). split; [by rewrite lookup_alter_eq, Ho|apply Hg].
    - exists o. split; [by rewrite lookup_alter_ne|done]. }
  destruct m; apply H; by intros [].
Qed.

Lemma wall_shared_kept w w' a :
  buffers_kept w w' → a < next_node w → wall_shared w a → wall_shared w' a.
Proof.
  intros (_ & G & M & K) Ha (g & m & Hg & Hm & (o & Ho & Hog & Hom)).
  exists g, m. split; [by apply G|]. split; [by apply M|].
  destruct (K a o Ha Ho) as (o' & Ho' & Hg' & Hm').
  exists o'. split; [done|]. split; congruence.
Qed.

(** C4. For every master whose Furniture head subtrees of depth at most
    [fuel]: a clone is produced, with a room for every room of the master
    and the four walls of each; and whatever the program did to the store
    in between (moving Furniture, loading or disposing: every object that
    existed kept its geometry and material and the class-wide wall buffers
    stayed), a second clone of the master is produced as well, room for
    room and wall for wall, and the walls at the same index of the same
    room of the two clones are distinct objects that refer to one and the
    same geometry handle and one and the same material handle, the
    class-wide [Wall.geometry] and [Wall.material]. *)
Theorem clones_share_wall_buffers fuel l w :
  Layout_trees (next_node w) fuel w (Layout3D.rooms l) →
  ∃ c1 w1,
    Layout3D.clone fuel l w = Some (c1, w1) ∧ Layout_cloned l c1 ∧
    ∀ w1', buffers_kept w1 w1' →
           Layout_trees (next_node w1') fuel w1' (Layout3D.rooms l) →
      ∃ c2 w2,
        Layout3D.clone fuel l w1' = Some (c2, w2) ∧ Layout_cloned l c2 ∧
        Forall2 (fun r1 r2 =>
                   length (Room.walls r1) = 4 ∧
                   Forall2 (same_handles w2) (Room.walls r1) (Room.walls r2))
                (Layout3D.rooms c1) (Layout3D.rooms c2).
Proof.
  intros Ht.
  destruct (Layout3D_clone_succeeds _ fuel l w Ht (le_n _)) as [[c1 w1] Hc1].
  exists c1, w1. split; [exact Hc1|].
  destruct (Layout3D_clone_spec (fun _ => False) _ _ _ _ _ Hc1)
    as (_ & Hcl1 & _ & Hfresh1 & _); [by intros a []|].
  split; [exact Hcl1|]. intros w1' Hk Ht'.
  destruct (Layout3D_clone_succeeds _ fuel l w1' Ht' (le_n _)) as [[c2 w2] Hc2].
  exists c2, w2. split; [exact Hc2|].
  destruct (Layout3D_clone_spec (below (next_node w1')) _ _ _ _ _ Hc2)
    as (Hf2 & Hcl2 & _ & Hfresh2 & _); [by apply bounded_below|].
  split; [exact Hcl2|].
  pose proof Hcl1 as (_ & _ & _ & Hrooms1). pose proof Hcl2 as (_ & _ & _ & Hrooms2).
  assert (Hk2 : buffers_kept w1 w2).
  { eapply buffers_kept_trans; [exact Hk|]. by apply buffers_kept_frame. }
  pose proof Hk as (Hn & _).
  assert (Hlen : length (Layout3D.rooms c1) = length (Layout3D.rooms c2)).
  { apply Forall2_length in Hrooms1, Hrooms2. congruence. }
  assert (Hfour : ∀ cs, Forall2 Room_cloned (Layout3D.rooms l) cs →
            Forall (fun r => length (Room.walls r) = 4) cs).
  { intros cs Hcs. eapply Forall2_right; [exact Hcs|].
    intros r r' (_ & _ & _ & Hd & _).
    rewrite <- (length_map wall_dims), Hd. reflexivity. }
  pose proof (Forall_and_2 _ _ _ Hfresh1 (Hfour _ Hrooms1)) as H1.
  pose proof (Forall_and_2 _ _ _ Hfresh2 (Hfour _ Hrooms2)) as H2.
  pose proof (Forall_Forall2_same_length _ _ _ _ Hlen H1 H2) as H. clear H1 H2.
  eapply Forall2_impl; [exact H|]. clear H.
  intros r1 r2 ((Hfr1 & Hl1) & (Hfr2 & Hl2)). split; [exact Hl1|].
  destruct Hfr1 as (_ & _ & _ & Hw1 & _). destruct Hfr2 as (_ & _ & _ & Hw2 & _).
  assert (Hlw : length (Room.walls r1) = length (Room.walls r2)) by congruence.
  pose proof (Forall_Forall2_same_length _ _ _ _ Hlw Hw1 Hw2) as H.
  eapply Forall2_impl; [exact H|]. clear H.
  intros wl1 wl2 ((Ha1 & Hb1 & Hs1 & _) & (Ha2 & Hb2 & Hs2 & _)).
  apply (wall_shared_kept _ _ _ Hk2) in Hs1; [|done].
  destruct Hs1 as (g1 & m1 & Hg1 & Hm1 & Hn1).
  destruct Hs2 as (g2 & m2 & Hg2 & Hm2 & Hn2).
  apply node_at_obj in Hn1 as [Hog1 Hom1]. apply node_at_obj in Hn2 as [Hog2 Hom2].
  assert (g1 = g2) as -> by congruence. assert (m1 = m2) as -> by congruence.
  unfold same_handles. rewrite Hog1, Hog2, Hom1, Hom2, Hg2, Hm2.
  repeat split; try done; try by eexists. lia.
Qed.

(** On the running example: the master is cloned, any Furniture of the
    session is moved, turned or resized, and the master is cloned again. *)
Lemma clones_share_wall_buffers_witness :
  ∃ c1 w1,
    Layout3D.clone 2 master101 world101 = Some (c1, w1) ∧
    Layout_cloned master101 c1 ∧
    ∀ r f m, r ∈ Layout3D.rooms c1 → f ∈ Room.furnitureList r →
      ∃ c2 w2,
        Layout3D.clone 2 master101 (mutate m f w1) = Some (c2, w2) ∧
        Layout_cloned master101 c2 ∧
        Forall2 (fun r1 r2 =>
                   length (Room.walls r1) = 4 ∧
                   Forall2 (same_handles w2) (Room.walls r1) (Room.walls r2))
                (Layout3D.rooms c1) (Layout3D.rooms c2).
Proof.
  destruct (clones_share_wall_buffers 2 master101 world101 master101_trees)
    as (c1 & w1 & Hc1 & Hcl & Hnext).
  exists c1, w1. split; [exact Hc1|]. split; [exact Hcl|].
  intros r f m Hr Hf. apply Hnext; [apply buffers_kept_mutate|].
  destruct (Layout3D_clone_spec (below (next_node world101)) _ _ _ _ _ Hc1)
    as (Hfr & _ & _ & Hfresh & _); [by apply bounded_below|].
  assert (Hroot : next_node world101 ≤ Furniture.root f).
  { rewrite Forall_forall in Hfresh. destruct (Hfresh r Hr) as (_ & _ & _ & _ & Hff).
    rewrite Forall_forall in Hff. destruct (Hff f Hf) as (H & _). lia. }
  apply (Layout_trees_widen (next_node world101)).
  { pose proof (frame_next _ _ _ Hfr). by destruct m. }
  eapply Layout_trees_frame; [|by intros b Hb; exact Hb|].
  - eapply frame_trans; [exact Hfr|].
    destruct m; apply frame_update_obj; unfold below; lia.
  - exact master101_trees.
Defined.

(** ** Claim C2: identifiers of a clone *)

Lemma id_drawn_fresh keep w w' a' :
  frame keep w w' → id_drawn (drawn w) w' a' → fresh_identifier w w' a'.
Proof.
  intros Hf (i & [Hi1 Hi2] & Hn). apply node_at_obj in Hn.
  rewrite (frame_random _ _ _ Hf) in Hn.
  split; [by exists i|].
  intros Hinj a (j & Hj & Ha). rewrite Hn, Ha. intros [= Heq].
  apply Hinj in Heq. lia.
Qed.

(** The claim as stated fails on the running example: the clone's root group
    carries the identifier of the master's root group, and the placeholder
    mesh inside the first cloned Furniture carries the identifier of the
    master's placeholder mesh. *)
Lemma identity_freshness_counterexample :
  match Layout3D.clone 2 master101 world101 with
  | Some (l', w') =>
      entityId (userData (obj w' (Layout3D.group l')))
        = entityId (userData (obj world101 (Layout3D.group master101))) ∧
      (map (fun m => entityId (userData (obj w' m)))
         (flat_map (fun f => children (obj w' (Furniture.root f)))
                   (take 1 (Layout3D.furniture l')))
       = map (fun m => entityId (userData (obj world101 m)))
         (flat_map (fun f => children (obj world101 (Furniture.root f)))
                   (take 1 (Layout3D.furniture master101))) ∧
       length (flat_map (fun f => children (obj w' (Furniture.root f)))
                        (take 1 (Layout3D.furniture l'))) = 1)
  | None => False
  end.
Proof. vm_compute. repeat split; reflexivity. Qed.

(** C2, amended. For every Layout [l], in [l.clone()]: the root group of
    the clone carries the layout identifier, the same as [l]'s; the group
    of every Room, the mesh of every Wall and the root of every Furniture
    of the clone carry identifiers newly drawn from the random stream,
    different from every identifier drawn earlier when the stream does not
    repeat itself. *)
Theorem clone_identifiers fuel l w :
  Layout_trees (next_node w) fuel w (Layout3D.rooms l) →
  ∃ l' w', Layout3D.clone fuel l w = Some (l', w') ∧
    entityId (userData (obj w' (Layout3D.group l'))) = Layout3D.id l ∧
    Forall (fun r' =>
              fresh_identifier w w' (Room.group r') ∧
              Forall (fun wl => fresh_identifier w w' (Wall.mesh wl)) (Room.walls r') ∧
              Forall (fun F' => fresh_identifier w w' (Furniture.root F'))
                     (Room.furnitureList r'))
           (Layout3D.rooms l').
Proof.
  intros Ht.
  destruct (Layout3D_clone_succeeds _ fuel l w Ht (le_n _)) as [[l' w'] Hc].
  exists l', w'. split; [done|].
  destruct (Layout3D_clone_spec (fun _ => False) _ _ _ _ _ Hc)
    as (Hf & _ & _ & Hfresh & Hn); [by intros a []|].
  split; [apply node_at_obj in Hn; by rewrite Hn|].
  eapply Forall_impl; [exact Hfresh|].
  intros r' (_ & _ & Hid & Hwalls & Hfurn).
  split; [by eapply id_drawn_fresh|]. split.
  - eapply Forall_impl; [exact Hwalls|]. intros wl (_ & _ & _ & Hi & _).
    by eapply id_drawn_fresh.
  - eapply Forall_impl; [exact Hfurn|]. intros F' (_ & _ & _ & _ & Hi).
    by eapply id_drawn_fresh.
Qed.

Lemma clone_identifiers_witness :
  Layout_trees (next_node world101) 2 world101 (Layout3D.rooms master101) ∧
  ∃ l' w', Layout3D.clone 2 master101 world101 = Some (l', w') ∧
    entityId (userData (obj w' (Layout3D.group l'))) = Layout3D.id master101 ∧
    Forall (fun r' =>
              fresh_identifier world101 w' (Room.group r') ∧
              Forall (fun wl => fresh_identifier world101 w' (Wall.mesh wl))
                     (Room.walls r') ∧
              Forall (fun F' => fresh_identifier world101 w' (Furniture.root F'))
                     (Room.furnitureList r'))
           (Layout3D.rooms l').
Proof.
  split; [exact master101_trees|].
  exact (clone_identifiers 2 master101 world101 master101_trees).
Defined.

(** ** Loading an asset *)

Lemma GltfNode_induction (P : GltfNode → Prop) :
  (∀ m p r s kids, Forall P kids → P (GNode m p r s kids)) → ∀ g, P g.
Proof.
  intros H. fix IH 1. intros [m p r s kids]. apply H.
  induction kids as [|k ks IHks]; constructor; [apply IH|apply IHks].
Qed.

Lemma instantiate_kids_spec keep parent ks w :
  Forall (fun k => ∀ keep w, bounded keep w →
            frame keep w (snd (instantiate k w))) ks →
  bounded keep w → ¬ keep parent →
  frame keep w (instantiate_kids instantiate parent ks w).
Proof.
  revert w. induction ks as [|k ks IH]; intros w Hks Hb Hp; simpl.
  - apply frame_refl.
  - apply Forall_cons in Hks as [Hk Hks].
    specialize (Hk keep w Hb).
    destruct (instantiate k w) as [c w1]. simpl in Hk.
    eapply frame_trans; [exact Hk|].
    eapply frame_trans; [by apply frame_Object3D_add|].
    apply IH; [done| |done].
    eapply bounded_frame; [|by apply frame_Object3D_add].
    by eapply bounded_frame.
Qed.

Lemma instantiate_frame g : ∀ keep w,
  bounded keep w → frame keep w (snd (instantiate g w)).
Proof.
  induction g as [m p r s kids IH] using GltfNode_induction.
  intros keep w Hb.
  assert (Hstep : ∀ o w0, frame keep w w0 →
            frame keep w (instantiate_kids instantiate (next_node w0) kids
                            (snd (alloc_obj o w0)))).
  { intros o w0 Hf0.
    assert (Hb0 : bounded keep w0) by (by eapply bounded_frame).
    eapply frame_trans; [exact Hf0|].
    eapply frame_trans; [by apply (frame_alloc_obj keep o w0)|].
    apply instantiate_kids_spec; [done| |].
    - eapply bounded_frame; [exact Hb0|]. by apply frame_alloc_obj.
    - by apply (bounded_fresh keep w0). }
  destruct m; simpl.
  - apply (Hstep _ (snd (alloc_resource (snd (alloc_resource w))))).
    constructor; unfold slot_kept; simpl; auto.
  - apply (Hstep _ w). apply frame_refl.
Qed.

Lemma instantiate_node g w :
  fst (instantiate g w) = next_node w ∧
  node_at (snd (instantiate g w)) (next_node w) (fun o =>
    position o = gltf_position g ∧ scale o = gltf_scale g).
Proof.
  destruct g as [m p r s kids].
  assert (Hkids : ∀ ks parent w0 (P : Object3D → Prop),
            (∀ o cs, P o → P (set_children cs o)) →
            parent < next_node w0 → node_at w0 parent P →
            node_at (instantiate_kids instantiate parent ks w0) parent P).
  { induction ks as [|k ks IHks]; intros parent w0 P HP Hlt Hn; simpl; [done|].
    pose proof (instantiate_frame k (fun a => a = parent) w0) as Hf.
    destruct (instantiate k w0) as [c w1]. simpl in Hf.
    assert (Hf' : frame (fun a => a = parent) w0 w1) by (apply Hf; by intros a ->).
    apply IHks; [done| |].
    - pose proof (frame_next _ _ _ Hf'). simpl. lia.
    - apply node_at_add; [done|]. by eapply node_at_frame. }
  destruct m; simpl; (split; [done|]); apply Hkids;
    try (intros o cs; by destruct o); try (simpl; lia);
    (eexists; split; [simpl; apply lookup_insert_eq|done]).
Qed.

Lemma loadModel_resume_failed err this w :
  Loading.loadModel_resume (Failed err) this w = (Normal tt, (this, w)).
Proof. reflexivity. Qed.

(** A successful fetch: the model is a new object, moved by the centre of
    its box and scaled as [normalized_scale] says; under the Furniture root
    it takes the place of the old mesh; nothing else below the allocation
    pointer changes. *)
Lemma loadModel_resume_fetched gltf this w :
  is_Some (nodes w !! Furniture.root this) →
  Furniture.root this < next_node w →
  let model := next_node w in
  let r := Loading.loadModel_resume (Fetched gltf) this w in
  fst r = Normal tt ∧
  fst (snd r) = Furniture.set_mesh model this ∧
  frame (below_except w (Furniture.root this)) w (snd (snd r)) ∧
  node_at (snd (snd r)) (Furniture.root this) (fun o' =>
    ∃ o, nodes w !! Furniture.root this = Some o ∧
         o' = set_children (remove_first (Furniture.mesh this) (children o)
                            ++ [model]) o) ∧
  node_at (snd (snd r)) model (fun o =>
    position o = Vector3_sub (gltf_position (scene gltf))
                             (Box3_getCenter (bounds gltf)) ∧
    scale o = normalized_scale (gltf_scale (scene gltf)) (bounds gltf)).
Proof.
  intros [o Ho] Hlt model r.
  unfold r, Loading.loadModel_resume, Loading.await_loadAsync, try_catch.
  cbn [fst snd].
  pose proof (instantiate_node (scene gltf) w) as [Hm Hnode].
  pose proof (instantiate_frame (scene gltf) (below_except w (Furniture.root this)) w
                (bounded_below_except _ _)) as Hf1.
  pose proof (instantiate_frame (scene gltf) (fun a => a = Furniture.root this) w)
    as Hfr.
  destruct (instantiate (scene gltf) w) as [m w1]. cbn [fst snd] in *.
  subst m. fold model in Hnode |- *.
  assert (Hfr' : frame (fun a => a = Furniture.root this) w w1)
    by (apply Hfr; by intros a ->).
  assert (Hne : model ≠ Furniture.root this) by (unfold model; lia).
  assert (Hnk : ¬ below_except w (Furniture.root this) model)
    by (unfold below_except, model; lia).
  assert (Hrk : ¬ below_except w (Furniture.root this) (Furniture.root this))
    by (unfold below_except; intros []; done).
  set (w2 := Loading.normalize model (bounds gltf) w1).
  assert (Hf2 : frame (below_except w (Furniture.root this)) w1 w2).
  { unfold w2, Loading.normalize. destruct (num_ltb _ _).
    - eapply frame_trans; by apply frame_update_obj.
    - by apply frame_update_obj. }
  assert (Hroot2 : nodes w2 !! Furniture.root this = Some o).
  { unfold w2, Loading.normalize.
    destruct (num_ltb _ _); simpl; lookup_simpl;
      by rewrite (frame_nodes _ _ _ Hfr'). }
  assert (Hmodel2 : node_at w2 model (fun o =>
            position o = Vector3_sub (gltf_position (scene gltf))
                                     (Box3_getCenter (bounds gltf)) ∧
            scale o = normalized_scale (gltf_scale (scene gltf)) (bounds gltf))).
  { destruct Hnode as (om & Hom & Hp & Hs).
    unfold w2, Loading.normalize, normalized_scale.
    destruct (num_ltb _ _); eexists; (split; [simpl; lookup_simpl; rewrite Hom; reflexivity|]);
      simpl; by rewrite Hp, Hs. }
  clearbody w2. unfold Loading.attach. cbn [fst snd].
  split; [done|]. split; [done|]. split; [|split].
  - eapply frame_trans; [exact Hf1|]. eapply frame_trans; [exact Hf2|].
    eapply frame_trans; [by apply frame_Object3D_remove|].
    by apply frame_Object3D_add.
  - eexists. split; [simpl; lookup_simpl; rewrite Hroot2; reflexivity|].
    exists o. split; [done|]. by destruct o.
  - apply node_at_update_ne; [done|]. apply node_at_update_ne; [done|]. done.
Qed.

(** ** A degenerate bounding box *)

(** X6. The guard of the normalization.  For every Furniture whose fetch
    succeeds with an asset whose bounding box has maximum dimension 0, the
    resumed [loadModel] completes normally, leaves the model's scale exactly
    as the asset came (no factor is applied), removes the Furniture's mesh
    from the children of its root, appends the model there, and makes the
    model the Furniture's mesh. *)
Theorem degenerate_box_left_unscaled gltf this w :
  allocated w (Furniture.root this) →
  Loading.maxDim (bounds gltf) = n0 →
  ∃ model this' w',
    Loading.loadModel_resume (Fetched gltf) this w = (Normal tt, (this', w')) ∧
    next_node w ≤ model ∧
    Furniture.mesh this' = model ∧
    scale (obj w' model) = gltf_scale (scene gltf) ∧
    children (obj w' (Furniture.root this)) =
      remove_first (Furniture.mesh this)
                   (children (obj w (Furniture.root this))) ++ [model].
Proof.
  intros [Hlt Hex] Hd.
  destruct (loadModel_resume_fetched gltf this w Hex Hlt)
    as (Hc & Hthis & _ & Hroot & Hmodel).
  destruct (Loading.loadModel_resume (Fetched gltf) this w) as [c [this' w']].
  cbn [fst snd] in *. subst c this'.
  exists (next_node w), (Furniture.set_mesh (next_node w) this), w'.
  split; [done|]. split; [done|]. split; [done|]. split.
  - apply node_at_obj in Hmodel as [_ Hs]. rewrite Hs.
    unfold normalized_scale. rewrite Hd. reflexivity.
  - apply node_at_obj in Hroot as (o & Ho & ->). unfold obj. rewrite Ho. done.
Qed.

Lemma degenerate_box_left_unscaled_witness :
  allocated world_sofa (Furniture.root sofa0) ∧
  Loading.maxDim (bounds point_asset) = n0 ∧
  ∃ model this' w',
    Loading.loadModel_resume (Fetched point_asset) sofa0 world_sofa
      = (Normal tt, (this', w')) ∧
    next_node world_sofa ≤ model ∧
    Furniture.mesh this' = model ∧
    scale (obj w' model) = gltf_scale (scene point_asset) ∧
    children (obj w' (Furniture.root sofa0)) =
      remove_first (Furniture.mesh sofa0)
                   (children (obj world_sofa (Furniture.root sofa0))) ++ [model].
Proof.
  assert (H1 : allocated world_sofa (Furniture.root sofa0)).
  { split; [vm_compute; lia|]. vm_compute. by eexists. }
  assert (H2 : Loading.maxDim (bounds point_asset) = n0).
  { apply Qc_is_canon. vm_compute. reflexivity. }
  split; [exact H1|]. split; [exact H2|].
  exact (degenerate_box_left_unscaled point_asset sofa0 world_sofa H1 H2).
Defined.

(** ** Claim C6: normalization *)

(** X5. For a positive maximum dimension [d], the model's scale is the scale
    the asset came with, multiplied on every axis by [1 / d]. *)
Lemma scale_factor_is_reciprocal gltf this w :
  allocated w (Furniture.root this) →
  num_ltb n0 (Loading.maxDim (bounds gltf)) = true →
  let r := Loading.loadModel_resume (Fetched gltf) this w in
  scale (obj (snd (snd r)) (Furniture.mesh (fst (snd r)))) =
    Vector3_multiplyScalar (gltf_scale (scene gltf))
                           (Qcdiv n1 (Loading.maxDim (bounds gltf))).
Proof.
  intros [Hlt Hex] Hd r.
  destruct (loadModel_resume_fetched gltf this w Hex Hlt)
    as (_ & Hthis & _ & _ & Hmodel).
  fold r in Hthis, Hmodel. rewrite Hthis. simpl.
  apply node_at_obj in Hmodel as [_ Hs]. rewrite Hs.
  unfold normalized_scale. by rewrite Hd.
Qed.

(** C6, on the cube: the scale factor is 1/4, the model is moved by the
    centre (2,2,2) of its box, and the centre of the box then lies at
    (-3/2,-3/2,-3/2) of the Furniture root, not at its origin: the
    translation is by the unscaled centre while the scale is applied about
    the model's own origin. *)
Lemma normalization_leaves_centre_off_origin :
  let r := Loading.loadModel_resume (Fetched cube4) sofa0 world_sofa in
  let model := obj (snd (snd r)) (Furniture.mesh (fst (snd r))) in
  coords (Box3_getCenter (bounds cube4)) = (2, 2, 2)%Q ∧
  coords (scale model) = (1 # 4, 1 # 4, 1 # 4)%Q ∧
  coords (position model) = (-2, -2, -2)%Q ∧
  coords (Object3D_localToParent model (Box3_getCenter (bounds cube4)))
    = (-3 # 2, -3 # 2, -3 # 2)%Q.
Proof. vm_compute. repeat split; reflexivity. Qed.

(** ** Claim C8: dispose and the shared placeholder *)

(** C8, on a Furniture with a model URL whose fetch failed: its mesh is
    still the placeholder built from the class-wide placeholder geometry and
    material, and [dispose()] disposes both of them. *)
Lemma dispose_hits_shared_placeholder :
  let this := fst failed_sofa in
  let w := snd failed_sofa in
  ∃ g m w',
    Furniture_placeholderGeometry w = Some g ∧
    Furniture_placeholderMaterial w = Some m ∧
    geometry (obj w (Furniture.mesh this)) = Some g ∧
    material (obj w (Furniture.mesh this)) = Some (SingleMaterial m) ∧
    (g ∉ disposed w) ∧ (m ∉ disposed w) ∧
    Furniture.dispose 1 this w = Some w' ∧
    (g ∈ disposed w') ∧ (m ∈ disposed w').
Proof.
  intros this w.
  assert (Hd : disposed w = ∅) by (vm_compute; reflexivity).
  exists 0, 1, (dispose_resource 1 (dispose_resource 0 w)).
  split; [vm_compute; reflexivity|]. split; [vm_compute; reflexivity|].
  split; [vm_compute; reflexivity|]. split; [vm_compute; reflexivity|].
  split; [rewrite Hd; set_solver|]. split; [rewrite Hd; set_solver|].
  split; [vm_compute; reflexivity|].
  split; simpl; set_solver.
Qed.

(** ** Best-effort asset hydration *)

(** [loadModel] never rejects: a failed fetch is caught. *)
Lemma loadModel_resume_normal out this w :
  fst (Loading.loadModel_resume out this w) = Normal tt.
Proof.
  destruct out as [gltf|err]; [|reflexivity].
  unfold Loading.loadModel_resume, Loading.await_loadAsync, try_catch.
  cbn [fst snd]. by destruct (instantiate (scene gltf) w).
Qed.

Lemma load_invariant_start layout w :
  load_invariant w (Layout3D.furniture layout) (Loading.loadAssets_start layout w).
Proof.
  unfold load_invariant, Loading.loadAssets_start. simpl.
  split; [done|]. split; [by rewrite length_map|]. split; [done|].
  intros k f0 Hk. exists f0, (Loading.loadModel_start f0).
  split; [done|]. split; [by rewrite list_lookup_fmap, Hk|].
  unfold Loading.loadModel_start. by destruct (truthy _).
Qed.

Lemma load_invariant_settle w0 fs0 st st' :
  hydratable w0 fs0 → load_invariant w0 fs0 st → Loading.settle st st' →
  load_invariant w0 fs0 st'.
Proof.
  intros Hh (Hlf & Hlt & Hnext & Hinv) Hstep.
  destruct Hstep as [st k url this out Htask Hthis].
  assert (Hk : k < length fs0).
  { rewrite <- Hlf. by eapply lookup_lt_Some. }
  destruct (lookup_lt_is_Some_2 fs0 k Hk) as [f0k Hf0k].
  destruct (Hinv k f0k Hf0k) as (f & t & Hf & Ht & Hpost & _).
  rewrite Hthis in Hf. injection Hf as <-.
  rewrite Htask in Ht. injection Ht as <-.
  simpl in Hpost. destruct Hpost as (-> & Hroot & Hmesh).
  assert (Halloc : allocated w0 (Furniture.root f0k)).
  { pose proof (roots_allocated _ _ Hh) as Hr.
    rewrite Forall_forall in Hr. apply Hr. by eapply list_elem_of_lookup_2. }
  assert (Hex : is_Some (nodes (Loading.world st) !! Furniture.root f0k)).
  { rewrite Hroot. apply Halloc. }
  assert (Hlt' : Furniture.root f0k < next_node (Loading.world st)).
  { destruct Halloc. lia. }
  pose proof (loadModel_resume_normal out f0k (Loading.world st)) as Hnormal.
  set (r := Loading.loadModel_resume out f0k (Loading.world st)) in *.
  assert (Hworld : next_node (Loading.world st) ≤ next_node (snd (snd r)) ∧
            ∀ a, a < next_node w0 → a ≠ Furniture.root f0k →
                 nodes (snd (snd r)) !! a = nodes (Loading.world st) !! a).
  { destruct out as [gltf|err].
    - destruct (loadModel_resume_fetched gltf f0k _ Hex Hlt') as (_ & _ & Hf & _).
      fold r in Hf. split; [apply (frame_next _ _ _ Hf)|].
      intros a Ha Hne. apply (frame_nodes _ _ _ Hf). unfold below_except. lia.
    - unfold r. rewrite loadModel_resume_failed. done. }
  destruct Hworld as [Hnext' Hkeep].
  unfold load_invariant. simpl.
  split; [by rewrite length_insert|]. split; [by rewrite length_insert|].
  split; [lia|].
  intros k' f0 Hf0. destruct (decide (k' = k)) as [->|Hne].
  - rewrite Hf0k in Hf0. injection Hf0 as <-.
    exists (fst (snd r)), (Loading.Finished out (fst r)).
    split; [apply list_lookup_insert_eq; lia|].
    split; [apply list_lookup_insert_eq; lia|].
    split; [|exact Hnormal].
    destruct out as [gltf|err].
    + destruct (loadModel_resume_fetched gltf f0k _ Hex Hlt')
        as (_ & Hthis' & _ & Hr & _).
      fold r in Hthis', Hr. simpl.
      exists (next_node (Loading.world st)). split; [done|]. split; [done|].
      apply node_at_obj in Hr as (o & Ho & ->). simpl.
      unfold obj. rewrite <- Hroot, Ho. done.
    + unfold r. rewrite loadModel_resume_failed. simpl. done.
  - destruct (Hinv k' f0 Hf0) as (f' & t' & Hf' & Ht' & Hpost' & Hn').
    exists f', t'.
    split; [by rewrite list_lookup_insert_ne|].
    split; [by rewrite list_lookup_insert_ne|].
    split; [|done].
    assert (Hin : f0 ∈ fs0) by (by eapply list_elem_of_lookup_2).
    assert (Hink : f0k ∈ fs0) by (by eapply list_elem_of_lookup_2).
    assert (Hr1 : Furniture.root f0 ≠ Furniture.root f0k).
    { intros Heq. apply Hne.
      eapply (NoDup_lookup _ _ _ _ (roots_distinct _ _ Hh)).
      - by rewrite list_lookup_fmap, Hf0.
      - by rewrite list_lookup_fmap, Hf0k, Heq. }
    assert (Hr2 : Furniture.root f0 < next_node w0).
    { pose proof (roots_allocated _ _ Hh) as Hr. rewrite Forall_forall in Hr.
      by destruct (Hr f0 Hin). }
    assert (Hm1 : Furniture.mesh f0 ≠ Furniture.root f0k).
    { pose proof (meshes_not_roots _ _ Hh) as Hm. rewrite Forall_forall in Hm.
      specialize (Hm f0 Hin). rewrite Forall_forall in Hm. auto. }
    assert (Hm2 : Furniture.mesh f0 < next_node w0).
    { pose proof (meshes_below _ _ Hh) as Hm. rewrite Forall_forall in Hm. auto. }
    unfold task_post in *.
    destruct t' as [| |[gltf'|err'] c'].
    + destruct Hpost' as (-> & H1 & H2). by rewrite !Hkeep.
    + destruct Hpost' as (-> & H1 & H2). by rewrite !Hkeep.
    + destruct Hpost' as (model & H1 & H2 & H3). exists model.
      split; [done|]. split; [done|]. rewrite <- H3.
      unfold obj. by rewrite Hkeep.
    + destruct Hpost' as (-> & H1 & H2). by rewrite !Hkeep.
Qed.

Lemma load_invariant_run w0 fs0 st0 st :
  hydratable w0 fs0 → Loading.run st0 st →
  load_invariant w0 fs0 st0 → load_invariant w0 fs0 st.
Proof.
  intros Hh Hrun. induction Hrun as [st|st1 st2 st3 _ IH Hstep]; [done|].
  intros H0. eapply load_invariant_settle; [exact Hh|exact (IH H0)|exact Hstep].
Qed.

Lemma Promise_all_tasks ts :
  Forall completed_normally ts →
  (∀ e, Loading.Promise_all (map Loading.promise_of ts) ≠ Loading.Rejected e) ∧
  (Loading.Promise_all (map Loading.promise_of ts) = Loading.Fulfilled
   ↔ Forall settled ts).
Proof.
  induction ts as [|t ts IH]; intros Hts; simpl.
  - split; [done|]. split; [constructor|done].
  - apply Forall_cons in Hts as [Ht Hts]. destruct (IH Hts) as [IH1 IH2].
    destruct t as [|url|out c]; simpl.
    + split; [done|]. rewrite IH2. split; [by constructor|].
      intros H. by apply Forall_cons in H as [_ H].
    + split.
      * intros e. destruct (Loading.Promise_all _) eqn:Hp; done.
      * split.
        -- destruct (Loading.Promise_all _); done.
        -- intros H. by apply Forall_cons in H as [[] _].
    + simpl in Ht. subst c. simpl.
      split; [done|]. rewrite IH2. split; [by constructor|].
      intros H. by apply Forall_cons in H as [_ H].
Qed.

(** *** Every fetch settles, the aggregate resolves *)

Lemma run_trans st1 st2 st3 :
  Loading.run st1 st2 → Loading.run st2 st3 → Loading.run st1 st3.
Proof.
  intros H12 H23. induction H23 as [st|sa sb sc _ IH Hstep]; [done|].
  eapply Loading.run_step; [by apply IH|done].
Qed.

Lemma settle_at_run k out st : Loading.run st (Loading.settle_at k out st).
Proof.
  unfold Loading.settle_at.
  destruct (Loading.tasks st !! k) as [[|url|o c]|] eqn:Ht; try apply Loading.run_refl.
  destruct (Loading.furniture st !! k) as [this|] eqn:Hf; [|apply Loading.run_refl].
  eapply Loading.run_step; [apply Loading.run_refl|].
  by apply (Loading.settle_task st k url this out).
Qed.

Lemma run_schedule_run sched st : Loading.run st (Loading.run_schedule sched st).
Proof.
  unfold Loading.run_schedule. revert st.
  induction sched as [|[k out] sched IH]; intros st; simpl; [apply Loading.run_refl|].
  eapply run_trans; [apply settle_at_run|apply IH].
Qed.

Lemma settle_at_lengths k out st :
  same_lengths st → same_lengths (Loading.settle_at k out st) ∧
  length (Loading.tasks (Loading.settle_at k out st)) = length (Loading.tasks st).
Proof.
  unfold same_lengths, Loading.settle_at. intros Hl.
  destruct (Loading.tasks st !! k) as [[|url|o c]|]; try done.
  destruct (Loading.furniture st !! k); [|done].
  simpl. by rewrite !length_insert.
Qed.

Lemma settle_at_settles k out st :
  same_lengths st → k < length (Loading.tasks st) →
  settled_at (Loading.settle_at k out st) k.
Proof.
  unfold same_lengths, settled_at, Loading.settle_at. intros Hl Hk.
  destruct (lookup_lt_is_Some_2 (Loading.tasks st) k Hk) as [t Ht].
  rewrite Ht.
  destruct (lookup_lt_is_Some_2 (Loading.furniture st) k) as [f Hf]; [lia|].
  rewrite Hf.
  destruct t as [|url|o c]; try (exists (Loading.Skipped); done);
    try (eexists; split; [exact Ht|done]).
  simpl. eexists. split; [by apply list_lookup_insert_eq|done].
Qed.

Lemma settle_at_mono k out st j :
  settled_at st j → settled_at (Loading.settle_at k out st) j.
Proof.
  unfold settled_at, Loading.settle_at. intros (t & Ht & Hs).
  destruct (Loading.tasks st !! k) as [[|url|o c]|] eqn:Hk; try (by exists t).
  destruct (Loading.furniture st !! k); [|by exists t].
  simpl. destruct (decide (k = j)) as [->|Hne].
  - rewrite Ht in Hk. injection Hk as ->. done.
  - exists t. by rewrite list_lookup_insert_ne.
Qed.

Lemma run_schedule_settles sched st :
  same_lengths st →
  same_lengths (Loading.run_schedule sched st) ∧
  length (Loading.tasks (Loading.run_schedule sched st)) = length (Loading.tasks st) ∧
  (∀ j, settled_at st j → settled_at (Loading.run_schedule sched st) j) ∧
  (∀ j, j ∈ map fst sched → j < length (Loading.tasks st) →
        settled_at (Loading.run_schedule sched st) j).
Proof.
  unfold Loading.run_schedule. revert st.
  induction sched as [|[k out] sched IH]; intros st Hl; simpl.
  - split; [done|]. split; [done|]. split; [done|]. intros j Hj. by apply elem_of_nil in Hj.
  - destruct (settle_at_lengths k out st Hl) as [Hl1 Hl2].
    destruct (IH _ Hl1) as (H1 & H2 & H3 & H4).
    split; [done|]. split; [congruence|]. split.
    + intros j Hj. by apply H3, settle_at_mono.
    + intros j Hj Hlt. apply elem_of_cons in Hj as [->|Hj].
      * apply H3. by apply settle_at_settles.
      * apply H4; [done|lia].
Qed.

Lemma in_order_resolves outcomes st :
  same_lengths st →
  Forall settled
    (Loading.tasks (Loading.run_schedule
                      (in_order outcomes (length (Loading.tasks st))) st)).
Proof.
  intros Hl.
  destruct (run_schedule_settles (in_order outcomes (length (Loading.tasks st))) st Hl)
    as (_ & Hlen & _ & Hall).
  apply Forall_lookup. intros j t Ht.
  assert (Hj : j < length (Loading.tasks st)).
  { rewrite <- Hlen. by eapply lookup_lt_Some. }
  destruct (Hall j) as (t' & Ht' & Hs); [|done|].
  - unfold in_order. rewrite map_map. simpl. rewrite map_id.
    apply list_elem_of_In, in_seq. lia.
  - congruence.
Qed.

Lemma load_invariant_completed w0 fs0 st :
  load_invariant w0 fs0 st → Forall completed_normally (Loading.tasks st).
Proof.
  intros (_ & Hlt & _ & Hinv). apply Forall_lookup. intros j t Ht.
  assert (Hj : j < length fs0) by (rewrite <- Hlt; by eapply lookup_lt_Some).
  destruct (lookup_lt_is_Some_2 fs0 j Hj) as [f0 Hf0].
  destruct (Hinv j f0 Hf0) as (f & t' & _ & Ht' & _ & Hc). congruence.
Qed.

(** X4. Join all, fail none.  For every Layout whose Furniture are distinct
    objects of the store, and for every order in which the fetches settle
    and whatever their outcomes: the promise [loadAssets] returns is never
    rejected; it is fulfilled exactly when every [loadModel] has run to its
    end; each Furniture whose fetch failed (or that has no model URL, or
    whose fetch is still pending) is unchanged, together with its root and
    the placeholder mesh under it; each Furniture whose fetch succeeded has
    the loaded model as its mesh, and the children of its root are those it
    had, without the mesh the Furniture had, followed by the model.  And
    once every fetch has settled, in whatever way, the promise is fulfilled. *)
Theorem best_effort_hydration layout w :
  hydratable w (Layout3D.furniture layout) →
  (∀ st, Loading.run (Loading.loadAssets_start layout w) st →
     (∀ e, Loading.loadAssets_promise st ≠ Loading.Rejected e) ∧
     (Loading.loadAssets_promise st = Loading.Fulfilled
      ↔ Forall settled (Loading.tasks st)) ∧
     (∀ k f0, Layout3D.furniture layout !! k = Some f0 →
        ∃ f t, Loading.furniture st !! k = Some f ∧
               Loading.tasks st !! k = Some t ∧
               task_post w (Loading.world st) f0 f t)) ∧
  (∀ outcomes : nat → FetchOutcome,
     ∃ st, Loading.run (Loading.loadAssets_start layout w) st ∧
           Loading.loadAssets_promise st = Loading.Fulfilled).
Proof.
  intros Hh.
  assert (Hinv : ∀ st, Loading.run (Loading.loadAssets_start layout w) st →
            load_invariant w (Layout3D.furniture layout) st).
  { intros st Hrun. eapply load_invariant_run; [exact Hh|exact Hrun|].
    apply load_invariant_start. }
  split.
  - intros st Hrun. specialize (Hinv st Hrun).
    destruct (Promise_all_tasks _ (load_invariant_completed _ _ _ Hinv)) as [H1 H2].
    split; [exact H1|]. split; [exact H2|].
    intros k f0 Hf0. destruct Hinv as (_ & _ & _ & Hinv).
    destruct (Hinv k f0 Hf0) as (f & t & Hf & Ht & Hpost & _). by exists f, t.
  - intros outcomes.
    set (st0 := Loading.loadAssets_start layout w).
    set (st := Loading.run_schedule
                 (in_order outcomes (length (Loading.tasks st0))) st0).
    assert (Hrun : Loading.run st0 st) by apply run_schedule_run.
    exists st. split; [exact Hrun|].
    apply (Promise_all_tasks _ (load_invariant_completed _ _ _ (Hinv st Hrun))).
    apply in_order_resolves. unfold same_lengths, st0. simpl.
    by rewrite length_map.
Qed.

Lemma hydratableb_hydratable w fs : hydratableb w fs = true → hydratable w fs.
Proof.
  unfold hydratableb. rewrite !andb_true_iff, !forallb_forall.
  intros (((H1 & H2) & H3) & H4). constructor.
  - apply Forall_forall. intros f Hf. apply list_elem_of_In in Hf.
    specialize (H1 f Hf). apply andb_true_iff in H1 as [Ha Hb].
    split; [by apply Nat.ltb_lt|]. by apply bool_decide_eq_true in Hb.
  - apply Forall_forall. intros f Hf. apply list_elem_of_In in Hf.
    by apply Nat.ltb_lt, H2.
  - by apply bool_decide_eq_true in H3.
  - apply Forall_forall. intros f Hf. apply list_elem_of_In in Hf.
    specialize (H4 f Hf). rewrite forallb_forall in H4.
    apply Forall_forall. intros f' Hf'. apply list_elem_of_In in Hf'.
    specialize (H4 f' Hf'). apply negb_true_iff, Nat.eqb_neq in H4. done.
Qed.

Lemma master101_hydratable : hydratable world101 (Layout3D.furniture master101).
Proof. apply hydratableb_hydratable. vm_compute. reflexivity. Qed.

Lemma best_effort_hydration_witness :
  hydratable world101 (Layout3D.furniture master101) ∧
  (∀ st, Loading.run (Loading.loadAssets_start master101 world101) st →
     (∀ e, Loading.loadAssets_promise st ≠ Loading.Rejected e) ∧
     (Loading.loadAssets_promise st = Loading.Fulfilled
      ↔ Forall settled (Loading.tasks st)) ∧
     (∀ k f0, Layout3D.furniture master101 !! k = Some f0 →
        ∃ f t, Loading.furniture st !! k = Some f ∧
               Loading.tasks st !! k = Some t ∧
               task_post world101 (Loading.world st) f0 f t)) ∧
  (∀ outcomes : nat → FetchOutcome,
     ∃ st, Loading.run (Loading.loadAssets_start master101 world101) st ∧
           Loading.loadAssets_promise st = Loading.Fulfilled).
Proof.
  split; [exact master101_hydratable|].
  exact (best_effort_hydration master101 world101 master101_hydratable).
Defined.

(** ** Claims C3 and C10: a session clone that is hydrated itself

    [Furniture.clone] leaves the [mesh] field of the clone at the
    placeholder its constructor made, which is not the copy of the
    placeholder that stands under the cloned root.  When the sofa of a
    session cloned from the unloaded master is loaded, [root.remove(mesh)]
    finds nothing to remove. *)

(** C3, on a session cloned from the master before its assets were loaded,
    the fetch for the sofa then succeeding: [loadAssets] is fulfilled, and
    the root of the sofa holds two children, the copied placeholder (a mesh
    on the shared placeholder geometry) followed by the loaded model. *)
Lemma cloned_placeholder_stays_beside_model :
  match Layout3D.clone 2 master101 world101 with
  | Some (session, w) =>
      let st := Loading.run_schedule [(0, Fetched cube4)]
                  (Loading.loadAssets_start session w) in
      Loading.loadAssets_promise st = Loading.Fulfilled ∧
      match Loading.furniture st !! 0 with
      | Some sofa =>
          match children (obj (Loading.world st) (Furniture.root sofa)) with
          | [placeholder; model] =>
              model = Furniture.mesh sofa ∧
              placeholder ≠ model ∧
              isMesh (obj (Loading.world st) placeholder) = true ∧
              geometry (obj (Loading.world st) placeholder)
                = Furniture_placeholderGeometry (Loading.world st)
          | _ => False
          end
      | None => False
      end
  | None => False
  end.
Proof. vm_compute. repeat split; try reflexivity. discriminate. Qed.

(** C10, on the clone of the unloaded sofa, loaded with an asset that is a
    single point: the model keeps its scale, but the root of the clone holds
    the copied placeholder followed by the model. *)
Lemma cloned_placeholder_stays_beside_point :
  match Furniture.clone 2 sofa0 world_sofa with
  | Some (copy, w) =>
      let r := Loading.loadModel_resume (Fetched point_asset) copy w in
      let this := fst (snd r) in
      let w' := snd (snd r) in
      Loading.maxDim (bounds point_asset) = n0 ∧
      coords (scale (obj w' (Furniture.mesh this))) = (1, 1, 1)%Q ∧
      match children (obj w' (Furniture.root this)) with
      | [placeholder; model] =>
          model = Furniture.mesh this ∧
          placeholder ≠ model ∧
          isMesh (obj w' placeholder) = true ∧
          geometry (obj w' placeholder) = Furniture_placeholderGeometry w'
      | _ => False
      end
  | None => False
  end.
Proof.
  vm_compute. split; [apply Qc_is_canon; reflexivity|].
  repeat split; try reflexivity. discriminate.
Qed.

(** ** Claim C7: descriptions with missing fields *)

Lemma Furniture_fromJSON_hydrated d w :
  Furniture_hydrated d (fst (FurnitureFactory.fromJSON d w)).
Proof.
  unfold FurnitureFactory.fromJSON.
  destruct (Furniture.new _ _ _ w) as [f w1] eqn:Hnew.
  destruct (Furniture_new_spec (fun _ => False) _ _ _ _ _ _ Hnew)
    as (_ & -> & _); [by intros a []|].
  done.
Qed.

Lemma fromJSON_furniture_hydrated items room w :
  ∃ fs', fst (Room.fromJSON_furniture items room w)
           = Room.set_furnitureList (Room.furnitureList room ++ fs') room ∧
         Forall2 Furniture_hydrated items fs'.
Proof.
  revert room w. induction items as [|d items IH]; intros room w; simpl.
  - exists []. rewrite app_nil_r. split; [by destruct room|constructor].
  - pose proof (Furniture_fromJSON_hydrated d w) as Hf.
    destruct (FurnitureFactory.fromJSON d w) as [f w1]. simpl in Hf.
    destruct (IH (Room.set_furnitureList (Room.furnitureList room ++ [f]) room)
                 (Object3D_add (Room.group room) (Furniture.root f) w1))
      as (fs' & Heq & Hfs).
    exists (f :: fs'). split; [|by constructor].
    unfold Room.addFurniture. rewrite Heq. simpl. by rewrite <- app_assoc.
Qed.

Lemma Room_fromJSON_hydrated d w : Room_hydrated d (fst (Room.fromJSON d w)).
Proof.
  unfold Room.fromJSON.
  destruct (Room.new _ _ _ w) as [room w1] eqn:Hnew.
  destruct (Room_new_spec (fun _ => False) _ _ _ _ _ _ Hnew)
    as (_ & Hname & Hwd & Hdp & Hfl & _ & _ & Hdims & _); [by intros a []|].
  assert (Hlen : length (Room.walls room) = 4).
  { rewrite <- (length_map wall_dims), Hdims. reflexivity. }
  unfold Room_hydrated.
  destruct (rd_furniture d) as [items|]; simpl.
  - destruct (fromJSON_furniture_hydrated items room w1) as (fs' & -> & Hfs).
    simpl. rewrite Hfl. by repeat split.
  - rewrite Hfl. by repeat split.
Qed.

Lemma fromJSON_rooms_hydrated items layout w :
  ∃ rs', fst (Layout3D.fromJSON_rooms items layout w)
           = Layout3D.set_rooms (Layout3D.rooms layout ++ rs') layout ∧
         Forall2 Room_hydrated items rs'.
Proof.
  revert layout w. induction items as [|d items IH]; intros layout w; simpl.
  - exists []. rewrite app_nil_r. split; [by destruct layout|constructor].
  - pose proof (Room_fromJSON_hydrated d w) as Hr.
    destruct (Room.fromJSON d w) as [r w1]. simpl in Hr.
    destruct (IH (Layout3D.set_rooms (Layout3D.rooms layout ++ [r]) layout)
                 (Object3D_add (Layout3D.group layout) (Room.group r) w1))
      as (rs' & Heq & Hrs).
    exists (r :: rs'). split; [|by constructor].
    unfold Layout3D.addRoom. rewrite Heq. simpl. by rewrite <- app_assoc.
Qed.

(** The claim as stated fails: hydration of the malformed description
    returns a layout, with the absent fields undefined or defaulted. *)
Lemma malformed_description_accepted :
  Layout_missing_required malformed_data = true ∧
  ∃ layout room sofa,
    fst (Layout3D.fromJSON malformed_data world0) = layout ∧
    Layout3D.id layout = None ∧
    Layout3D.rooms layout = [room] ∧
    Room.name room = None ∧ Room.width room = n20 ∧ Room.depth room = n20 ∧
    Room.furnitureList room = [sofa] ∧
    Furniture.name sofa = Some "Sofa" ∧ Furniture.type sofa = None.
Proof.
  split; [reflexivity|].
  eexists _, _, _. split; [reflexivity|].
  vm_compute. repeat split; reflexivity.
Qed.

(** C7, amended. Hydration validates nothing and raises no error: for
    every description record, whichever of its fields are absent,
    [Layout3D.fromJSON] returns a layout that carries the record's [id] and
    [name] (undefined where absent) and one Room per entry of [rooms]
    (none where absent); each Room carries the entry's name, its width and
    depth or 20 where absent, four walls, and one Furniture per entry of
    [furniture] (none where absent) with the entry's name, type and model
    URL. *)
Theorem fromJSON_accepts_every_record (d : LayoutData) (w : World) :
  Layout_hydrated d (fst (Layout3D.fromJSON d w)).
Proof.
  unfold Layout3D.fromJSON, Layout3D.new, alloc_obj. cbv beta iota zeta.
  set (w0 := update_obj _ _ _).
  set (l0 := match ld_cameraView d with Some _ => _ | None => _ end).
  assert (Hl0 : Layout3D.id l0 = ld_id d ∧ Layout3D.description l0 = ld_name d ∧
                Layout3D.cameraView l0 = ld_cameraView d ∧ Layout3D.rooms l0 = []).
  { unfold l0. by destruct (ld_cameraView d). }
  clearbody l0 w0. destruct Hl0 as (Hid & Hdesc & Hcam & Hrooms).
  unfold Layout_hydrated.
  destruct (ld_rooms d) as [items|]; simpl.
  - destruct (fromJSON_rooms_hydrated items l0 w0) as (rs' & -> & Hrs).
    simpl. rewrite Hrooms. by repeat split.
  - rewrite Hrooms. by repeat split.
Qed.

(** * Further properties of the code *)

(** ** Copies of a subtree *)

Lemma same_make_refl o : same_make o o.
Proof. by repeat split. Qed.

Lemma same_make_trans o1 o2 o3 :
  same_make o1 o2 → same_make o2 o3 → same_make o1 o3.
Proof.
  intros (?&?&?&?&?&?) (?&?&?&?&?&?). repeat split; congruence.
Qed.

Lemma same_make_set_children cs o : same_make o (set_children cs o).
Proof. by repeat split. Qed.

Lemma copy_of_frame keep lo hi n w w1 w2 a a' :
  frame keep w1 w2 → (∀ b, lo ≤ b → b < hi → keep b) →
  copy_of lo hi n w w1 a a' → copy_of lo hi n w w2 a a'.
Proof.
  intros Hf Hk. revert a a'. induction n as [|n IH]; intros a a'; simpl; [done|].
  intros ([H1 H2] & Hs & Hc).
  rewrite (frame_obj _ _ _ _ Hf (Hk _ H1 H2)).
  split; [done|]. split; [done|].
  eapply Forall2_impl; [exact Hc|]. auto.
Qed.

Lemma copy_of_widen lo hi lo' hi' n w w' a a' :
  lo' ≤ lo → hi ≤ hi' → copy_of lo hi n w w' a a' → copy_of lo' hi' n w w' a a'.
Proof.
  intros Hlo Hhi. revert a a'. induction n as [|n IH]; intros a a'; simpl; [done|].
  intros ([H1 H2] & Hs & Hc). split; [lia|]. split; [done|].
  eapply Forall2_impl; [exact Hc|]. auto.
Qed.

Lemma copy_of_mono lo hi n m w w' a a' :
  n ≤ m → copy_of lo hi n w w' a a' → copy_of lo hi m w w' a a'.
Proof.
  revert m a a'. induction n as [|n IH]; intros m a a' Hle; simpl; [done|].
  destruct m as [|m]; [lia|]. simpl.
  intros (Hb & Hs & Hc). split; [done|]. split; [done|].
  eapply Forall2_impl; [exact Hc|]. intros c c'. apply IH. lia.
Qed.

Lemma copy_of_source lo hi k n w0 w w' a a' :
  (∀ b, b < k → obj w b = obj w0 b) → tree k w0 n a →
  copy_of lo hi n w w' a a' → copy_of lo hi n w0 w' a a'.
Proof.
  intros Hobj. revert a a'. induction n as [|n IH]; intros a a'; simpl; [done|].
  intros [Hlt Hch] (Hb & Hs & Hc). rewrite (Hobj _ Hlt) in Hs, Hc.
  split; [done|]. split; [done|].
  assert (HT : Forall (fun _ : addr => True) (children (obj w' a')))
    by (apply Forall_forall; done).
  pose proof (Forall2_with_Forall _ _ _ _ _ Hc Hch HT) as H.
  eapply Forall2_impl; [exact H|]. intros c c' (H1 & H2 & _). by apply IH.
Qed.

Lemma obj_add_eq p c w :
  is_Some (nodes w !! p) →
  obj (Object3D_add p c w) p = set_children (children (obj w p) ++ [c]) (obj w p).
Proof. intros H. unfold Object3D_add. by rewrite obj_update_eq. Qed.

Lemma obj_add_ne p c w b : p ≠ b → obj (Object3D_add p c w) b = obj w b.
Proof. intros H. unfold Object3D_add. by rewrite obj_update_ne. Qed.

Lemma is_Some_frame keep w w' a :
  frame keep w w' → keep a → is_Some (nodes w !! a) → is_Some (nodes w' !! a).
Proof. intros Hf Hk. by rewrite (frame_nodes _ _ _ Hf). Qed.

Lemma is_Some_add p c w a :
  is_Some (nodes w !! a) → is_Some (nodes (Object3D_add p c w) !! a).
Proof.
  intros [o Ho]. unfold Object3D_add, update_obj. simpl.
  destruct (decide (p = a)) as [->|Hne]; lookup_simpl.
  - rewrite Ho. by eexists.
  - by eexists.
Qed.

Lemma next_node_add p c w : next_node (Object3D_add p c w) = next_node w.
Proof. reflexivity. Qed.

(** The children of the object being cloned, one after the other. *)
Lemma clone_children_copy k fuel :
  (∀ a w a' w', SkeletonUtils_clone fuel a w = Some (a', w') →
     tree k w fuel a → k ≤ next_node w →
     copy_of (next_node w) (next_node w') fuel w w' a a') →
  ∀ cs parent w w',
    clone_children (SkeletonUtils_clone fuel) parent cs w = Some w' →
    Forall (tree k w fuel) cs → k ≤ parent → parent < next_node w →
    is_Some (nodes w !! parent) →
    next_node w ≤ next_node w' ∧
    (∀ b, b < next_node w → b ≠ parent → obj w' b = obj w b) ∧
    ∃ cs', obj w' parent = set_children (children (obj w parent) ++ cs') (obj w parent) ∧
           Forall2 (copy_of (next_node w) (next_node w') fuel w w') cs cs'.
Proof.
  intros IHf. induction cs as [|c cs IH]; intros parent w w' Hcl Hts Hk Hp Hsome.
  - simpl in Hcl. injection Hcl as <-. split; [done|]. split; [done|].
    exists []. rewrite app_nil_r. split; [by destruct (obj w parent)|constructor].
  - simpl in Hcl. apply Forall_cons in Hts as [Htc Hts].
    destruct (SkeletonUtils_clone fuel c w) as [[c' w1]|] eqn:Hc; [|done].
    simpl in Hcl.
    assert (Hkw : k ≤ next_node w) by lia.
    pose proof (IHf _ _ _ _ Hc Htc Hkw) as Hcopy.
    destruct (SkeletonUtils_clone_frame (below (next_node w)) _ _ _ _ _ Hc)
      as (Hf1 & Hc'1 & Hc'2); [by apply bounded_below|].
    set (w2 := Object3D_add parent c' w1) in *.
    assert (Hsome1 : is_Some (nodes w1 !! parent))
      by (eapply is_Some_frame; [exact Hf1|exact Hp|done]).
    assert (Hobj2 : ∀ b, b < next_node w → b ≠ parent → obj w2 b = obj w b).
    { intros b Hb Hne. unfold w2. rewrite obj_add_ne by done.
      by apply (frame_obj _ _ _ _ Hf1). }
    assert (Hpar2 : obj w2 parent
              = set_children (children (obj w parent) ++ [c']) (obj w parent)).
    { unfold w2. rewrite obj_add_eq by done.
      by rewrite (frame_obj _ _ _ _ Hf1 Hp). }
    assert (Hts2 : Forall (tree k w2 fuel) cs).
    { eapply Forall_impl; [exact Hts|]. intros b Hb.
      apply (tree_frame (below k) k w1); [|done|].
      - unfold w2. apply frame_Object3D_add. unfold below. lia.
      - apply (tree_frame (below (next_node w)) k w); [done| |done].
        unfold below. intros; lia. }
    destruct (IH parent w2 w' Hcl Hts2 Hk) as (Hn & Hobj & cs' & Hpar & Hcs).
    { unfold w2. rewrite next_node_add. lia. }
    { unfold w2. by apply is_Some_add. }
    assert (Hn2 : next_node w2 = next_node w1) by reflexivity.
    split; [lia|]. split.
    { intros b Hb Hne. rewrite Hobj; [by apply Hobj2|lia|done]. }
    exists (c' :: cs'). split.
    { rewrite Hpar, Hpar2. destruct (obj w parent). simpl.
      by rewrite <- app_assoc. }
    constructor.
    + apply (copy_of_widen (next_node w) (next_node w1)); [done|lia|].
      assert (Hcopy2 : copy_of (next_node w) (next_node w1) fuel w w2 c c').
      { eapply copy_of_frame; [|
          |exact Hcopy].
        - unfold w2. apply (frame_Object3D_add (fun b => next_node w ≤ b)).
          lia.
        - done. }
      clear Hcopy. revert Hcopy2. generalize c c'. clear -Hobj Hn2 Hp.
      induction fuel as [|n IHn]; intros a a'; simpl; [done|].
      intros ([H1 H2] & Hs & Hc). rewrite Hobj by lia.
      split; [done|]. split; [done|].
      eapply Forall2_impl; [exact Hc|]. auto.
    + eapply Forall2_impl; [|intros a a' H; exact H].
      assert (HT : Forall (fun _ : addr => True) cs') by (apply Forall_forall; done).
      pose proof (Forall2_with_Forall _ _ _ _ _ Hcs Hts HT) as H.
      eapply Forall2_impl; [exact H|]. intros a a' (Ha & Hta & _).
      apply (copy_of_widen (next_node w2) (next_node w')); [lia|done|].
      apply (copy_of_source _ _ k _ w w2); [|done|done].
      intros b Hb. apply Hobj2; lia.
Qed.

Lemma SkeletonUtils_clone_step k fuel :
  (∀ a w a' w', SkeletonUtils_clone fuel a w = Some (a', w') →
     tree k w fuel a → k ≤ next_node w →
     copy_of (next_node w) (next_node w') fuel w w' a a') →
  ∀ a w a' w',
    SkeletonUtils_clone (S fuel) a w = Some (a', w') →
    tree k w (S fuel) a → k ≤ next_node w →
    a' = next_node w ∧ next_node w < next_node w' ∧
    (∀ b, b < next_node w → obj w' b = obj w b) ∧
    same_make (obj w a) (obj w' a') ∧
    Forall2 (copy_of (S (next_node w)) (next_node w') fuel w w')
            (children (obj w a)) (children (obj w' a')).
Proof.
  intros IHf a w a' w' Hc Ht Hk.
  simpl in Hc. destruct Ht as [Hlt Hts].
  match type of Hc with context [clone_children _ _ _ ?W] => set (w1 := W) in * end.
  destruct (clone_children _ _ _ w1) as [w2|] eqn:Hcc; [|done].
  simpl in Hc. injection Hc as <- <-.
  assert (Hf1 : frame (below (next_node w)) w w1)
    by (apply (frame_alloc_obj _ (set_children [] (obj w a)) w), bounded_below; done).
  assert (Ho1 : obj w1 (next_node w) = set_children [] (obj w a))
    by apply (obj_alloc_eq (set_children [] (obj w a)) w).
  assert (Hn1 : next_node w1 = S (next_node w)) by reflexivity.
  destruct (clone_children_copy k fuel IHf _ _ _ _ Hcc) as (Hn & Hobj & cs' & Hpar & Hcs).
  - eapply Forall_impl; [exact Hts|]. intros b Hb.
    apply (tree_frame (below (next_node w)) k w); [done| |done].
    unfold below. intros; lia.
  - done.
  - simpl. lia.
  - simpl. rewrite lookup_insert_eq. by eexists.
  - rewrite Ho1 in Hpar. simpl in Hpar.
    split; [done|]. split; [lia|]. split; [|rewrite Hpar; split].
    + intros b Hb. rewrite Hobj; [|lia|lia].
      apply (frame_obj _ _ _ _ Hf1). done.
    + by destruct (obj w a).
    + replace (children (set_children cs' (set_children [] (obj w a)))) with cs'
        by (by destruct (obj w a)).
      assert (HT : Forall (fun _ : addr => True) cs') by (apply Forall_forall; done).
      pose proof (Forall2_with_Forall _ _ _ _ _ Hcs Hts HT) as H.
      eapply Forall2_impl; [exact H|]. intros c c' (Hc & Htc & _).
      rewrite <- Hn1.
      apply (copy_of_source _ _ k _ w w1); [|done|done].
      intros b Hb. apply (frame_obj _ _ _ _ Hf1). unfold below. lia.
Qed.

Lemma SkeletonUtils_clone_copy k fuel : ∀ a w a' w',
  SkeletonUtils_clone fuel a w = Some (a', w') →
  tree k w fuel a → k ≤ next_node w →
  copy_of (next_node w) (next_node w') fuel w w' a a'.
Proof.
  induction fuel as [|fuel IHf]; intros a w a' w' Hc Ht Hk; [done|].
  destruct (SkeletonUtils_clone_step k fuel IHf _ _ _ _ Hc Ht Hk)
    as (-> & Hn & _ & Hs & Hcs).
  split; [lia|]. split; [done|].
  eapply Forall2_impl; [exact Hcs|]. intros c c'. apply copy_of_widen; lia.
Qed.

(** The copy [SkeletonUtils.clone] makes: a new object of the make of the
    source, over copies of the source's children, all at addresses that
    were free before; the objects that existed are left as they were. *)
Lemma SkeletonUtils_clone_spec k fuel a w a' w' :
  SkeletonUtils_clone (S fuel) a w = Some (a', w') →
  tree k w (S fuel) a → k ≤ next_node w →
  a' = next_node w ∧ next_node w < next_node w' ∧
  (∀ b, b < next_node w → obj w' b = obj w b) ∧
  same_make (obj w a) (obj w' a') ∧
  Forall2 (copy_of (S (next_node w)) (next_node w') fuel w w')
          (children (obj w a)) (children (obj w' a')).
Proof.
  apply SkeletonUtils_clone_step. intros. by eapply SkeletonUtils_clone_copy.
Qed.

(** ** Copies of entities *)

Lemma Furniture_copy_frame keep lo hi n w w1 w2 f c :
  frame keep w1 w2 → (∀ b, lo ≤ b → b < hi → keep b) →
  Furniture_copy lo hi n w w1 f c → Furniture_copy lo hi n w w2 f c.
Proof.
  intros Hf Hk ([H1 H2] & Ht & Hc). unfold Furniture_copy in *.
  rewrite (frame_obj _ _ _ _ Hf (Hk _ H1 H2)).
  split; [done|]. split; [done|].
  eapply Forall2_impl; [exact Hc|]. intros a a'. by apply (copy_of_frame keep).
Qed.

Lemma Furniture_copy_widen lo hi lo' hi' n w w' f c :
  lo' ≤ lo → hi ≤ hi' →
  Furniture_copy lo hi n w w' f c → Furniture_copy lo' hi' n w w' f c.
Proof.
  intros Hlo Hhi ([H1 H2] & Ht & Hc). split; [lia|]. split; [done|].
  eapply Forall2_impl; [exact Hc|]. intros a a'. by apply copy_of_widen.
Qed.

Lemma Furniture_copy_source lo hi k n w0 w w' f c :
  (∀ b, b < k → obj w b = obj w0 b) → tree k w0 (S n) (Furniture.root f) →
  Furniture_copy lo hi n w w' f c → Furniture_copy lo hi n w0 w' f c.
Proof.
  intros Hobj [Hlt Hts] (Hb & Ht & Hc). unfold Furniture_copy in *.
  rewrite (Hobj _ Hlt) in Ht, Hc. split; [done|]. split; [done|].
  assert (HT : Forall (fun _ : addr => True) (children (obj w' (Furniture.root c))))
    by (apply Forall_forall; done).
  pose proof (Forall2_with_Forall _ _ _ _ _ Hc Hts HT) as H.
  eapply Forall2_impl; [exact H|]. intros a a' (H1 & H2 & _).
  by apply (copy_of_source _ _ k _ w0 w).
Qed.

Lemma frame_below_obj k w w' :
  frame (below k) w w' → ∀ b, b < k → obj w' b = obj w b.
Proof. intros Hf b Hb. by apply (frame_obj _ _ _ _ Hf). Qed.

Lemma Furniture_clone_copy k n f w c w' :
  Furniture.clone (S n) f w = Some (c, w') →
  tree k w (S n) (Furniture.root f) → k ≤ next_node w →
  Furniture_copy (next_node w) (next_node w') n w w' f c.
Proof.
  intros Hc Ht Hk. unfold Furniture.clone in Hc.
  destruct (Furniture.new _ _ _ w) as [cf w1] eqn:Hnew.
  destruct (Furniture_new_spec (below (next_node w)) _ _ _ _ _ _ Hnew)
    as (Hf1 & -> & Hn1 & _); [by apply bounded_below|].
  assert (Ht1 : tree k w1 (S n) (Furniture.root f)).
  { apply (tree_frame (below (next_node w)) k w); [done| |done].
    unfold below. intros; lia. }
  destruct (SkeletonUtils_clone (S n) (Furniture.root f) w1) as [[a' w2]|] eqn:Hsk;
    [|done].
  cbn [mbind option_bind] in Hc.
  destruct (SkeletonUtils_clone_spec k n _ _ _ _ Hsk Ht1) as (-> & Hn2 & Hobj2 & Hs & Hcs);
    [lia|].
  destruct (SkeletonUtils_clone_node _ _ _ _ _ Hsk) as [_ Hnode].
  set (a' := next_node w1) in *. clearbody a'.
  destruct (generateId w2) as [i w3] eqn:Hid.
  assert (Hw3 : w3 = snd (generateId w2)) by (by rewrite Hid).
  injection Hc as <- <-.
  set (fu := fun o : Object3D => set_userData _ o).
  clear Hid. subst w3.
  assert (Hf3 : frame (fun b => b ≠ a') w2 (update_obj a' fu (snd (generateId w2)))).
  { eapply frame_trans; [apply frame_generateId|].
    apply frame_update_obj. auto. }
  assert (Hroot : obj (update_obj a' fu (snd (generateId w2))) a' = fu (obj w2 a')).
  { rewrite obj_update_eq; [done|].
    simpl. destruct Hnode as (o & Ho & _). by eexists. }
  assert (Hlt : Furniture.root f < k) by (by destruct Ht).
  assert (Hsrc : obj w1 (Furniture.root f) = obj w (Furniture.root f)).
  { apply (frame_obj _ _ _ _ Hf1). unfold below. lia. }
  unfold Furniture_copy. cbn [Furniture.root Furniture.set_root].
  rewrite Hroot. rewrite Hsrc in Hs, Hcs.
  pose proof (frame_next _ _ _ Hf3) as Hn3.
  split; [lia|]. split.
  { destruct Hs as (_ & Hp & Hsc & _). simpl. by rewrite Hp, Hsc. }
  replace (children (fu (obj w2 a'))) with (children (obj w2 a')) by done.
  destruct Ht as [_ Hts].
  assert (HT : Forall (fun _ : addr => True) (children (obj w2 a')))
    by (apply Forall_forall; done).
  pose proof (Forall2_with_Forall _ _ _ _ _ Hcs Hts HT) as H.
  eapply Forall2_impl; [exact H|]. intros b b' (H1 & H2 & _).
  apply (copy_of_widen (S a') (next_node w2)); [lia|lia|].
  apply (copy_of_source _ _ k _ w w1); [|done|].
  { intros x Hx. apply (frame_obj _ _ _ _ Hf1). unfold below. lia. }
  eapply copy_of_frame; [exact Hf3| |exact H1].
  intros x Hx _. simpl. lia.
Qed.

Lemma clone_furniture_copy k n items : ∀ cr w cr' w',
  Room.clone_furniture (S n) items cr w = Some (cr', w') →
  Forall (fun f => tree k w (S n) (Furniture.root f)) items →
  k ≤ Room.group cr → Room.group cr < next_node w →
  ∃ fs', cr' = Room.set_furnitureList (Room.furnitureList cr ++ fs') cr ∧
         Forall2 (Furniture_copy (next_node w) (next_node w') n w w') items fs'.
Proof.
  induction items as [|f items IH]; intros cr w cr' w' Hc Hts Hk Hg.
  - simpl in Hc. injection Hc as <- <-. exists []. rewrite app_nil_r.
    split; [by destruct cr|constructor].
  - simpl in Hc. apply Forall_cons in Hts as [Htf Hts].
    destruct (Furniture.clone (S n) f w) as [[c w1]|] eqn:Hcf; [|done].
    cbn [mbind option_bind] in Hc. unfold Room.addFurniture in Hc.
    set (cr1 := Room.set_furnitureList _ cr) in Hc.
    set (w2 := Object3D_add _ _ w1) in Hc.
    assert (Hkw : k ≤ next_node w) by lia.
    pose proof (Furniture_clone_copy k n _ _ _ _ Hcf Htf Hkw) as Hcopy.
    destruct (Furniture_clone_spec (below (next_node w)) _ _ _ _ _ Hcf)
      as (Hf1 & _); [by apply bounded_below|].
    pose proof (frame_next _ _ _ Hf1) as Hn1.
    assert (Hf2 : frame (fun b => b ≠ Room.group cr) w1 w2)
      by (apply frame_Object3D_add; auto).
    assert (Hobj2 : ∀ b, b < k → obj w2 b = obj w b).
    { intros b Hb. rewrite (frame_obj _ _ _ _ Hf2) by lia.
      apply (frame_obj _ _ _ _ Hf1). unfold below. lia. }
    assert (Hts2 : Forall (fun f => tree k w2 (S n) (Furniture.root f)) items).
    { eapply Forall_impl; [exact Hts|]. intros b Hb.
      apply (tree_frame (fun b => b ≠ Room.group cr) k w1); [done|intros; lia|].
      apply (tree_frame (below (next_node w)) k w); [done| |done].
      unfold below. intros; lia. }
    assert (Hg2 : Room.group cr1 < next_node w2) by (simpl; lia).
    destruct (IH cr1 w2 cr' w' Hc Hts2 Hk Hg2) as (fs' & -> & Hfs).
    destruct (clone_furniture_spec _ _ _ _ _ _ Hc Hg2) as (Hf3 & _).
    pose proof (frame_next _ _ _ Hf3) as Hn3.
    exists (c :: fs'). split.
    { unfold cr1. destruct cr. simpl. by rewrite <- app_assoc. }
    constructor.
    + apply (Furniture_copy_widen (next_node w) (next_node w1)); [done|simpl in *; lia|].
      eapply Furniture_copy_frame; [exact Hf3| |].
      { intros b Hb1 Hb2. unfold below_except. simpl. split; lia. }
      eapply Furniture_copy_frame; [exact Hf2| |exact Hcopy].
      intros b Hb1 Hb2. simpl. lia.
    + assert (HT : Forall (fun _ : Furniture.t => True) fs')
        by (apply Forall_forall; done).
      pose proof (Forall2_with_Forall _ _ _ _ _ Hfs Hts HT) as H.
      eapply Forall2_impl; [exact H|]. intros b b' (H1 & H2 & _).
      apply (Furniture_copy_widen (next_node w2) (next_node w')); [simpl; lia|done|].
      by apply (Furniture_copy_source _ _ k _ w w2).
Qed.

Lemma Forall2_Furniture_copy_transport keep k lo hi lo' hi' n w0 w w1 w2 fs fs' :
  Forall2 (Furniture_copy lo hi n w w1) fs fs' →
  Forall (fun f => tree k w0 (S n) (Furniture.root f)) fs →
  (∀ b, b < k → obj w b = obj w0 b) →
  frame keep w1 w2 → (∀ b, lo ≤ b → b < hi → keep b) →
  lo' ≤ lo → hi ≤ hi' →
  Forall2 (Furniture_copy lo' hi' n w0 w2) fs fs'.
Proof.
  intros Hfs Hts Hobj Hf Hk Hlo Hhi.
  assert (HT : Forall (fun _ : Furniture.t => True) fs') by (apply Forall_forall; done).
  pose proof (Forall2_with_Forall _ _ _ _ _ Hfs Hts HT) as H.
  eapply Forall2_impl; [exact H|]. intros f c (H1 & H2 & _).
  apply (Furniture_copy_widen lo hi); [done|done|].
  apply (Furniture_copy_source _ _ k _ w0 w); [done|done|].
  by apply (Furniture_copy_frame keep _ _ _ _ w1).
Qed.

Lemma Room_clone_copy k n r w r' w' :
  Room.clone (S n) r w = Some (r', w') →
  Forall (fun f => tree k w (S n) (Furniture.root f)) (Room.furnitureList r) →
  k ≤ next_node w →
  Forall2 (Furniture_copy (next_node w) (next_node w') n w w')
          (Room.furnitureList r) (Room.furnitureList r').
Proof.
  intros Hc Hts Hk. unfold Room.clone in Hc.
  destruct (Room.new _ _ _ w) as [cr0 w1] eqn:Hnew.
  destruct (Room_new_spec (below (next_node w)) _ _ _ _ _ _ Hnew)
    as (Hf1 & _ & _ & _ & Hfl & Hg & Hn1 & _); [by apply bounded_below|].
  assert (Hts1 : Forall (fun f => tree k w1 (S n) (Furniture.root f))
                        (Room.furnitureList r)).
  { eapply Forall_impl; [exact Hts|]. intros b Hb.
    apply (tree_frame (below (next_node w)) k w); [done| |done].
    unfold below. intros; lia. }
  destruct (Room.clone_furniture (S n) _ cr0 w1) as [[cr1 w2]|] eqn:Hcf; [|done].
  cbn [mbind option_bind] in Hc.
  destruct (clone_furniture_copy k n _ _ _ _ _ Hcf Hts1) as (fs' & -> & Hfs);
    [lia|lia|].
  destruct (clone_furniture_spec _ _ _ _ _ _ Hcf) as (Hf2 & _); [lia|].
  pose proof (frame_next _ _ _ Hf2) as Hn2.
  cbn [Room.group Room.set_furnitureList] in Hc.
  set (w3 := update_obj (Room.group cr0) _ w2) in Hc.
  destruct (generateId w3) as [i w4] eqn:Hid.
  assert (Hw4 : w4 = snd (generateId w3)) by (by rewrite Hid).
  clear Hid. subst w4. injection Hc as <- <-.
  rewrite Hfl. cbn [Room.furnitureList Room.set_furnitureList app].
  set (g := Room.group cr0) in *.
  eapply (Forall2_Furniture_copy_transport (fun b => b ≠ g));
    [exact Hfs|exact Hts| | | | |].
  - intros b Hb. apply (frame_obj _ _ _ _ Hf1). unfold below. lia.
  - eapply frame_trans; [apply (frame_update_obj _ g); auto|].
    eapply frame_trans; [apply frame_generateId|].
    apply frame_update_obj; auto.
  - intros b Hb _. simpl. lia.
  - lia.
  - simpl. lia.
Qed.

Lemma clone_rooms_copy k n items : ∀ cl w cl' w',
  Layout3D.clone_rooms (S n) items cl w = Some (cl', w') →
  Layout_trees k (S n) w items →
  k ≤ Layout3D.group cl → Layout3D.group cl < next_node w →
  ∃ rs', cl' = Layout3D.set_rooms (Layout3D.rooms cl ++ rs') cl ∧
         Forall2 (fun r r' =>
                    Forall2 (Furniture_copy (next_node w) (next_node w') n w w')
                            (Room.furnitureList r) (Room.furnitureList r'))
                 items rs'.
Proof.
  induction items as [|r items IH]; intros cl w cl' w' Hc Hts Hk Hg.
  - simpl in Hc. injection Hc as <- <-. exists []. rewrite app_nil_r.
    split; [by destruct cl|constructor].
  - simpl in Hc. apply Forall_cons in Hts as [Htr Hts].
    destruct (Room.clone (S n) r w) as [[c w1]|] eqn:Hcr; [|done].
    cbn [mbind option_bind] in Hc. unfold Layout3D.addRoom in Hc.
    set (cl1 := Layout3D.set_rooms _ cl) in Hc.
    set (w2 := Object3D_add _ _ w1) in Hc.
    assert (Hkw : k ≤ next_node w) by lia.
    pose proof (Room_clone_copy k n _ _ _ _ Hcr Htr Hkw) as Hcopy.
    destruct (Room_clone_spec (below (next_node w)) _ _ _ _ _ Hcr)
      as (Hf1 & _); [by apply bounded_below|].
    pose proof (frame_next _ _ _ Hf1) as Hn1.
    assert (Hf2 : frame (fun b => b ≠ Layout3D.group cl) w1 w2)
      by (apply frame_Object3D_add; auto).
    assert (Hobj2 : ∀ b, b < k → obj w2 b = obj w b).
    { intros b Hb. rewrite (frame_obj _ _ _ _ Hf2) by lia.
      apply (frame_obj _ _ _ _ Hf1). unfold below. lia. }
    assert (Hts2 : Layout_trees k (S n) w2 items).
    { apply (Layout_trees_frame (fun b => b ≠ Layout3D.group cl) _ _ w1);
        [done|intros; lia|].
      apply (Layout_trees_frame (below (next_node w)) _ _ w); [done| |done].
      unfold below. intros; lia. }
    assert (Hg2 : Layout3D.group cl1 < next_node w2) by (simpl; lia).
    destruct (IH cl1 w2 cl' w' Hc Hts2 Hk Hg2) as (rs' & -> & Hrs).
    destruct (clone_rooms_spec _ _ _ _ _ _ Hc Hg2) as (Hf3 & _).
    pose proof (frame_next _ _ _ Hf3) as Hn3.
    exists (c :: rs'). split.
    { unfold cl1. destruct cl. simpl. by rewrite <- app_assoc. }
    constructor.
    + eapply (Forall2_Furniture_copy_transport (below_except w2 (Layout3D.group cl1)) k
                (next_node w) (next_node w1) _ _ n w w w1 w');
        [exact Hcopy|exact Htr|done| | |done|simpl in *; lia].
      * eapply frame_trans; [|exact Hf3].
        eapply frame_weaken; [|exact Hf2].
        intros b [_ Hb]. exact Hb.
      * intros b Hb1 Hb2. unfold below_except. simpl. split; lia.
    + assert (HT : Forall (fun _ : Room.t => True) rs') by (apply Forall_forall; done).
      pose proof (Forall2_with_Forall _ _ _ _ _ Hrs Hts HT) as H.
      eapply Forall2_impl; [exact H|]. intros b b' (H1 & H2 & _).
      eapply (Forall2_Furniture_copy_transport (fun _ => True) k
                (next_node w2) (next_node w') _ _ n w w2 w' w');
        [exact H1|exact H2|done|apply frame_refl|done|simpl; lia|done].
Qed.

Lemma Layout3D_clone_copy k n l w l' w' :
  Layout3D.clone (S n) l w = Some (l', w') →
  Layout_trees k (S n) w (Layout3D.rooms l) → k ≤ next_node w →
  Layout_copy (next_node w) (next_node w') n w w' l l'.
Proof.
  unfold Layout3D.clone, Layout3D.new, alloc_obj. cbv beta iota zeta.
  intros Hc Hts Hk.
  set (w1 := update_obj (next_node w) _ _) in Hc.
  set (cl0 := match Layout3D.cameraView l with Some _ => _ | None => _ end) in Hc.
  assert (Hcl0 : Layout3D.rooms cl0 = [] ∧ Layout3D.group cl0 = next_node w)
    by (unfold cl0; by destruct (Layout3D.cameraView l)).
  clearbody cl0. destruct Hcl0 as [Hr0 Hg0].
  assert (Hf1 : frame (below (next_node w)) w w1).
  { constructor; unfold slot_kept; simpl; auto. intros a Ha. unfold below in Ha.
    rewrite lookup_alter_ne, lookup_insert_ne by lia. done. }
  assert (Hn1 : next_node w1 = S (next_node w)) by reflexivity.
  assert (Hts1 : Layout_trees k (S n) w1 (Layout3D.rooms l)).
  { apply (Layout_trees_frame (below (next_node w)) _ _ w); [done| |done].
    unfold below. intros; lia. }
  destruct (Layout3D.clone_rooms (S n) _ cl0 w1) as [[cl1 w2]|] eqn:Hcr; [|done].
  cbn [mbind option_bind] in Hc. injection Hc as <- <-.
  destruct (clone_rooms_copy k n _ _ _ _ _ Hcr Hts1) as (rs' & -> & Hrs); [lia|lia|].
  destruct (clone_rooms_spec _ _ _ _ _ _ Hcr) as (Hf2 & _); [lia|].
  pose proof (frame_next _ _ _ Hf2) as Hn2.
  unfold Layout_copy. rewrite Hr0.
  cbn [Layout3D.rooms Layout3D.set_rooms Layout3D.group app].
  assert (HT : Forall (fun _ : Room.t => True) rs') by (apply Forall_forall; done).
  pose proof (Forall2_with_Forall _ _ _ _ _ Hrs Hts HT) as H.
  eapply Forall2_impl; [exact H|]. intros b b' (H1 & H2 & _).
  eapply (Forall2_Furniture_copy_transport (fun b => b ≠ Layout3D.group cl0) k
            (next_node w1) (next_node w2) _ _ n w w1 w2);
    [exact H1|exact H2| | | |lia|simpl; lia].
  - intros x Hx. apply (frame_obj _ _ _ _ Hf1). unfold below. lia.
  - apply frame_update_obj; auto.
  - intros x Hx _. simpl. lia.
Qed.

(** ** Buffers created by hydration and by cloning *)

Lemma thrifty_refl w : thrifty w w.
Proof. by split. Qed.

Lemma thrifty_trans w1 w2 w3 : thrifty w1 w2 → thrifty w2 w3 → thrifty w1 w3.
Proof. intros [] []. split; lia. Qed.

Lemma same_pool_thrifty w w' : same_pool w w' → thrifty w w'.
Proof.
  intros (H1 & H2 & H3 & H4 & H5). unfold thrifty, empty_slots.
  rewrite H1, H2, H3, H4, H5. lia.
Qed.

Lemma same_pool_update_obj a f w : same_pool w (update_obj a f w).
Proof. by repeat split. Qed.

Lemma same_pool_alloc_obj o w : same_pool w (snd (alloc_obj o w)).
Proof. by repeat split. Qed.

Lemma same_pool_generateId w : same_pool w (snd (generateId w)).
Proof. by repeat split. Qed.

Lemma thrifty_update_obj a f w : thrifty w (update_obj a f w).
Proof. apply same_pool_thrifty, same_pool_update_obj. Qed.

Lemma thrifty_add p c w : thrifty w (Object3D_add p c w).
Proof. apply thrifty_update_obj. Qed.

Lemma thrifty_remove p c w : thrifty w (Object3D_remove p c w).
Proof. apply thrifty_update_obj. Qed.

Lemma thrifty_Wall_new width height depth w :
  thrifty w (snd (Wall.new width height depth w)).
Proof.
  unfold Wall.new, ensure, thrifty, empty_slots.
  destruct (Wall_geometry w) eqn:Hg, (Wall_material w) eqn:Hm; simpl;
    rewrite ?Hg, ?Hm; simpl; lia.
Qed.

Lemma thrifty_Furniture_new name type url w :
  thrifty w (snd (Furniture.new name type url w)).
Proof.
  unfold Furniture.new, ensure, thrifty, empty_slots.
  destruct (Furniture_placeholderGeometry w) eqn:Hg,
           (Furniture_placeholderMaterial w) eqn:Hm; simpl;
    rewrite ?Hg, ?Hm; simpl; lia.
Qed.

Lemma thrifty_clone_children (rec : addr → World → option (addr * World)) :
  (∀ c w c' w', rec c w = Some (c', w') → thrifty w w') →
  ∀ cs parent w w', clone_children rec parent cs w = Some w' → thrifty w w'.
Proof.
  intros Hrec. induction cs as [|c cs IH]; intros parent w w' Hc; simpl in Hc.
  - injection Hc as <-. apply thrifty_refl.
  - destruct (rec c w) as [[c' w1]|] eqn:Hr; [|done]. simpl in Hc.
    eapply thrifty_trans; [by eapply Hrec|].
    eapply thrifty_trans; [apply thrifty_add|]. by eapply IH.
Qed.

Lemma thrifty_SkeletonUtils_clone fuel : ∀ a w a' w',
  SkeletonUtils_clone fuel a w = Some (a', w') → thrifty w w'.
Proof.
  induction fuel as [|fuel IH]; intros a w a' w' Hc; [done|].
  simpl in Hc.
  match type of Hc with context [clone_children _ _ _ ?W] => set (w1 := W) in * end.
  destruct (clone_children _ _ _ w1) as [w2|] eqn:Hcc; [|done].
  simpl in Hc. injection Hc as <- <-.
  eapply thrifty_trans; [|eapply thrifty_clone_children; [exact IH|exact Hcc]].
  apply (same_pool_thrifty w w1). by repeat split.
Qed.

Lemma thrifty_Furniture_clone fuel f w c w' :
  Furniture.clone fuel f w = Some (c, w') → thrifty w w'.
Proof.
  unfold Furniture.clone. intros Hc.
  pose proof (thrifty_Furniture_new (Furniture.name f) (Furniture.type f)
                (Furniture.modelUrl f) w) as H1.
  destruct (Furniture.new _ _ _ w) as [cf w1]. simpl in H1.
  destruct (SkeletonUtils_clone fuel _ w1) as [[a' w2]|] eqn:Hsk; [|done].
  simpl in Hc. injection Hc as <- <-.
  eapply thrifty_trans; [exact H1|].
  eapply thrifty_trans; [by eapply thrifty_SkeletonUtils_clone|].
  apply same_pool_thrifty. by repeat split.
Qed.

Lemma thrifty_wall_block width height depth x y z rw :
  thrifty (snd rw) (snd (wall_block width height depth x y z rw)).
Proof.
  unfold wall_block.
  pose proof (thrifty_Wall_new width height depth (snd rw)) as H1.
  destruct (Wall.new _ _ _ (snd rw)) as [wl w1]. simpl in *.
  eapply thrifty_trans; [exact H1|].
  eapply thrifty_trans; [apply thrifty_update_obj|]. apply thrifty_add.
Qed.

Lemma thrifty_foldl_remove g (ws : list Wall.t) w :
  thrifty w (foldl (fun w wl => Object3D_remove g (Wall.mesh wl) w) w ws).
Proof.
  revert w. induction ws as [|wl ws IH]; intros w; simpl; [apply thrifty_refl|].
  eapply thrifty_trans; [apply thrifty_remove|]. apply IH.
Qed.

Lemma thrifty_generateWalls this w : thrifty w (snd (Room.generateWalls this w)).
Proof.
  rewrite generateWalls_blocks.
  eapply thrifty_trans; [|apply thrifty_wall_block].
  eapply thrifty_trans; [|apply thrifty_wall_block].
  eapply thrifty_trans; [|apply thrifty_wall_block].
  eapply thrifty_trans; [|apply thrifty_wall_block].
  apply thrifty_foldl_remove.
Qed.

Lemma thrifty_Room_new name wd dp w : thrifty w (snd (Room.new name wd dp w)).
Proof.
  unfold Room.new, alloc_obj, generateId. cbv beta iota zeta.
  eapply thrifty_trans; [|apply thrifty_generateWalls].
  apply same_pool_thrifty. by repeat split.
Qed.

Lemma thrifty_clone_furniture fuel items : ∀ cr w cr' w',
  Room.clone_furniture fuel items cr w = Some (cr', w') → thrifty w w'.
Proof.
  induction items as [|f items IH]; intros cr w cr' w' Hc; simpl in Hc.
  - injection Hc as <- <-. apply thrifty_refl.
  - destruct (Furniture.clone fuel f w) as [[c w1]|] eqn:Hcf; [|done].
    simpl in Hc.
    eapply thrifty_trans; [by eapply thrifty_Furniture_clone|].
    eapply thrifty_trans; [apply thrifty_add|]. by eapply IH.
Qed.

Lemma thrifty_Room_clone fuel r w r' w' :
  Room.clone fuel r w = Some (r', w') → thrifty w w'.
Proof.
  unfold Room.clone. intros Hc.
  pose proof (thrifty_Room_new (Room.name r) (Some (Room.width r))
                (Some (Room.depth r)) w) as H1.
  destruct (Room.new _ _ _ w) as [cr0 w1]. simpl in H1.
  destruct (Room.clone_furniture fuel _ cr0 w1) as [[cr1 w2]|] eqn:Hcf; [|done].
  simpl in Hc. injection Hc as <- <-.
  eapply thrifty_trans; [exact H1|].
  eapply thrifty_trans; [by eapply thrifty_clone_furniture|].
  apply same_pool_thrifty. by repeat split.
Qed.

Lemma thrifty_clone_rooms fuel items : ∀ cl w cl' w',
  Layout3D.clone_rooms fuel items cl w = Some (cl', w') → thrifty w w'.
Proof.
  induction items as [|r items IH]; intros cl w cl' w' Hc; simpl in Hc.
  - injection Hc as <- <-. apply thrifty_refl.
  - destruct (Room.clone fuel r w) as [[c w1]|] eqn:Hcr; [|done].
    simpl in Hc.
    eapply thrifty_trans; [by eapply thrifty_Room_clone|].
    eapply thrifty_trans; [apply thrifty_add|]. by eapply IH.
Qed.

Lemma thrifty_Layout3D_clone fuel l w l' w' :
  Layout3D.clone fuel l w = Some (l', w') → thrifty w w'.
Proof.
  unfold Layout3D.clone, Layout3D.new, alloc_obj. cbv beta iota zeta.
  intros Hc.
  set (w1 := update_obj (next_node w) _ _) in Hc.
  destruct (Layout3D.clone_rooms fuel _ _ w1) as [[cl1 w2]|] eqn:Hcr; [|done].
  simpl in Hc. injection Hc as <- <-.
  eapply thrifty_trans; [apply (same_pool_thrifty w w1); by repeat split|].
  eapply thrifty_trans; [by eapply thrifty_clone_rooms|].
  apply thrifty_update_obj.
Qed.

Lemma thrifty_Furniture_fromJSON d w :
  thrifty w (snd (FurnitureFactory.fromJSON d w)).
Proof.
  unfold FurnitureFactory.fromJSON.
  pose proof (thrifty_Furniture_new (fd_name d) (fd_type d) (fd_modelUrl d) w) as H1.
  destruct (Furniture.new _ _ _ w) as [f w1]. simpl in *.
  eapply thrifty_trans; [exact H1|].
  apply same_pool_thrifty.
  destruct (fd_position d), (fd_rotation d), (fd_scale d); by repeat split.
Qed.

Lemma thrifty_fromJSON_furniture items : ∀ room w,
  thrifty w (snd (Room.fromJSON_furniture items room w)).
Proof.
  induction items as [|d items IH]; intros room w; simpl; [apply thrifty_refl|].
  pose proof (thrifty_Furniture_fromJSON d w) as H1.
  destruct (FurnitureFactory.fromJSON d w) as [f w1]. simpl in *.
  eapply thrifty_trans; [exact H1|].
  eapply thrifty_trans; [apply thrifty_add|]. apply IH.
Qed.

Lemma thrifty_Room_fromJSON d w : thrifty w (snd (Room.fromJSON d w)).
Proof.
  unfold Room.fromJSON.
  pose proof (thrifty_Room_new (rd_name d) (rd_width d) (rd_depth d) w) as H1.
  destruct (Room.new _ _ _ w) as [room w1]. simpl in *.
  destruct (rd_furniture d) as [items|]; [|done].
  eapply thrifty_trans; [exact H1|]. apply thrifty_fromJSON_furniture.
Qed.

Lemma thrifty_fromJSON_rooms items : ∀ layout w,
  thrifty w (snd (Layout3D.fromJSON_rooms items layout w)).
Proof.
  induction items as [|d items IH]; intros layout w; simpl; [apply thrifty_refl|].
  pose proof (thrifty_Room_fromJSON d w) as H1.
  destruct (Room.fromJSON d w) as [r w1]. simpl in *.
  eapply thrifty_trans; [exact H1|].
  eapply thrifty_trans; [apply thrifty_add|]. apply IH.
Qed.

Lemma thrifty_Layout3D_fromJSON d w : thrifty w (snd (Layout3D.fromJSON d w)).
Proof.
  unfold Layout3D.fromJSON, Layout3D.new, alloc_obj. cbv beta iota zeta.
  set (w1 := update_obj (next_node w) _ _).
  assert (H1 : thrifty w w1) by (apply same_pool_thrifty; by repeat split).
  destruct (ld_rooms d) as [items|]; [|done].
  eapply thrifty_trans; [exact H1|]. apply thrifty_fromJSON_rooms.
Qed.

Lemma empty_slots_le w : empty_slots w ≤ 4.
Proof.
  unfold empty_slots, unset.
  destruct (Wall_geometry w), (Wall_material w),
    (Furniture_placeholderGeometry w), (Furniture_placeholderMaterial w); lia.
Qed.

(** X3. Hydrating a description, however many rooms and Furniture it lists,
    creates at most four geometry or material buffers, and only to fill
    class-wide slots that were still empty: every wall and every placeholder
    is built on the shared ones. *)
Theorem hydration_allocates_shared_buffers_only (d : LayoutData) (w : World) :
  let w' := snd (Layout3D.fromJSON d w) in
  next_resource w ≤ next_resource w' ∧
  next_resource w' - next_resource w = empty_slots w - empty_slots w' ∧
  next_resource w' ≤ next_resource w + 4.
Proof.
  intros w'. destruct (thrifty_Layout3D_fromJSON d w) as [H1 H2]. fold w' in H1, H2.
  pose proof (empty_slots_le w). repeat split; lia.
Qed.

(** X11. Cloning a layout in a world where the four class-wide buffers exist
    creates no geometry and no material: the clone is built on the buffers
    of its source and on the shared ones. *)
Theorem clone_allocates_no_buffer fuel l w l' w' :
  Layout3D.clone fuel l w = Some (l', w') →
  empty_slots w = 0 →
  next_resource w' = next_resource w.
Proof.
  intros Hc He. destruct (thrifty_Layout3D_clone _ _ _ _ _ Hc) as [H1 H2]. lia.
Qed.

(** ** The scene graph mirrors the entity lists *)

Lemma is_Some_update a f w b :
  is_Some (nodes w !! b) → is_Some (nodes (update_obj a f w) !! b).
Proof.
  intros [o Ho]. unfold update_obj. simpl.
  destruct (decide (a = b)) as [->|Hne]; lookup_simpl.
  - rewrite Ho. by eexists.
  - by eexists.
Qed.

Lemma wall_block_group width height depth x y z (r : Room.t) w r' w' :
  wall_block width height depth x y z (r, w) = (r', w') →
  Room.group r < next_node w → is_Some (nodes w !! Room.group r) →
  obj w' (Room.group r)
    = set_children (children (obj w (Room.group r)) ++ [next_node w])
                   (obj w (Room.group r)) ∧
  is_Some (nodes w' !! Room.group r) ∧
  position (obj w' (next_node w)) = mkV x y z.
Proof.
  unfold wall_block. cbn [fst snd].
  destruct (Wall.new width height depth w) as [wl w1] eqn:Hnew.
  intros Hadd Hlt Hsome.
  destruct (Wall_new_spec (fun a => a = Room.group r) _ _ _ _ _ _ Hnew)
    as (Hf1 & -> & Hn1 & _ & _ & Hnode); [by intros a ->|].
  unfold Room.addWall, Wall.setPosition in Hadd. cbn [Wall.mesh] in Hadd.
  injection Hadd as <- <-.
  set (m := next_node w) in *.
  assert (Hne : Room.group r ≠ m) by lia.
  assert (Hs1 : is_Some (nodes w1 !! Room.group r))
    by (by eapply is_Some_frame).
  split; [|split].
  - rewrite obj_add_eq by (by apply is_Some_update).
    rewrite obj_update_ne by done.
    by rewrite (frame_obj _ _ _ _ Hf1).
  - by apply is_Some_add, is_Some_update.
  - rewrite obj_add_ne by done.
    rewrite obj_update_eq; [done|].
    destruct Hnode as (o & Ho & _). by eexists.
Qed.

(** The room the constructor builds, object by object. *)
Lemma Room_new_walls name wd dp w r w' :
  Room.new name wd dp w = (r, w') →
  let g := next_node w in
  let W := default n20 wd in
  let D := default n20 dp in
  r = Room.mk name W D []
        [ Wall.mk W Room.h Room.t_ (1 + g); Wall.mk W Room.h Room.t_ (2 + g);
          Wall.mk Room.t_ Room.h D (3 + g); Wall.mk Room.t_ Room.h D (4 + g) ] g ∧
  next_node w' = 5 + g ∧
  is_Some (nodes w' !! g) ∧
  children (obj w' g) = [1 + g; 2 + g; 3 + g; 4 + g] ∧
  map (fun a => position (obj w' a)) [1 + g; 2 + g; 3 + g; 4 + g]
    = room_wall_positions W D ∧
  obj w' g = mkObj false Vector3_zero Vector3_zero Vector3_one
               (mkUD (Some (random w (drawn w))) (Some "Room") name None)
               [1 + g; 2 + g; 3 + g; 4 + g] None None.
Proof.
  intros Hnew g W D.
  unfold Room.new, alloc_obj, generateId in Hnew. cbv beta iota zeta in Hnew.
  fold g W D in Hnew.
  rewrite generateWalls_blocks in Hnew.
  cbn [Room.walls Room.width Room.depth Room.group Room.set_walls foldl] in Hnew.
  set (r0 := Room.mk name W D [] [] g) in Hnew.
  set (w0 := update_obj g _ _) in Hnew.
  assert (Hn0 : next_node w0 = 1 + g) by reflexivity.
  assert (Hs0 : is_Some (nodes w0 !! g)).
  { unfold w0. simpl. lookup_simpl. by eexists. }
  assert (Ho0 : obj w0 g = mkObj false Vector3_zero Vector3_zero Vector3_one
                 (mkUD (Some (random w (drawn w))) (Some "Room") name None)
                 [] None None).
  { unfold obj, w0. simpl. lookup_simpl. reflexivity. }
  assert (Hc0 : children (obj w0 g) = []) by (by rewrite Ho0).
  clearbody w0.
  change (Room.set_walls [] r0) with r0 in Hnew.
  assert (Hg0 : Room.group r0 = g) by reflexivity.
  assert (Hw0 : Room.walls r0 = []) by reflexivity.
  assert (Hr0 : r0 = Room.mk name W D [] [] g) by reflexivity.
  clearbody r0.
  destruct (wall_block W Room.h Room.t_ n0 (Qcdiv Room.h n2) (Qcdiv (Qcopp D) n2)
              (r0, w0)) as [r1 w1] eqn:H1.
  destruct (wall_block W Room.h Room.t_ n0 (Qcdiv Room.h n2) (Qcdiv D n2)
              (r1, w1)) as [r2 w2] eqn:H2.
  destruct (wall_block Room.t_ Room.h D (Qcdiv (Qcopp W) n2) (Qcdiv Room.h n2) n0
              (r2, w2)) as [r3 w3] eqn:H3.
  destruct (wall_block_spec _ _ _ _ _ _ _ _ _ _ H1) as (F1 & -> & N1 & _);
    [rewrite Hg0; lia|].
  destruct (wall_block_group _ _ _ _ _ _ _ _ _ _ H1) as (G1 & S1 & P1);
    [rewrite Hg0; lia|by rewrite Hg0|].
  rewrite Hg0, Hw0 in *. cbn [app] in *.
  destruct (wall_block_spec _ _ _ _ _ _ _ _ _ _ H2) as (F2 & -> & N2 & _);
    [cbn [Room.group Room.set_walls]; rewrite Hg0; lia|].
  destruct (wall_block_group _ _ _ _ _ _ _ _ _ _ H2) as (G2 & S2 & P2);
    [cbn [Room.group Room.set_walls]; rewrite Hg0; lia
    |cbn [Room.group Room.set_walls]; by rewrite Hg0|].
  cbn [Room.group Room.set_walls Room.walls app] in *. rewrite Hg0 in *.
  destruct (wall_block_spec _ _ _ _ _ _ _ _ _ _ H3) as (F3 & -> & N3 & _);
    [cbn [Room.group Room.set_walls]; rewrite Hg0; lia|].
  destruct (wall_block_group _ _ _ _ _ _ _ _ _ _ H3) as (G3 & S3 & P3);
    [cbn [Room.group Room.set_walls]; rewrite Hg0; lia
    |cbn [Room.group Room.set_walls]; by rewrite Hg0|].
  cbn [Room.group Room.set_walls Room.walls app] in *. rewrite Hg0 in *.
  destruct (wall_block_spec _ _ _ _ _ _ _ _ _ _ Hnew) as (F4 & -> & N4 & _);
    [cbn [Room.group Room.set_walls]; rewrite Hg0; lia|].
  destruct (wall_block_group _ _ _ _ _ _ _ _ _ _ Hnew) as (G4 & S4 & P4);
    [cbn [Room.group Room.set_walls]; rewrite Hg0; lia
    |cbn [Room.group Room.set_walls]; by rewrite Hg0|].
  cbn [Room.group Room.set_walls Room.walls app] in *. rewrite Hg0 in *.
  rewrite Hn0 in *. rewrite N1 in *. rewrite N2 in *. rewrite N3 in *.
  cbn [Nat.add] in *.
  split; [rewrite Hr0; reflexivity|]. split; [lia|]. split; [done|].
  split; [|split].
  - rewrite G4, G3, G2, G1, Hc0. by destruct (obj w0 g).
  - unfold room_wall_positions. cbn [map].
    rewrite P4.
    rewrite (frame_obj _ _ _ (S (S (S g))) F4) by (unfold below_except; lia).
    rewrite P3.
    rewrite (frame_obj _ _ _ (S (S g)) F4) by (unfold below_except; lia).
    rewrite (frame_obj _ _ _ (S (S g)) F3) by (unfold below_except; lia).
    rewrite P2.
    rewrite (frame_obj _ _ _ (S g) F4) by (unfold below_except; lia).
    rewrite (frame_obj _ _ _ (S g) F3) by (unfold below_except; lia).
    rewrite (frame_obj _ _ _ (S g) F2) by (unfold below_except; lia).
    rewrite P1. reflexivity.
  - rewrite G4, G3, G2, G1, Ho0. reflexivity.
Qed.

Lemma Room_mirrored_frame keep w w' r :
  frame keep w w' → keep (Room.group r) → Room_mirrored w r → Room_mirrored w' r.
Proof. intros Hf Hk. unfold Room_mirrored. by rewrite (frame_obj _ _ _ _ Hf Hk). Qed.

Lemma children_add_eq p c w :
  is_Some (nodes w !! p) →
  children (obj (Object3D_add p c w) p) = children (obj w p) ++ [c].
Proof. intros H. rewrite obj_add_eq by done. by destruct (obj w p). Qed.

Lemma fromJSON_furniture_group items : ∀ room w room' w',
  Room.fromJSON_furniture items room w = (room', w') →
  Room.group room < next_node w → is_Some (nodes w !! Room.group room) →
  next_node w ≤ next_node w' ∧ is_Some (nodes w' !! Room.group room) ∧
  ∃ fs', room' = Room.set_furnitureList (Room.furnitureList room ++ fs') room ∧
         children (obj w' (Room.group room))
           = children (obj w (Room.group room)) ++ map Furniture.root fs'.
Proof.
  induction items as [|d items IH]; intros room w room' w' Hj Hg Hs; simpl in Hj.
  - injection Hj as <- <-. split; [done|]. split; [done|].
    exists []. rewrite !app_nil_r. split; [by destruct room|done].
  - destruct (FurnitureFactory.fromJSON d w) as [f w1] eqn:Hf.
    unfold Room.addFurniture in Hj.
    destruct (Furniture_fromJSON_spec (below (next_node w)) _ _ _ _ Hf)
      as (Hf1 & _); [by apply bounded_below|].
    pose proof (frame_next _ _ _ Hf1) as Hn1.
    assert (Hs1 : is_Some (nodes w1 !! Room.group room))
      by (by eapply is_Some_frame).
    set (room1 := Room.set_furnitureList _ room) in Hj.
    set (w2 := Object3D_add _ _ w1) in Hj.
    destruct (IH room1 w2 room' w' Hj) as (Hn & Hs' & fs' & -> & Hch).
    { simpl. lia. }
    { by apply is_Some_add. }
    split; [simpl in Hn; lia|]. split; [done|].
    exists (f :: fs'). split.
    { unfold room1. destruct room. simpl. by rewrite <- app_assoc. }
    cbn [Room.group room1 Room.set_furnitureList] in Hch. rewrite Hch.
    unfold w2. rewrite children_add_eq by done.
    rewrite (frame_obj _ _ _ _ Hf1) by done. simpl. by rewrite <- app_assoc.
Qed.

Lemma Room_fromJSON_mirrored d w r w' :
  Room.fromJSON d w = (r, w') → Room_mirrored w' r.
Proof.
  unfold Room.fromJSON. intros Hj.
  destruct (Room.new _ _ _ w) as [r0 w1] eqn:Hnew.
  destruct (Room_new_walls _ _ _ _ _ _ Hnew) as (Hr0 & Hn1 & Hs1 & Hc1 & _ & _).
  assert (Hg0 : Room.group r0 = next_node w) by (by rewrite Hr0).
  assert (Hm0 : Room_mirrored w1 r0).
  { unfold Room_mirrored. rewrite Hg0, Hc1, Hr0. reflexivity. }
  destruct (rd_furniture d) as [items|]; [|by injection Hj as <- <-].
  destruct (fromJSON_furniture_group _ _ _ _ _ Hj) as (_ & _ & fs' & -> & Hch).
  { rewrite Hg0. lia. }
  { by rewrite Hg0. }
  unfold Room_mirrored in *. cbn [Room.group Room.walls Room.furnitureList
    Room.set_furnitureList]. rewrite Hch, Hm0, map_app, app_assoc. done.
Qed.

Lemma fromJSON_rooms_group items : ∀ layout w layout' w',
  Layout3D.fromJSON_rooms items layout w = (layout', w') →
  Layout3D.group layout < next_node w → is_Some (nodes w !! Layout3D.group layout) →
  ∃ rs', layout' = Layout3D.set_rooms (Layout3D.rooms layout ++ rs') layout ∧
         children (obj w' (Layout3D.group layout))
           = children (obj w (Layout3D.group layout)) ++ map Room.group rs' ∧
         Forall (Room_mirrored w') rs'.
Proof.
  induction items as [|d items IH]; intros layout w layout' w' Hj Hg Hs; simpl in Hj.
  - injection Hj as <- <-.
    exists []. rewrite !app_nil_r. split; [by destruct layout|done].
  - destruct (Room.fromJSON d w) as [r w1] eqn:Hr.
    unfold Layout3D.addRoom in Hj.
    destruct (Room_fromJSON_spec (below (next_node w)) _ _ _ _ Hr)
      as (Hf1 & Hgr & Hn1 & _); [by apply bounded_below|].
    pose proof (Room_fromJSON_mirrored _ _ _ _ Hr) as Hm.
    assert (Hs1 : is_Some (nodes w1 !! Layout3D.group layout))
      by (by eapply is_Some_frame).
    set (layout1 := Layout3D.set_rooms _ layout) in Hj.
    set (w2 := Object3D_add _ _ w1) in Hj.
    assert (Hg2 : Layout3D.group layout1 < next_node w2) by (simpl; lia).
    destruct (IH layout1 w2 layout' w' Hj Hg2) as (rs' & -> & Hch & Hms).
    { by apply is_Some_add. }
    destruct (fromJSON_rooms_spec (next_node w2) _ _ _ _ _ Hj Hg2 (le_n _))
      as (Hf3 & _).
    exists (r :: rs'). split.
    { unfold layout1. destruct layout. simpl. by rewrite <- app_assoc. }
    split.
    { cbn [Layout3D.group layout1 Layout3D.set_rooms] in Hch. rewrite Hch.
      unfold w2. rewrite children_add_eq by done.
      rewrite (frame_obj _ _ _ _ Hf1) by done. simpl. by rewrite <- app_assoc. }
    constructor; [|done].
    eapply Room_mirrored_frame; [exact Hf3| |].
    { unfold below_except. simpl. lia. }
    unfold Room_mirrored, w2. rewrite obj_add_ne by lia. exact Hm.
Qed.

(** X2. After hydration the scene graph mirrors the entity lists: the
    layout's group holds the room groups in order, each room group holds the
    meshes of its four walls followed by the roots of its Furniture in
    order, and each Furniture root holds the one placeholder mesh of the
    Furniture. *)
Theorem hydrated_scene_mirrors_entities (d : LayoutData) (w : World) :
  let l := fst (Layout3D.fromJSON d w) in
  let w' := snd (Layout3D.fromJSON d w) in
  Layout_mirrored w' l ∧
  Forall (fun f => children (obj w' (Furniture.root f)) = [Furniture.mesh f] ∧
                   children (obj w' (Furniture.mesh f)) = [])
         (Layout3D.furniture l).
Proof.
  intros l w'. split.
  - unfold l, w', Layout3D.fromJSON, Layout3D.new, alloc_obj.
    cbv beta iota zeta.
    set (w1 := update_obj (next_node w) _ _).
    set (l0 := match ld_cameraView d with Some _ => _ | None => _ end).
    assert (Hl0 : Layout3D.rooms l0 = [] ∧ Layout3D.group l0 = next_node w)
      by (unfold l0; by destruct (ld_cameraView d)).
    clearbody l0. destruct Hl0 as [Hr0 Hg0].
    assert (Hs1 : is_Some (nodes w1 !! next_node w)).
    { unfold w1. simpl. lookup_simpl. by eexists. }
    assert (Hc1 : children (obj w1 (next_node w)) = []).
    { unfold obj, w1. simpl. lookup_simpl. reflexivity. }
    assert (Hn1 : next_node w1 = S (next_node w)) by reflexivity.
    clearbody w1.
    destruct (ld_rooms d) as [items|].
    + destruct (Layout3D.fromJSON_rooms items l0 w1) as [l1 w2] eqn:Hj.
      destruct (fromJSON_rooms_group _ _ _ _ _ Hj) as (rs' & -> & Hch & Hms).
      { rewrite Hg0. lia. }
      { by rewrite Hg0. }
      unfold Layout_mirrored. cbn [fst snd Layout3D.group Layout3D.rooms
        Layout3D.set_rooms]. rewrite Hr0, Hch, Hg0, Hc1. done.
    + unfold Layout_mirrored. cbn [fst snd]. rewrite Hr0, Hg0, Hc1.
      split; [done|constructor].
  - destruct (Layout3D.fromJSON d w) as [l1 w1] eqn:Hj. subst l w'. cbn [fst snd].
    assert (H : Forall (fun r => Forall (Furniture_hung 0 w1) (Room.furnitureList r))
                       (Layout3D.rooms l1)).
    { revert Hj. unfold Layout3D.fromJSON, Layout3D.new, alloc_obj.
      cbv beta iota zeta.
      set (w0 := update_obj (next_node w) _ _).
      set (l0 := match ld_cameraView d with Some _ => _ | None => _ end).
      assert (Hl0 : Layout3D.rooms l0 = [] ∧ Layout3D.group l0 = next_node w)
        by (unfold l0; by destruct (ld_cameraView d)).
      clearbody l0. destruct Hl0 as [Hr0 Hg0].
      assert (Hn0 : next_node w0 = S (next_node w)) by reflexivity.
      clearbody w0.
      destruct (ld_rooms d) as [items|]; intros Hj.
      - destruct (fromJSON_rooms_spec (next_node w0) _ _ _ _ _ Hj)
          as (_ & rs' & -> & Hrs); [lia|done|].
        cbn [Layout3D.rooms Layout3D.set_rooms]. rewrite Hr0. simpl.
        eapply Forall_impl; [exact Hrs|]. intros r Hr.
        eapply Forall_impl; [exact Hr|]. intros f.
        apply Furniture_hung_weaken. lia.
      - injection Hj as <- <-. rewrite Hr0. constructor. }
    unfold Layout3D.furniture. apply Forall_concat, Forall_fmap.
    eapply Forall_impl; [exact H|]. intros r Hr. cbn.
    eapply Forall_impl; [exact Hr|]. intros f (_ & _ & _ & H1 & H2).
    apply node_at_obj in H1, H2. done.
Qed.

Lemma clone_furniture_group fuel items : ∀ cr w cr' w',
  Room.clone_furniture fuel items cr w = Some (cr', w') →
  Room.group cr < next_node w → is_Some (nodes w !! Room.group cr) →
  is_Some (nodes w' !! Room.group cr) ∧
  ∃ fs', cr' = Room.set_furnitureList (Room.furnitureList cr ++ fs') cr ∧
         children (obj w' (Room.group cr))
           = children (obj w (Room.group cr)) ++ map Furniture.root fs'.
Proof.
  induction items as [|f items IH]; intros cr w cr' w' Hc Hg Hs; simpl in Hc.
  - injection Hc as <- <-. split; [done|].
    exists []. rewrite !app_nil_r. split; [by destruct cr|done].
  - destruct (Furniture.clone fuel f w) as [[c w1]|] eqn:Hcf; [|done].
    cbn [mbind option_bind] in Hc. unfold Room.addFurniture in Hc.
    destruct (Furniture_clone_spec (below (next_node w)) _ _ _ _ _ Hcf)
      as (Hf1 & _); [by apply bounded_below|].
    pose proof (frame_next _ _ _ Hf1) as Hn1.
    assert (Hs1 : is_Some (nodes w1 !! Room.group cr))
      by (by eapply is_Some_frame).
    set (cr1 := Room.set_furnitureList _ cr) in Hc.
    set (w2 := Object3D_add _ _ w1) in Hc.
    destruct (IH cr1 w2 cr' w' Hc) as (Hs' & fs' & -> & Hch).
    { simpl. lia. }
    { by apply is_Some_add. }
    split; [done|].
    exists (c :: fs'). split.
    { unfold cr1. destruct cr. simpl. by rewrite <- app_assoc. }
    cbn [Room.group cr1 Room.set_furnitureList] in Hch. rewrite Hch.
    unfold w2. rewrite children_add_eq by done.
    rewrite (frame_obj _ _ _ _ Hf1) by done. simpl. by rewrite <- app_assoc.
Qed.

Lemma Room_clone_mirrored fuel r w r' w' :
  Room.clone fuel r w = Some (r', w') → Room_mirrored w' r'.
Proof.
  unfold Room.clone. intros Hc.
  destruct (Room.new _ _ _ w) as [r0 w1] eqn:Hnew.
  destruct (Room_new_walls _ _ _ _ _ _ Hnew) as (Hr0 & Hn1 & Hs1 & Hc1 & _ & _).
  assert (Hg0 : Room.group r0 = next_node w) by (by rewrite Hr0).
  assert (Hm0 : Room_mirrored w1 r0).
  { unfold Room_mirrored. rewrite Hg0, Hc1, Hr0. reflexivity. }
  destruct (Room.clone_furniture fuel _ r0 w1) as [[cr1 w2]|] eqn:Hcf; [|done].
  cbn [mbind option_bind] in Hc.
  destruct (clone_furniture_group _ _ _ _ _ _ Hcf) as (Hs2 & fs' & -> & Hch).
  { rewrite Hg0. lia. }
  { by rewrite Hg0. }
  cbn [Room.group Room.set_furnitureList] in Hc.
  destruct (generateId _) as [i w4] eqn:Hid. injection Hid as <- <-.
  injection Hc as <- <-.
  unfold Room_mirrored in *.
  cbn [Room.group Room.walls Room.furnitureList Room.set_furnitureList].
  destruct Hs2 as [o Ho]. unfold obj in Hch |- *. rewrite Ho in Hch.
  cbn [update_obj with_nodes nodes]. lookup_simpl. rewrite Ho.
  cbn [fmap option_fmap option_map default from_option id children
       set_userData set_position] in Hch |- *.
  rewrite Hch. fold (obj w1 (Room.group r0)). rewrite Hm0, map_app, app_assoc. done.
Qed.

Lemma clone_rooms_group fuel items : ∀ cl w cl' w',
  Layout3D.clone_rooms fuel items cl w = Some (cl', w') →
  Layout3D.group cl < next_node w → is_Some (nodes w !! Layout3D.group cl) →
  is_Some (nodes w' !! Layout3D.group cl) ∧
  ∃ rs', cl' = Layout3D.set_rooms (Layout3D.rooms cl ++ rs') cl ∧
         children (obj w' (Layout3D.group cl))
           = children (obj w (Layout3D.group cl)) ++ map Room.group rs' ∧
         Forall (Room_mirrored w') rs'.
Proof.
  induction items as [|r items IH]; intros cl w cl' w' Hc Hg Hs; simpl in Hc.
  - injection Hc as <- <-. split; [done|].
    exists []. rewrite !app_nil_r. split; [by destruct cl|done].
  - destruct (Room.clone fuel r w) as [[c w1]|] eqn:Hcr; [|done].
    cbn [mbind option_bind] in Hc. unfold Layout3D.addRoom in Hc.
    destruct (Room_clone_spec (below (next_node w)) _ _ _ _ _ Hcr)
      as (Hf1 & _ & (Hgc & Hgc' & _)); [by apply bounded_below|].
    pose proof (Room_clone_mirrored _ _ _ _ _ Hcr) as Hm.
    assert (Hs1 : is_Some (nodes w1 !! Layout3D.group cl))
      by (by eapply is_Some_frame).
    set (cl1 := Layout3D.set_rooms _ cl) in Hc.
    set (w2 := Object3D_add _ _ w1) in Hc.
    assert (Hg2 : Layout3D.group cl1 < next_node w2) by (simpl; lia).
    destruct (IH cl1 w2 cl' w' Hc Hg2) as (Hs' & rs' & -> & Hch & Hms).
    { by apply is_Some_add. }
    destruct (clone_rooms_spec _ _ _ _ _ _ Hc Hg2) as (Hf3 & _).
    split; [done|].
    exists (c :: rs'). split.
    { unfold cl1. destruct cl. simpl. by rewrite <- app_assoc. }
    split.
    { cbn [Layout3D.group cl1 Layout3D.set_rooms] in Hch. rewrite Hch.
      unfold w2. rewrite children_add_eq by done.
      rewrite (frame_obj _ _ _ _ Hf1) by done. simpl. by rewrite <- app_assoc. }
    constructor; [|done].
    eapply Room_mirrored_frame; [exact Hf3| |].
    { unfold below_except. simpl. lia. }
    unfold Room_mirrored, w2. rewrite obj_add_ne by lia. exact Hm.
Qed.

(** X10. The scene graph of a clone mirrors its entity lists as well: the
    clone's group holds the groups of its rooms in order, and each room
    group holds the meshes of the room's four walls followed by the roots of
    its Furniture in order. *)
Theorem cloned_scene_mirrors_entities fuel l w l' w' :
  Layout3D.clone fuel l w = Some (l', w') → Layout_mirrored w' l'.
Proof.
  unfold Layout3D.clone, Layout3D.new, alloc_obj. cbv beta iota zeta.
  intros Hc.
  set (w1 := update_obj (next_node w) _ _) in Hc.
  set (l0 := match Layout3D.cameraView l with Some _ => _ | None => _ end) in Hc.
  assert (Hl0 : Layout3D.rooms l0 = [] ∧ Layout3D.group l0 = next_node w)
    by (unfold l0; by destruct (Layout3D.cameraView l)).
  clearbody l0. destruct Hl0 as [Hr0 Hg0].
  assert (Hs1 : is_Some (nodes w1 !! next_node w)).
  { unfold w1. simpl. lookup_simpl. by eexists. }
  assert (Hc1 : children (obj w1 (next_node w)) = []).
  { unfold obj, w1. simpl. lookup_simpl. reflexivity. }
  assert (Hn1 : next_node w1 = S (next_node w)) by reflexivity.
  clearbody w1.
  destruct (Layout3D.clone_rooms fuel _ l0 w1) as [[l1 w2]|] eqn:Hcr; [|done].
  cbn [mbind option_bind] in Hc. injection Hc as <- <-.
  destruct (clone_rooms_group _ _ _ _ _ _ Hcr) as (Hs2 & rs' & -> & Hch & Hms).
  { rewrite Hg0. lia. }
  { by rewrite Hg0. }
  unfold Layout_mirrored.
  cbn [Layout3D.group Layout3D.rooms Layout3D.set_rooms].
  rewrite obj_update_eq by done. cbn [children set_userData].
  rewrite Hr0, Hch, Hg0, Hc1. split; [done|].
  eapply Forall_impl; [exact Hms|]. intros r. unfold Room_mirrored.
  rewrite Hg0 in Hs2.
  destruct (decide (Room.group r = next_node w)) as [He|Hne].
  - rewrite He, obj_update_eq by done. done.
  - by rewrite obj_update_ne.
Qed.

(** ** Hydrated placement *)

Lemma Furniture_placed_frame keep lo hi w w' d f :
  frame keep w w' → (∀ a, lo ≤ a → a < hi → keep a) →
  Furniture_placed lo hi w d f → Furniture_placed lo hi w' d f.
Proof.
  intros Hf Hk ([H1 H2] & Ht). split; [done|].
  unfold transform in *. by rewrite (frame_obj _ _ _ _ Hf (Hk _ H1 H2)).
Qed.

Lemma Furniture_placed_widen lo hi lo' hi' w d f :
  lo' ≤ lo → hi ≤ hi' → Furniture_placed lo hi w d f → Furniture_placed lo' hi' w d f.
Proof. intros ? ? ([H1 H2] & Ht). split; [lia|done]. Qed.

Lemma map_obj_frame {A} keep w w' (g : Object3D → A) (l : list addr) :
  frame keep w w' → Forall keep l →
  map (fun a => g (obj w' a)) l = map (fun a => g (obj w a)) l.
Proof.
  intros Hf. induction 1 as [|a l Ha _ IH]; simpl; [done|].
  by rewrite IH, (frame_obj _ _ _ _ Hf Ha).
Qed.

Lemma Room_walled_frame keep lo hi w w' r :
  frame keep w w' → (∀ a, lo ≤ a → a < hi → keep a) →
  Room_walled lo hi w r → Room_walled lo hi w' r.
Proof.
  intros Hf Hk (Hb & Hd & Hs & Hp).
  assert (Hkeep : Forall keep (map Wall.mesh (Room.walls r))).
  { apply Forall_fmap. eapply Forall_impl; [exact Hb|].
    intros wl [H1 H2]. by apply Hk. }
  split; [done|]. split; [done|]. split.
  - rewrite <- Hs.
    pose proof (map_obj_frame keep w w' scale _ Hf Hkeep) as H.
    rewrite !map_map in H. exact H.
  - rewrite <- Hp.
    pose proof (map_obj_frame keep w w' position _ Hf Hkeep) as H.
    rewrite !map_map in H. exact H.
Qed.

Lemma Room_walled_widen lo hi lo' hi' w r :
  lo' ≤ lo → hi ≤ hi' → Room_walled lo hi w r → Room_walled lo' hi' w r.
Proof.
  intros ? ? (Hb & H). split; [|done].
  eapply Forall_impl; [exact Hb|]. intros wl []. lia.
Qed.

Lemma Room_placed_frame keep lo hi w w' d r :
  frame keep w w' → (∀ a, lo ≤ a → a < hi → keep a) →
  Room_placed lo hi w d r → Room_placed lo hi w' d r.
Proof.
  intros Hf Hk [Hw Hfs]. split; [by eapply Room_walled_frame|].
  eapply Forall2_impl; [exact Hfs|]. intros d' f. by apply (Furniture_placed_frame keep).
Qed.

Lemma Room_placed_widen lo hi lo' hi' w d r :
  lo' ≤ lo → hi ≤ hi' → Room_placed lo hi w d r → Room_placed lo' hi' w d r.
Proof.
  intros ? ? [Hw Hfs]. split; [by eapply Room_walled_widen|].
  eapply Forall2_impl; [exact Hfs|]. intros d' f.
  by apply Furniture_placed_widen.
Qed.

(** [Furniture.fromJSON] sets what the description gives and leaves the
    rest at the constructor's values. *)
Lemma Furniture_fromJSON_placed d w f w' :
  FurnitureFactory.fromJSON d w = (f, w') →
  Furniture_placed (next_node w) (next_node w') w' d f.
Proof.
  intros Hj.
  destruct (Furniture_fromJSON_spec (fun _ => False) _ _ _ _ Hj)
    as (_ & (Hm & Hmr & Hr & _)); [by intros a []|].
  split; [lia|].
  revert Hj. unfold FurnitureFactory.fromJSON.
  destruct (Furniture.new _ _ _ w) as [f0 w1] eqn:Hnew.
  destruct (Furniture_new_spec (fun _ => False) _ _ _ _ _ _ Hnew)
    as (_ & -> & _ & _ & _ & _ & (o & Ho & _ & Hp & Hro & Hs & _)); [by intros a []|].
  intros Hj. injection Hj as <- <-.
  unfold described_transform, transform, Furniture.setPosition,
    Furniture.setRotation, Furniture.setScale, obj.
  cbn [Furniture.root].
  destruct (fd_position d), (fd_rotation d), (fd_scale d);
    cbn [update_obj with_nodes nodes default from_option]; lookup_simpl; rewrite Ho;
    cbn [fmap option_fmap option_map default from_option id position rotation
         scale set_position set_rotation set_scale];
    by rewrite ?Hp, ?Hro, ?Hs.
Qed.

Lemma fromJSON_furniture_placed items : ∀ room w room' w',
  Room.fromJSON_furniture items room w = (room', w') →
  Room.group room < next_node w →
  ∃ fs', room' = Room.set_furnitureList (Room.furnitureList room ++ fs') room ∧
         Forall2 (Furniture_placed (next_node w) (next_node w') w') items fs'.
Proof.
  induction items as [|d items IH]; intros room w room' w' Hj Hg; simpl in Hj.
  - injection Hj as <- <-. exists []. rewrite app_nil_r.
    split; [by destruct room|constructor].
  - destruct (FurnitureFactory.fromJSON d w) as [f w1] eqn:Hf.
    unfold Room.addFurniture in Hj.
    pose proof (Furniture_fromJSON_placed _ _ _ _ Hf) as Hp.
    destruct (Furniture_fromJSON_spec (below (next_node w)) _ _ _ _ Hf)
      as (Hf1 & _); [by apply bounded_below|].
    pose proof (frame_next _ _ _ Hf1) as Hn1.
    set (room1 := Room.set_furnitureList _ room) in Hj.
    set (w2 := Object3D_add _ _ w1) in Hj.
    assert (Hg2 : Room.group room1 < next_node w2) by (simpl; lia).
    destruct (IH room1 w2 room' w' Hj Hg2) as (fs' & -> & Hfs).
    destruct (fromJSON_furniture_spec (next_node w2) _ _ _ _ _ Hj Hg2 (le_n _))
      as (Hf3 & _).
    pose proof (frame_next _ _ _ Hf3) as Hn3.
    exists (f :: fs'). split.
    { unfold room1. destruct room. simpl. by rewrite <- app_assoc. }
    constructor.
    + apply (Furniture_placed_widen (next_node w) (next_node w1));
        [done|simpl in *; lia|].
      eapply Furniture_placed_frame; [exact Hf3| |].
      { intros a Ha1 Ha2. unfold below_except. simpl. split; lia. }
      eapply (Furniture_placed_frame (fun a => a ≠ Room.group room));
        [by apply frame_Object3D_add; auto| |exact Hp].
      intros a Ha _. simpl. lia.
    + eapply Forall2_impl; [exact Hfs|]. intros d' f'.
      apply Furniture_placed_widen; simpl; lia.
Qed.

Lemma Room_new_walled name wd dp w r w' :
  Room.new name wd dp w = (r, w') →
  Room_walled (S (next_node w)) (next_node w') w' r.
Proof.
  intros Hnew.
  destruct (Room_new_walls _ _ _ _ _ _ Hnew) as (-> & Hn & _ & _ & Hp & _).
  destruct (Room_new_spec (fun _ => False) _ _ _ _ _ _ Hnew)
    as (_ & _ & _ & _ & _ & _ & _ & Hd & Hfr & _); [by intros a []|].
  cbn [Room.walls Room.width Room.depth] in Hfr |- *.
  split; [|split; [reflexivity|split; [|exact Hp]]].
  - rewrite Hn. repeat constructor; simpl; lia.
  - transitivity (map wall_dims
      [Wall.mk (default n20 wd) Room.h Room.t_ (1 + next_node w);
       Wall.mk (default n20 wd) Room.h Room.t_ (2 + next_node w);
       Wall.mk Room.t_ Room.h (default n20 dp) (3 + next_node w);
       Wall.mk Room.t_ Room.h (default n20 dp) (4 + next_node w)]);
      [|reflexivity].
    apply Forall_fmap_ext_1. eapply Forall_impl; [exact Hfr|].
    intros wl (_ & _ & _ & _ & Hs). by apply node_at_obj in Hs.
Qed.

Lemma Room_fromJSON_placed d w r w' :
  Room.fromJSON d w = (r, w') →
  Room_placed (next_node w) (next_node w') w' d r.
Proof.
  unfold Room.fromJSON. intros Hj.
  destruct (Room.new _ _ _ w) as [r0 w1] eqn:Hnew.
  pose proof (Room_new_walled _ _ _ _ _ _ Hnew) as Hw.
  destruct (Room_new_walls _ _ _ _ _ _ Hnew) as (Hr0 & Hn1 & _).
  assert (Hg0 : Room.group r0 = next_node w) by (by rewrite Hr0).
  assert (Hfl : Room.furnitureList r0 = []) by (by rewrite Hr0).
  unfold Room_placed.
  destruct (rd_furniture d) as [items|].
  - destruct (fromJSON_furniture_placed _ _ _ _ _ Hj) as (fs' & -> & Hfs);
      [rewrite Hg0; lia|].
    destruct (fromJSON_furniture_spec (next_node w1) _ _ _ _ _ Hj)
      as (Hf2 & _); [rewrite Hg0; lia|done|].
    pose proof (frame_next _ _ _ Hf2) as Hn2.
    split.
    + apply (Room_walled_widen (S (next_node w)) (next_node w1)); [lia|lia|].
      eapply (Room_walled_frame _ _ _ w1 w' r0) in Hw; [exact Hw|exact Hf2|].
      intros a Ha1 Ha2. unfold below_except. rewrite Hg0. lia.
    + cbn [Room.furnitureList Room.set_furnitureList default]. rewrite Hfl. simpl.
      eapply Forall2_impl; [exact Hfs|]. intros d' f'.
      apply Furniture_placed_widen; lia.
  - injection Hj as <- <-. split.
    + apply (Room_walled_widen (S (next_node w)) (next_node w1)); [lia|lia|done].
    + rewrite Hfl. constructor.
Qed.

Lemma fromJSON_rooms_placed items : ∀ layout w layout' w',
  Layout3D.fromJSON_rooms items layout w = (layout', w') →
  Layout3D.group layout < next_node w →
  ∃ rs', layout' = Layout3D.set_rooms (Layout3D.rooms layout ++ rs') layout ∧
         Forall2 (Room_placed (next_node w) (next_node w') w') items rs'.
Proof.
  induction items as [|d items IH]; intros layout w layout' w' Hj Hg; simpl in Hj.
  - injection Hj as <- <-. exists []. rewrite app_nil_r.
    split; [by destruct layout|constructor].
  - destruct (Room.fromJSON d w) as [r w1] eqn:Hr.
    unfold Layout3D.addRoom in Hj.
    pose proof (Room_fromJSON_placed _ _ _ _ Hr) as Hp.
    destruct (Room_fromJSON_spec (below (next_node w)) _ _ _ _ Hr)
      as (Hf1 & _ & Hn1 & _); [by apply bounded_below|].
    set (layout1 := Layout3D.set_rooms _ layout) in Hj.
    set (w2 := Object3D_add _ _ w1) in Hj.
    assert (Hg2 : Layout3D.group layout1 < next_node w2) by (simpl; lia).
    destruct (IH layout1 w2 layout' w' Hj Hg2) as (rs' & -> & Hrs).
    destruct (fromJSON_rooms_spec (next_node w2) _ _ _ _ _ Hj Hg2 (le_n _))
      as (Hf3 & _).
    pose proof (frame_next _ _ _ Hf3) as Hn3.
    exists (r :: rs'). split.
    { unfold layout1. destruct layout. simpl. by rewrite <- app_assoc. }
    constructor.
    + apply (Room_placed_widen (next_node w) (next_node w1));
        [done|simpl in *; lia|].
      eapply Room_placed_frame; [exact Hf3| |].
      { intros a Ha1 Ha2. unfold below_except. simpl. split; lia. }
      eapply (Room_placed_frame (fun a => a ≠ Layout3D.group layout));
        [by apply frame_Object3D_add; auto| |exact Hp].
      intros a Ha _. simpl. lia.
    + eapply Forall2_impl; [exact Hrs|]. intros d' r'.
      apply Room_placed_widen; simpl; lia.
Qed.

(** X1. Hydration places everything where the description says.  In the
    world [Layout3D.fromJSON] leaves behind, for every room description and
    the room made of it: the four walls are new meshes scaled to their
    dimensions and standing on the four sides of the room; and for every
    Furniture description and the Furniture made of it, the root of the
    Furniture is a new object that carries the described position, rotation
    and scale, an absent position or rotation reading as the origin and an
    absent scale as one. *)
Theorem hydration_places_as_described (d : LayoutData) (w : World) :
  let l := fst (Layout3D.fromJSON d w) in
  let w' := snd (Layout3D.fromJSON d w) in
  Forall2 (Room_placed (next_node w) (next_node w') w')
          (default [] (ld_rooms d)) (Layout3D.rooms l).
Proof.
  intros l w'. unfold l, w', Layout3D.fromJSON, Layout3D.new, alloc_obj.
  cbv beta iota zeta.
  set (w1 := update_obj (next_node w) _ _).
  set (l0 := match ld_cameraView d with Some _ => _ | None => _ end).
  assert (Hl0 : Layout3D.rooms l0 = [] ∧ Layout3D.group l0 = next_node w)
    by (unfold l0; by destruct (ld_cameraView d)).
  clearbody l0. destruct Hl0 as [Hr0 Hg0].
  assert (Hn1 : next_node w1 = S (next_node w)) by reflexivity.
  clearbody w1.
  destruct (ld_rooms d) as [items|]; cbn [default].
  - destruct (Layout3D.fromJSON_rooms items l0 w1) as [l1 w2] eqn:Hj.
    destruct (fromJSON_rooms_placed _ _ _ _ _ Hj) as (rs' & -> & Hrs);
      [rewrite Hg0; lia|].
    cbn [fst snd Layout3D.rooms Layout3D.set_rooms]. rewrite Hr0. simpl.
    eapply Forall2_impl; [exact Hrs|]. intros d' r'.
    apply Room_placed_widen; lia.
  - cbn [fst snd]. rewrite Hr0. constructor.
Qed.

(** ** Deep copies, sessions *)

(** X7. [Furniture.clone] is a deep copy.  For a Furniture whose subtree is
    [n] levels deep below its root, the clone is produced; its root is a new
    object with the position and the scale of the source's root; under it
    stand copies of what stands under the source's root, new objects with
    the same position and scale, [userData], geometry and material handles,
    level by level; the clone carries the name, type and model URL of the
    source; and nothing that existed before is changed. (The Euler angles of
    a copy are derived again from the quaternion of its source and are not
    part of the statement.) *)
Theorem Furniture_clone_is_deep_copy n this w :
  tree (next_node w) w (S n) (Furniture.root this) →
  ∃ c w', Furniture.clone (S n) this w = Some (c, w') ∧
    Furniture_copy (next_node w) (next_node w') n w w' this c ∧
    Furniture_cloned this c ∧
    frame (below (next_node w)) w w'.
Proof.
  intros Ht.
  destruct (Furniture_clone_succeeds _ _ this w Ht (le_n _)) as [[c w'] Hc].
  exists c, w'. split; [done|].
  destruct (Furniture_clone_spec (below (next_node w)) _ _ _ _ _ Hc)
    as (Hf & Hcl & _); [by apply bounded_below|].
  split; [|done]. by apply (Furniture_clone_copy (next_node w)).
Qed.

Lemma Furniture_clone_is_deep_copy_witness :
  tree (next_node world_sofa) world_sofa 2 (Furniture.root sofa0) ∧
  ∃ c w', Furniture.clone 2 sofa0 world_sofa = Some (c, w') ∧
    Furniture_copy (next_node world_sofa) (next_node w') 1 world_sofa w' sofa0 c ∧
    Furniture_cloned sofa0 c ∧
    frame (below (next_node world_sofa)) world_sofa w'.
Proof.
  assert (Ht : tree (next_node world_sofa) world_sofa 2 (Furniture.root sofa0))
    by (apply treeb_tree; vm_compute; reflexivity).
  split; [exact Ht|].
  exact (Furniture_clone_is_deep_copy 1 sofa0 world_sofa Ht).
Defined.

(** X12. A session starts as a deep copy of its master.  For a master
    registered under [id], [getSessionClone(id)] returns a session in which,
    room by room and Furniture by Furniture, every Furniture is a deep copy
    of the master's: a new root with the position and the scale the master's
    root has at that moment, over copies of what stands under it that share
    its geometry and material buffers; and the call changes no object,
    buffer or class-wide slot that existed before. (The Euler angles of a
    copy are derived again from the quaternion of its source and are not
    part of the statement.) *)
Theorem session_copies_master n id reg master w :
  LayoutRegistry.masters reg !! id = Some master →
  Layout_trees (next_node w) (S n) w (Layout3D.rooms master) →
  ∃ session w',
    LayoutRegistry.getSessionClone (S n) id reg w = Some (Normal session, w') ∧
    Layout_copy (next_node w) (next_node w') n w w' master session ∧
    frame (below (next_node w)) w w'.
Proof.
  intros Hreg Ht. unfold LayoutRegistry.getSessionClone. rewrite Hreg.
  destruct (Layout3D_clone_succeeds _ _ master w Ht (le_n _)) as [[l' w'] Hc].
  rewrite Hc. simpl. exists l', w'. split; [done|].
  destruct (Layout3D_clone_spec (below (next_node w)) _ _ _ _ _ Hc)
    as (Hf & _); [by apply bounded_below|].
  split; [|done]. by apply (Layout3D_clone_copy (next_node w)).
Qed.

Lemma session_copies_master_witness :
  ∃ session w',
    LayoutRegistry.getSessionClone 2 "layout-101" registry101 world101
      = Some (Normal session, w') ∧
    Layout_copy (next_node world101) (next_node w') 1 world101 w' master101 session ∧
    frame (below (next_node world101)) world101 w'.
Proof.
  apply (session_copies_master 1 "layout-101" registry101 master101 world101).
  - reflexivity.
  - exact master101_trees.
Defined.

Lemma clone_allocates_no_buffer_witness :
  ∃ l' w', Layout3D.clone 2 master101 world101 = Some (l', w') ∧
    empty_slots world101 = 0 ∧
    next_resource w' = next_resource world101.
Proof.
  destruct (Layout3D_clone_succeeds _ 2 master101 world101 master101_trees (le_n _))
    as [[l' w'] Hc].
  assert (He : empty_slots world101 = 0) by (vm_compute; reflexivity).
  exists l', w'. split; [exact Hc|]. split; [exact He|].
  exact (clone_allocates_no_buffer 2 master101 world101 l' w' Hc He).
Defined.

Lemma cloned_scene_mirrors_entities_witness :
  ∃ l' w', Layout3D.clone 2 master101 world101 = Some (l', w') ∧
    Layout_mirrored w' l'.
Proof.
  destruct (Layout3D_clone_succeeds _ 2 master101 world101 master101_trees (le_n _))
    as [[l' w'] Hc].
  exists l', w'. split; [exact Hc|].
  exact (cloned_scene_mirrors_entities 2 master101 world101 l' w' Hc).
Defined.

(** ** Disposal *)

Lemma set_disposed_id w : set_disposed (disposed w) w = w.
Proof. by destruct w. Qed.

Lemma set_disposed_twice D1 D2 w :
  set_disposed D2 (set_disposed D1 w) = set_disposed D2 w.
Proof. reflexivity. Qed.

Lemma dispose_resource_set h D w :
  dispose_resource h (set_disposed D w) = set_disposed ({[h]} ∪ D) w.
Proof. reflexivity. Qed.

Lemma dispose_material_set m D w :
  Furniture.dispose_material m (set_disposed D w)
    = set_disposed (material_buffers m ∪ D) w.
Proof.
  destruct m as [h|hs]; simpl; [reflexivity|].
  revert D. induction hs as [|h hs IH]; intros D; simpl.
  - f_equal. apply set_eq. intros x. set_unfold. tauto.
  - rewrite dispose_resource_set, IH. f_equal. apply set_eq. intros x. set_unfold. tauto.
Qed.

Lemma dispose_node_set a D w :
  Furniture.dispose_node a (set_disposed D w)
    = set_disposed (node_buffers (obj w a) ∪ D) w.
Proof.
  unfold Furniture.dispose_node, node_buffers.
  change (obj (set_disposed D w) a) with (obj w a).
  destruct (isMesh (obj w a)); [|f_equal; apply set_eq; intros x; set_unfold; tauto].
  destruct (geometry (obj w a)) as [g|], (material (obj w a)) as [m|]; simpl.
  - rewrite dispose_resource_set, dispose_material_set. f_equal. apply set_eq. intros x. set_unfold. tauto.
  - rewrite dispose_resource_set. f_equal. apply set_eq. intros x. set_unfold. tauto.
  - rewrite dispose_material_set. f_equal. apply set_eq. intros x. set_unfold. tauto.
  - f_equal. apply set_eq. intros x. set_unfold. tauto.
Qed.

Lemma traverse_dispose k fuel : ∀ a w D,
  tree k w fuel a →
  Object3D_traverse fuel Furniture.dispose_node a (set_disposed D w)
    = Some (set_disposed (subtree_buffers fuel w a ∪ D) w).
Proof.
  induction fuel as [|fuel IH]; intros a w D Ht; [done|].
  destruct Ht as [_ Hts]. simpl.
  rewrite dispose_node_set.
  change (obj (set_disposed (node_buffers (obj w a) ∪ D) w) a) with (obj w a).
  assert (Hfold : ∀ E, foldl (fun acc c => w' ← acc;
                   Object3D_traverse fuel Furniture.dispose_node c w')
                 (Some (set_disposed E w)) (children (obj w a))
            = Some (set_disposed
                      (⋃ (map (subtree_buffers fuel w) (children (obj w a))) ∪ E) w)).
  { induction Hts as [|c cs Hc _ IHcs]; intros E; simpl.
    - do 2 f_equal. apply set_eq. intros x. set_unfold. tauto.
    - rewrite (IH c w _ Hc). rewrite IHcs. do 2 f_equal.
      apply set_eq. intros x. set_unfold. tauto. }
  rewrite Hfold. do 2 f_equal. apply set_eq. intros x. set_unfold. tauto.
Qed.

Lemma Furniture_dispose_set k fuel f w D :
  tree k w fuel (Furniture.mesh f) →
  Furniture.dispose fuel f (set_disposed D w)
    = Some (set_disposed (Furniture_buffers fuel w f ∪ D) w).
Proof.
  intros Ht. unfold Furniture.dispose, Furniture_buffers.
  assert (Hg : ∀ s, Ref_eqb (RefObject (Furniture.mesh f)) (Ref_of_resource s) = false)
    by (by intros [h|]).
  rewrite Hg. simpl.
  destruct (truthy (Furniture.modelUrl f)).
  - by apply (traverse_dispose k).
  - do 2 f_equal. apply set_eq. intros x. set_unfold. tauto.
Qed.

Lemma foldl_Wall_dispose ws w :
  foldl (fun w wl => Wall.dispose wl w) w ws = w.
Proof. induction ws as [|wl ws IH]; simpl; [done|]. exact IH. Qed.

Lemma furniture_dispose_set k fuel fs : ∀ w D,
  Forall (fun f => tree k w fuel (Furniture.mesh f)) fs →
  foldl (fun acc f => w' ← acc; Furniture.dispose fuel f w')
        (Some (set_disposed D w)) fs
    = Some (set_disposed (⋃ (map (Furniture_buffers fuel w) fs) ∪ D) w).
Proof.
  induction fs as [|f fs IH]; intros w D Hts; simpl.
  - do 2 f_equal. apply set_eq. intros x. set_unfold. tauto.
  - apply Forall_cons in Hts as [Hf Hts].
    rewrite (Furniture_dispose_set k) by done. rewrite IH by done.
    do 2 f_equal. apply set_eq. intros x. set_unfold. tauto.
Qed.

Lemma Room_dispose_set k fuel r w D :
  Forall (fun f => tree k w fuel (Furniture.mesh f)) (Room.furnitureList r) →
  Room.dispose fuel r (set_disposed D w)
    = Some (set_disposed (⋃ (map (Furniture_buffers fuel w) (Room.furnitureList r)) ∪ D) w).
Proof.
  intros Hts. unfold Room.dispose. rewrite foldl_Wall_dispose.
  by apply (furniture_dispose_set k).
Qed.

Lemma rooms_dispose_set k fuel rs : ∀ w D,
  Forall (fun f => tree k w fuel (Furniture.mesh f))
         (concat (map Room.furnitureList rs)) →
  foldl (fun acc r => w' ← acc; Room.dispose fuel r w') (Some (set_disposed D w)) rs
    = Some (set_disposed
              (⋃ (map (Furniture_buffers fuel w) (concat (map Room.furnitureList rs)))
               ∪ D) w).
Proof.
  induction rs as [|r rs IH]; intros w D Hts; simpl.
  - do 2 f_equal. apply set_eq. intros x. set_unfold. tauto.
  - simpl in Hts. apply Forall_app in Hts as [Hr Hts].
    rewrite (Room_dispose_set k) by done. rewrite IH by done.
    do 2 f_equal. rewrite map_app, union_list_app_L.
    apply set_eq. intros x. set_unfold. tauto.
Qed.

Lemma Layout_dispose_set k fuel l w D :
  Forall (fun f => tree k w fuel (Furniture.mesh f)) (Layout3D.furniture l) →
  Layout3D.dispose fuel l (set_disposed D w)
    = Some (set_disposed (Layout_buffers fuel w l ∪ D) w).
Proof. intros Hts. by apply (rooms_dispose_set k). Qed.

(** X16. What [dispose] does, and that doing it twice is doing it once.  For
    a layout whose Furniture meshes head subtrees at most [fuel] levels
    deep, [Layout3D.dispose] returns; it marks as disposed exactly the
    geometry and material buffers of the meshes that stand under the [mesh]
    of a Furniture with a model URL; it changes nothing else: the scene
    graph, the class-wide slots and the buffers of the walls' own [dispose]
    are as they were; and a second [dispose] changes nothing at all. *)
Theorem dispose_marks_buffers_once fuel l w :
  Forall (fun f => tree (next_node w) w fuel (Furniture.mesh f))
         (Layout3D.furniture l) →
  ∃ w', Layout3D.dispose fuel l w = Some w' ∧
        w' = set_disposed (Layout_buffers fuel w l ∪ disposed w) w ∧
        Layout3D.dispose fuel l w' = Some w'.
Proof.
  intros Hts. eexists. split; [|split; [reflexivity|]].
  - rewrite <- (set_disposed_id w) at 1. by apply (Layout_dispose_set (next_node w)).
  - rewrite (Layout_dispose_set (next_node w)) by done.
    do 2 f_equal. apply set_eq. intros x. set_unfold. tauto.
Qed.

(** X17. Nothing to dispose.  [Wall.dispose] leaves the shared wall buffers
    alone and a Furniture without a model URL is skipped, so disposing a
    layout none of whose Furniture has a model URL changes nothing, whatever
    stands in the store. *)
Theorem dispose_without_models_changes_nothing fuel l w :
  Forall (fun f => truthy (Furniture.modelUrl f) = false) (Layout3D.furniture l) →
  Layout3D.dispose fuel l w = Some w.
Proof.
  unfold Layout3D.dispose, Layout3D.furniture.
  generalize (Layout3D.rooms l). intros rs. revert w.
  induction rs as [|r rs IH]; intros w Hfs; simpl; [done|].
  simpl in Hfs. apply Forall_app in Hfs as [Hr Hfs].
  assert (Hroom : Room.dispose fuel r w = Some w).
  { unfold Room.dispose. rewrite foldl_Wall_dispose.
    induction Hr as [|f fs Hf _ IHfs]; simpl; [done|].
    unfold Furniture.dispose at 2. rewrite Hf, andb_false_r. exact IHfs. }
  rewrite Hroom. by apply IH.
Qed.

(** ** The registry, sessions, walls *)

Lemma register_all_other regs : ∀ reg id,
  Forall (fun e : string * Layout3D.t => fst e ≠ id) regs →
  LayoutRegistry.masters (register_all regs reg) !! id
    = LayoutRegistry.masters reg !! id.
Proof.
  induction regs as [|[i l] regs IH]; intros reg id Hne; simpl; [done|].
  apply Forall_cons in Hne as [Hi Hne]. simpl in Hi.
  unfold register_all in *. simpl. rewrite IH by done.
  simpl. by rewrite lookup_insert_ne.
Qed.

(** X14. A missing key.  After any series of registrations none of which is
    under [id], [getSessionClone(id)] throws the error [Layout <id> not
    found in registry.] and leaves the store as it was. *)
Theorem getSessionClone_unregistered_throws fuel id regs w :
  Forall (fun e : string * Layout3D.t => fst e ≠ id) regs →
  LayoutRegistry.getSessionClone fuel id (register_all regs LayoutRegistry.new) w
    = Some (Throw (Error ("Layout " +:+ id +:+ " not found in registry.")), w).
Proof.
  intros Hne. unfold LayoutRegistry.getSessionClone.
  by rewrite register_all_other.
Qed.

(** X15. The latest registration wins.  After any series of registrations,
    [getSessionClone(id)] clones the layout most recently registered under
    [id]: an earlier master under the same id is replaced, and registrations
    under other ids do not interfere. *)
Theorem getSessionClone_clones_latest fuel id l earlier later reg w :
  Forall (fun e : string * Layout3D.t => fst e ≠ id) later →
  LayoutRegistry.getSessionClone fuel id
    (register_all (earlier ++ (id, l) :: later) reg) w
  = '(session, w') ← Layout3D.clone fuel l w; Some (Normal session, w').
Proof.
  intros Hne. unfold LayoutRegistry.getSessionClone.
  assert (Hm : LayoutRegistry.masters
                 (register_all (earlier ++ (id, l) :: later) reg) !! id = Some l).
  { unfold register_all at 1. rewrite foldl_app.
    change (LayoutRegistry.masters
              (register_all later
                 (LayoutRegistry.registerMaster id l (register_all earlier reg)))
            !! id = Some l).
    rewrite register_all_other by done. simpl. apply lookup_insert_eq. }
  by rewrite Hm.
Qed.

Lemma Forall2_common {A B C} (R1 : A → B → Prop) (R2 : A → C → Prop) l l1 l2 :
  Forall2 R1 l l1 → Forall2 R2 l l2 →
  Forall2 (fun b c => ∃ a, R1 a b ∧ R2 a c) l1 l2.
Proof.
  intros H1. revert l2. induction H1 as [|a b l l1 Hab _ IH]; intros l2 H2;
    inversion H2; subst; constructor; eauto.
Qed.

(** X13. Two sessions of one master are isolated from each other.  When
    [getSessionClone(id)] is called twice (a session is reset), the rooms
    and Furniture of the two sessions correspond one to one, and mutating
    the transform of a Furniture of either session leaves the transform of
    its counterpart in the other as it was. *)
Theorem sessions_are_isolated fuel id reg master w :
  LayoutRegistry.masters reg !! id = Some master →
  Layout_trees (next_node w) fuel w (Layout3D.rooms master) →
  ∃ s1 w1 s2 w2,
    LayoutRegistry.getSessionClone fuel id reg w = Some (Normal s1, w1) ∧
    LayoutRegistry.getSessionClone fuel id reg w1 = Some (Normal s2, w2) ∧
    Forall2 (fun r1 r2 =>
               Forall2 (isolated w2) (Room.furnitureList r1) (Room.furnitureList r2))
            (Layout3D.rooms s1) (Layout3D.rooms s2).
Proof.
  intros Hreg Ht. unfold LayoutRegistry.getSessionClone. rewrite Hreg.
  destruct (Layout3D_clone_succeeds _ fuel master w Ht (le_n _)) as [[s1 w1] Hc1].
  destruct (Layout3D_clone_spec (below (next_node w)) _ _ _ _ _ Hc1)
    as (Hf1 & (_ & _ & _ & Hrooms1) & _ & Hfresh1 & _); [by apply bounded_below|].
  pose proof (frame_next _ _ _ Hf1) as Hn1.
  destruct (Layout3D_clone_succeeds (next_node w) fuel master w1) as [[s2 w2] Hc2].
  { eapply Layout_trees_frame; [exact Hf1|done|exact Ht]. }
  { done. }
  destruct (Layout3D_clone_spec (below (next_node w1)) _ _ _ _ _ Hc2)
    as (Hf2 & (_ & _ & _ & Hrooms2) & _ & Hfresh2 & _); [by apply bounded_below|].
  exists s1, w1, s2, w2. rewrite Hc1, Hc2. simpl. split; [done|]. split; [done|].
  pose proof (Forall2_common _ _ _ _ _ Hrooms1 Hrooms2) as Hrr.
  pose proof (Forall2_with_Forall _ _ _ _ _ Hrr Hfresh1 Hfresh2) as H.
  eapply Forall2_impl; [exact H|]. clear H.
  intros r1 r2 ((r & (_ & _ & _ & _ & Hfs1) & (_ & _ & _ & _ & Hfs2))
                & (_ & _ & _ & _ & Hfr1) & (_ & _ & _ & _ & Hfr2)).
  pose proof (Forall2_common _ _ _ _ _ Hfs1 Hfs2) as Hff.
  pose proof (Forall2_with_Forall _ _ _ _ _ Hff Hfr1 Hfr2) as H.
  eapply Forall2_impl; [exact H|]. clear H.
  intros F1 F2 (_ & (_ & HF1 & _) & (HF2 & _ & _ & _ & Hid)).
  assert (Hne : Furniture.root F1 ≠ Furniture.root F2) by lia.
  split; [|split].
  - intros m. by apply transform_mutate_ne.
  - intros m. by apply transform_mutate_ne.
  - intros v. unfold Furniture.setPosition. rewrite obj_update_eq; [done|].
    destruct Hid as (i & _ & o & Ho & _). by exists o.
Qed.

Lemma sessions_are_isolated_witness :
  ∃ s1 w1 s2 w2,
    LayoutRegistry.getSessionClone 2 "layout-101" registry101 world101
      = Some (Normal s1, w1) ∧
    LayoutRegistry.getSessionClone 2 "layout-101" registry101 w1
      = Some (Normal s2, w2) ∧
    Forall2 (fun r1 r2 =>
               Forall2 (isolated w2) (Room.furnitureList r1) (Room.furnitureList r2))
            (Layout3D.rooms s1) (Layout3D.rooms s2).
Proof.
  apply (sessions_are_isolated 2 "layout-101" registry101 master101 world101).
  - reflexivity.
  - exact master101_trees.
Defined.

Lemma getSessionClone_unregistered_throws_witness :
  Forall (fun e : string * Layout3D.t => fst e ≠ "layout-999")
         [("layout-101", master101)] ∧
  LayoutRegistry.getSessionClone 2 "layout-999"
    (register_all [("layout-101", master101)] LayoutRegistry.new) world101
    = Some (Throw (Error "Layout layout-999 not found in registry."), world101).
Proof.
  assert (H : Forall (fun e : string * Layout3D.t => fst e ≠ "layout-999")
                     [("layout-101", master101)])
    by (repeat constructor; discriminate).
  split; [exact H|].
  exact (getSessionClone_unregistered_throws 2 "layout-999"
           [("layout-101", master101)] world101 H).
Defined.

Lemma getSessionClone_clones_latest_witness :
  Forall (fun e : string * Layout3D.t => fst e ≠ "layout-101")
         [("layout-102", fst (Layout3D.new (Some "layout-102") None world0))] ∧
  LayoutRegistry.getSessionClone 2 "layout-101"
    (register_all
       ([("layout-101", fst (Layout3D.new (Some "layout-101") None world0))]
        ++ ("layout-101", master101)
        :: [("layout-102", fst (Layout3D.new (Some "layout-102") None world0))])
       LayoutRegistry.new) world101
  = '(session, w') ← Layout3D.clone 2 master101 world101; Some (Normal session, w').
Proof.
  assert (H : Forall (fun e : string * Layout3D.t => fst e ≠ "layout-101")
         [("layout-102", fst (Layout3D.new (Some "layout-102") None world0))])
    by (repeat constructor; discriminate).
  split; [exact H|].
  exact (getSessionClone_clones_latest 2 "layout-101" master101 _ _
           LayoutRegistry.new world101 H).
Defined.

(** X8. [Wall.clone] makes a wall of the same dimensions: a new mesh on the
    shared wall geometry and material, scaled to the dimensions, at the
    position and rotation of the source's mesh, with an identifier of its
    own; the source and everything else that existed are left as they were. *)
Theorem Wall_clone_copies_wall this w :
  allocated w (Wall.mesh this) →
  let c := fst (Wall.clone this w) in
  let w' := snd (Wall.clone this w) in
  wall_dims c = wall_dims this ∧
  Wall.mesh c = next_node w ∧
  transform w' (Wall.mesh c)
    = (position (obj w (Wall.mesh this)), rotation (obj w (Wall.mesh this)),
       wall_dims this) ∧
  wall_shared w' (Wall.mesh c) ∧
  entityId (userData (obj w' (Wall.mesh c))) = Some (random w (S (drawn w))) ∧
  frame (below (next_node w)) w w'.
Proof.
  intros [Hlt Hsome] c w'. subst c w'. unfold Wall.clone.
  destruct (Wall.new _ _ _ w) as [cw w1] eqn:Hnew.
  destruct (Wall_new_spec (below (next_node w)) _ _ _ _ _ _ Hnew)
    as (Hf1 & -> & Hn1 & Hd1 & Hsh & (o & Ho & Hs & Hp & Hch & Hud));
    [by apply bounded_below|].
  cbn [Wall.mesh Wall.width Wall.height Wall.depth].
  set (m := next_node w) in *.
  assert (Hsrc : obj w1 (Wall.mesh this) = obj w (Wall.mesh this))
    by (by apply (frame_obj _ _ _ _ Hf1)).
  assert (Hne : m ≠ Wall.mesh this) by lia.
  set (w2 := update_obj m (set_position _) w1).
  assert (Hsrc2 : obj w2 (Wall.mesh this) = obj w (Wall.mesh this))
    by (unfold w2; by rewrite obj_update_ne).
  set (w3 := update_obj m (set_rotation _) w2).
  destruct (generateId w3) as [i w4] eqn:Hid. injection Hid as <- <-.
  cbn [fst snd]. set (w4 := mkWorld _ _ _ _ _ _ _ _ _ _).
  set (w5 := update_obj m _ w4).
  assert (Ho5 : nodes w5 !! m
    = Some (set_userData (mkUD (Some (random w3 (drawn w3))) (ud_type (userData o))
                               (ud_name (userData o)) (isMaster (userData o)))
             (set_rotation (rotation (obj w (Wall.mesh this)))
                (set_position (position (obj w (Wall.mesh this))) o)))).
  { unfold w5, w4, w3, w2. simpl. lookup_simpl. rewrite Ho. simpl.
    fold w2. by rewrite Hsrc2, Hsrc. }
  assert (Hobj5 : obj w5 m = set_userData
      (mkUD (Some (random w3 (drawn w3))) (ud_type (userData o))
            (ud_name (userData o)) (isMaster (userData o)))
      (set_rotation (rotation (obj w (Wall.mesh this)))
         (set_position (position (obj w (Wall.mesh this))) o)))
    by (unfold obj; by rewrite Ho5).
  cbn [Wall.mesh].
  split; [reflexivity|]. split; [reflexivity|]. split; [|split; [|split]].
  - unfold transform. rewrite Hobj5. simpl. by rewrite Hs.
  - destruct Hsh as (g & mt & Hg & Hm & (o' & Ho' & Hog & Hom)).
    assert (o' = o) as -> by congruence.
    exists g, mt. split; [done|]. split; [done|].
    eexists. split; [exact Ho5|]. done.
  - rewrite Hobj5. simpl. by rewrite (frame_random _ _ _ Hf1), Hd1.
  - eapply frame_trans; [exact Hf1|].
    assert (Hk : ¬ below (next_node w) m) by (unfold below, m; lia).
    eapply frame_trans; [by apply (frame_update_obj _ m)|].
    eapply frame_trans; [by apply (frame_update_obj _ m)|].
    eapply frame_trans; [apply frame_generateId|].
    by apply frame_update_obj.
Qed.

Lemma Wall_clone_copies_wall_witness :
  ∃ wl, (head (flat_map Room.walls (Layout3D.rooms master101)) = Some wl) ∧
  allocated world101 (Wall.mesh wl) ∧
  let c := fst (Wall.clone wl world101) in
  let w' := snd (Wall.clone wl world101) in
  wall_dims c = wall_dims wl ∧
  Wall.mesh c = next_node world101 ∧
  transform w' (Wall.mesh c)
    = (position (obj world101 (Wall.mesh wl)), rotation (obj world101 (Wall.mesh wl)),
       wall_dims wl) ∧
  wall_shared w' (Wall.mesh c) ∧
  entityId (userData (obj w' (Wall.mesh c)))
    = Some (random world101 (S (drawn world101))) ∧
  frame (below (next_node world101)) world101 w'.
Proof.
  destruct (head (flat_map Room.walls (Layout3D.rooms master101))) as [wl|] eqn:Hw;
    [|by vm_compute in Hw].
  exists wl. split; [reflexivity|].
  assert (Ha : allocated world101 (Wall.mesh wl)).
  { vm_compute in Hw. injection Hw as <-. split; [vm_compute; lia|].
    vm_compute. by eexists. }
  split; [exact Ha|].
  exact (Wall_clone_copies_wall wl world101 Ha).
Defined.

(** ** The transform of a cloned room *)

Lemma clone_furniture_group_obj fuel items : ∀ cr w cr' w',
  Room.clone_furniture fuel items cr w = Some (cr', w') →
  Room.group cr < next_node w → is_Some (nodes w !! Room.group cr) →
  Room.group cr' = Room.group cr ∧
  is_Some (nodes w' !! Room.group cr) ∧
  ∃ cs, obj w' (Room.group cr) = set_children cs (obj w (Room.group cr)).
Proof.
  induction items as [|f items IH]; intros cr w cr' w' Hc Hg Hs; simpl in Hc.
  - injection Hc as <- <-. split; [done|]. split; [done|].
    exists (children (obj w (Room.group cr))). by destruct (obj w (Room.group cr)).
  - destruct (Furniture.clone fuel f w) as [[c w1]|] eqn:Hcf; [|done].
    cbn [mbind option_bind] in Hc. unfold Room.addFurniture in Hc.
    destruct (Furniture_clone_spec (below (next_node w)) _ _ _ _ _ Hcf)
      as (Hf1 & _); [by apply bounded_below|].
    pose proof (frame_next _ _ _ Hf1) as Hn1.
    assert (Hs1 : is_Some (nodes w1 !! Room.group cr))
      by (by eapply is_Some_frame).
    set (cr1 := Room.set_furnitureList _ cr) in Hc.
    set (w2 := Object3D_add _ _ w1) in Hc.
    destruct (IH cr1 w2 cr' w' Hc) as (Hg' & Hs' & cs & Hobj).
    { simpl. lia. }
    { by apply is_Some_add. }
    split; [done|]. split; [done|].
    exists cs. cbn [Room.group cr1 Room.set_furnitureList] in Hobj. rewrite Hobj.
    unfold w2. rewrite obj_add_eq by done.
    rewrite (frame_obj _ _ _ _ Hf1) by done. by destruct (obj w (Room.group cr)).
Qed.

(** X9. [Room.clone] carries over the position of the room's group and
    nothing else of its transform: whatever rotation and scale the source
    group has, the group of the clone has the position of the source group,
    no rotation and scale one. *)
Theorem Room_clone_copies_position_only fuel r w :
  Room.group r < next_node w →
  Forall (fun f => tree (next_node w) w fuel (Furniture.root f))
         (Room.furnitureList r) →
  ∃ r' w', Room.clone fuel r w = Some (r', w') ∧
    transform w' (Room.group r')
      = (position (obj w (Room.group r)), Vector3_zero, Vector3_one).
Proof.
  intros Hg Ht.
  destruct (Room_clone_succeeds _ fuel r w Ht (le_n _)) as [[r' w'] Hc].
  exists r', w'. split; [done|].
  unfold Room.clone in Hc.
  destruct (Room.new _ _ _ w) as [r0 w1] eqn:Hnew.
  destruct (Room_new_walls _ _ _ _ _ _ Hnew) as (Hr0 & Hn1 & Hs1 & _ & _ & Ho1).
  destruct (Room_new_spec (below (next_node w)) _ _ _ _ _ _ Hnew)
    as (Hf1 & _); [by apply bounded_below|].
  assert (Hg0 : Room.group r0 = next_node w) by (by rewrite Hr0).
  destruct (Room.clone_furniture fuel _ r0 w1) as [[cr1 w2]|] eqn:Hcf; [|done].
  cbn [mbind option_bind] in Hc.
  destruct (clone_furniture_group_obj _ _ _ _ _ _ Hcf) as (Hg1 & [o2 Ho2] & cs & Hobj2).
  { rewrite Hg0. lia. }
  { by rewrite Hg0. }
  destruct (clone_furniture_spec _ _ _ _ _ _ Hcf) as (Hf2 & _);
    [rewrite Hg0; lia|].
  assert (Hsrc : obj w2 (Room.group r) = obj w (Room.group r)).
  { rewrite (frame_obj _ _ _ _ Hf2) by (unfold below_except; rewrite Hg0; lia).
    by apply (frame_obj _ _ _ _ Hf1). }
  destruct (generateId _) as [i w4] eqn:Hid. injection Hid as <- <-.
  injection Hc as <- <-.
  rewrite Hg1, Hg0 in *. rewrite Ho1 in Hobj2.
  assert (Ho2' : o2 = set_children cs (mkObj false Vector3_zero Vector3_zero Vector3_one
                   (mkUD (Some (random w (drawn w))) (Some "Room") (Room.name r) None)
                   [1 + next_node w; 2 + next_node w; 3 + next_node w; 4 + next_node w]
                   None None)).
  { rewrite <- Hobj2. unfold obj. by rewrite Ho2. }
  unfold transform, obj.
  cbn [update_obj with_nodes nodes]. lookup_simpl. rewrite Ho2.
  cbn [fmap option_fmap option_map default from_option id].
  fold (obj w2 (Room.group r)). rewrite Hsrc, Ho2'. reflexivity.
Qed.

Lemma Room_clone_copies_position_only_witness :
  ∃ r, Layout3D.rooms master101 !! 0 = Some r ∧
  Room.group r < next_node world101 ∧
  Forall (fun f => tree (next_node world101) world101 2 (Furniture.root f))
         (Room.furnitureList r) ∧
  ∃ r' w', Room.clone 2 r world101 = Some (r', w') ∧
    transform w' (Room.group r')
      = (position (obj world101 (Room.group r)), Vector3_zero, Vector3_one).
Proof.
  pose proof master101_trees as Ht. unfold Layout_trees in Ht.
  destruct (Layout3D.rooms master101) as [|r rs] eqn:Hr; [by vm_compute in Hr|].
  apply Forall_cons in Ht as [Ht _].
  assert (Hg : Room.group r < next_node world101).
  { vm_compute in Hr. injection Hr as <- _. vm_compute. lia. }
  exists r. split; [done|]. split; [exact Hg|]. split; [exact Ht|].
  exact (Room_clone_copies_position_only 2 r world101 Hg Ht).
Defined.

Lemma dispose_marks_buffers_once_witness :
  Forall (fun f => tree (next_node world101) world101 1 (Furniture.mesh f))
         (Layout3D.furniture master101) ∧
  ∃ w', Layout3D.dispose 1 master101 world101 = Some w' ∧
        w' = set_disposed (Layout_buffers 1 world101 master101 ∪ disposed world101)
                          world101 ∧
        Layout3D.dispose 1 master101 w' = Some w'.
Proof.
  assert (Ht : Forall (fun f => tree (next_node world101) world101 1 (Furniture.mesh f))
                      (Layout3D.furniture master101)).
  { vm_compute. repeat constructor. }
  split; [exact Ht|].
  exact (dispose_marks_buffers_once 1 master101 world101 Ht).
Defined.

(** ** The viewer *)

Lemma remove_first_app_notin a l1 l2 :
  a ∉ l1 → remove_first a (l1 ++ a :: l2) = l1 ++ l2.
Proof.
  induction l1 as [|b l1 IH]; intros Hn; simpl.
  - by rewrite Nat.eqb_refl.
  - apply not_elem_of_cons in Hn as [Hne Hn].
    destruct (Nat.eqb_spec a b) as [->|_]; [done|]. by rewrite IH.
Qed.

Lemma remove_first_NoDup a l :
  NoDup l → remove_first a l = List.filter (fun c => negb (Nat.eqb c a)) l.
Proof.
  induction 1 as [|b l Hb Hnd IH]; simpl; [done|].
  destruct (Nat.eqb_spec a b) as [->|Hne].
  - rewrite Nat.eqb_refl. simpl.
    clear IH Hnd. induction l as [|c l IH]; simpl; [done|].
    apply not_elem_of_cons in Hb as [Hne Hb].
    destruct (Nat.eqb_spec c b) as [->|_]; [done|]. simpl. by rewrite <- IH.
  - destruct (Nat.eqb_spec b a) as [->|_]; [done|]. simpl. by rewrite IH.
Qed.

Lemma obj_remove_eq p c w :
  is_Some (nodes w !! p) →
  obj (Object3D_remove p c w) p
    = set_children (remove_first c (children (obj w p))) (obj w p).
Proof. intros H. unfold Object3D_remove. by rewrite obj_update_eq. Qed.

Lemma obj_remove_ne p c w b : p ≠ b → obj (Object3D_remove p c w) b = obj w b.
Proof. intros H. unfold Object3D_remove. by rewrite obj_update_ne. Qed.

Lemma anonymous_remove p c w b :
  anonymous (Object3D_remove p c w) b = anonymous w b.
Proof.
  unfold anonymous, Object3D_remove, update_obj, obj. simpl.
  destruct (decide (p = b)) as [->|Hne]; lookup_simpl; [|done].
  by destruct (nodes w !! b).
Qed.

Lemma filter_anonymous_ext w w' l :
  (∀ b, anonymous w' b = anonymous w b) →
  List.filter (anonymous w') l = List.filter (anonymous w) l.
Proof. intros H. induction l as [|c l IH]; simpl; [done|]. by rewrite H, IH. Qed.

Lemma removeLayouts_spec scene pre : ∀ post w,
  children (obj w scene) = pre ++ post → NoDup pre →
  is_Some (nodes w !! scene) →
  ∃ w', ThreeDViewer.removeLayouts (length pre) scene w = Some w' ∧
        obj w' scene = set_children (List.filter (anonymous w) pre ++ post) (obj w scene) ∧
        is_Some (nodes w' !! scene) ∧
        (∀ b, b ≠ scene → nodes w' !! b = nodes w !! b) ∧
        disposed w' = disposed w.
Proof.
  induction pre as [|c pre IH] using rev_ind; intros post w Hch Hnd Hs.
  - exists w. simpl in *. rewrite <- Hch. split; [done|].
    split; [by destruct (obj w scene)|]. done.
  - rewrite length_app, Nat.add_1_r. simpl.
    rewrite <- app_assoc in Hch. simpl in Hch.
    rewrite Hch, lookup_app_r, Nat.sub_diag by done. simpl.
    apply NoDup_app in Hnd as (Hnd & Hdis & _).
    assert (Hc : c ∉ pre). { intros Hin. apply (Hdis c Hin). by left. }
    rewrite List.filter_app. simpl. unfold anonymous at 2.
    destruct (truthy (entityId (userData (obj w c)))) eqn:Ht; simpl.
    + destruct (IH post (Object3D_remove scene c w)) as (w' & Hr & Ho & Hs' & Hn & Hd).
      { rewrite obj_remove_eq by done. simpl. rewrite Hch.
        by apply remove_first_app_notin. }
      { done. }
      { unfold Object3D_remove. by apply is_Some_update. }
      exists w'. split; [done|].
      rewrite Ho, obj_remove_eq by done.
      rewrite (filter_anonymous_ext w) by (intros; apply anonymous_remove).
      rewrite app_nil_r. split; [by destruct (obj w scene)|].
      split; [done|]. split; [|done].
      intros b Hb. rewrite Hn by done. unfold Object3D_remove, update_obj. simpl.
      by lookup_simpl.
    + destruct (IH (c :: post) w) as (w' & Hr & Ho & Hs' & Hn & Hd); [done..|].
      exists w'. split; [done|]. rewrite Ho, <- app_assoc. done.
Qed.

Lemma filter_filter_and {A} (f g : A → bool) l :
  List.filter f (List.filter g l) = List.filter (fun c => g c && f c) l.
Proof.
  induction l as [|c l IH]; simpl; [done|].
  destruct (g c); simpl; [|done]. destruct (f c); by rewrite IH.
Qed.

Lemma NoDup_filter_bool {A} (f : A → bool) l : NoDup l → NoDup (List.filter f l).
Proof.
  induction 1 as [|c l Hc Hnd IH]; simpl; [constructor|].
  destruct (f c); [|done]. constructor; [|done].
  intros Hin. apply Hc. apply list_elem_of_In in Hin.
  apply List.filter_In in Hin as [Hin _]. by apply list_elem_of_In.
Qed.

(** X18. What the viewer shows after an update.  For a scene whose children
    are distinct objects and a layout whose root group is not the scene
    itself, the effect returns; afterwards the children of the scene are the
    children it had that carry no identifier (floor, grid and lights stay,
    in their order), followed by the root group of the new layout: every
    group that carried an identifier is gone, and the new root is listed
    once even if it was shown before.  No object other than the scene and
    the former parent of the root is changed and nothing is disposed. *)
Theorem viewer_shows_the_new_layout layout scene w :
  is_Some (nodes w !! scene) →
  NoDup (children (obj w scene)) →
  scene ≠ Layout3D.group layout →
  ∃ w', ThreeDViewer.updateLayout (Some layout) (Some scene) w = Some w' ∧
    children (obj w' scene)
      = List.filter (fun c => anonymous w c && negb (Nat.eqb c (Layout3D.group layout)))
                    (children (obj w scene))
        ++ [Layout3D.group layout] ∧
    (∀ a, a ≠ scene → Layout3D.group layout ∉ children (obj w a) →
          obj w' a = obj w a) ∧
    disposed w' = disposed w.
Proof.
  intros Hs Hnd Hne. unfold ThreeDViewer.updateLayout.
  destruct (removeLayouts_spec scene (children (obj w scene)) [] w)
    as (w1 & Hr & Ho & Hs1 & Hn & Hd); [by rewrite app_nil_r|done|done|].
  rewrite Hr. simpl. eexists. split; [reflexivity|].
  rewrite app_nil_r in Ho.
  set (root := Layout3D.group layout) in *.
  set (kept := List.filter (anonymous w) (children (obj w scene))) in *.
  unfold Object3D_attach. destruct (Nat.eqb_spec scene root) as [He|_]; [done|].
  set (w2 := Object3D_removeFromParent root w1).
  assert (Hl2 : ∀ b, nodes w2 !! b
            = (fun o => set_children (remove_first root (children o)) o)
                <$> nodes w1 !! b).
  { intros b. unfold w2, Object3D_removeFromParent. simpl. apply lookup_fmap. }
  assert (Hs2 : is_Some (nodes w2 !! scene)).
  { rewrite Hl2. destruct Hs1 as [o ->]. by eexists. }
  assert (Ho2 : ∀ b, is_Some (nodes w1 !! b) →
            obj w2 b = set_children (remove_first root (children (obj w1 b))) (obj w1 b)).
  { intros b [o Hob]. unfold obj. rewrite Hl2, Hob. done. }
  split; [|split].
  - rewrite children_add_eq by done. rewrite Ho2 by done. rewrite Ho.
    cbn [children set_children].
    rewrite remove_first_NoDup by (by apply NoDup_filter_bool).
    unfold kept. by rewrite filter_filter_and.
  - intros a Ha Hnot. rewrite obj_add_ne by done.
    unfold obj at 1. rewrite Hl2, (Hn a Ha). unfold obj in Hnot |- *.
    destruct (nodes w !! a) as [o|] eqn:Hoa; simpl in *; [|done].
    assert (Hrm : remove_first root (children o) = children o).
    { clear -Hnot. induction (children o) as [|b l IH]; simpl; [done|].
      apply not_elem_of_cons in Hnot as [Hb Hl].
      destruct (Nat.eqb_spec root b) as [->|_]; [done|]. by rewrite IH. }
    rewrite Hrm. by destruct o.
  - done.
Qed.

Lemma tree_within k w n a : tree k w n a → within (fun b => b < k) w n a.
Proof.
  revert a. induction n as [|n IH]; intros a; simpl; [done|].
  intros [H1 H2]. split; [done|]. eapply Forall_impl; [exact H2|]. auto.
Qed.

Lemma within_impl (P Q : addr → Prop) w n a :
  (∀ b, P b → Q b) → within P w n a → within Q w n a.
Proof.
  intros HPQ. revert a. induction n as [|n IH]; intros a; simpl; [done|].
  intros [H1 H2]. split; [auto|]. eapply Forall_impl; [exact H2|]. auto.
Qed.

Lemma within_ext (P : addr → Prop) w w' n a :
  (∀ b, P b → obj w' b = obj w b) → within P w n a → within P w' n a.
Proof.
  intros He. revert a. induction n as [|n IH]; intros a; simpl; [done|].
  intros [H1 H2]. split; [done|]. rewrite (He _ H1).
  eapply Forall_impl; [exact H2|]. auto.
Qed.

Lemma subtree_buffers_ext (P : addr → Prop) w w' n a :
  (∀ b, P b → obj w' b = obj w b) → within P w n a →
  subtree_buffers n w' a = subtree_buffers n w a.
Proof.
  intros He. revert a. induction n as [|n IH]; intros a; simpl; [done|].
  intros [H1 H2]. rewrite (He _ H1). f_equal. f_equal.
  apply Forall_fmap_ext_1. eapply Forall_impl; [exact H2|]. auto.
Qed.

Lemma traverse_dispose_within (P : addr → Prop) fuel : ∀ a w D,
  within P w fuel a →
  Object3D_traverse fuel Furniture.dispose_node a (set_disposed D w)
    = Some (set_disposed (subtree_buffers fuel w a ∪ D) w).
Proof.
  induction fuel as [|fuel IH]; intros a w D Ht; [done|].
  destruct Ht as [_ Hts]. simpl.
  rewrite dispose_node_set.
  change (obj (set_disposed (node_buffers (obj w a) ∪ D) w) a) with (obj w a).
  assert (Hfold : ∀ E, foldl (fun acc c => w' ← acc;
                   Object3D_traverse fuel Furniture.dispose_node c w')
                 (Some (set_disposed E w)) (children (obj w a))
            = Some (set_disposed
                      (⋃ (map (subtree_buffers fuel w) (children (obj w a))) ∪ E) w)).
  { induction Hts as [|c cs Hc _ IHcs]; intros E; simpl.
    - do 2 f_equal. apply set_eq. intros x. set_unfold. tauto.
    - rewrite (IH c w _ Hc). rewrite IHcs. do 2 f_equal.
      apply set_eq. intros x. set_unfold. tauto. }
  rewrite Hfold. do 2 f_equal. apply set_eq. intros x. set_unfold. tauto.
Qed.

Lemma removeAndDispose_spec fuel scene pre : ∀ post w,
  children (obj w scene) = pre ++ post → NoDup pre →
  is_Some (nodes w !! scene) →
  Forall (fun c => anonymous w c = false →
                   within (fun b => b ≠ scene) w fuel c) pre →
  ∃ w', ThreeDViewer.removeAndDispose fuel (length pre) scene w = Some (Some w') ∧
        obj w' scene = set_children (List.filter (anonymous w) pre ++ post) (obj w scene) ∧
        is_Some (nodes w' !! scene) ∧
        (∀ b, b ≠ scene → nodes w' !! b = nodes w !! b) ∧
        disposed w'
          = ⋃ (map (subtree_buffers fuel w)
                   (List.filter (fun c => negb (anonymous w c)) pre))
            ∪ disposed w.
Proof.
  induction pre as [|c pre IH] using rev_ind; intros post w Hch Hnd Hs Hw.
  - exists w. simpl in *. rewrite <- Hch. split; [done|].
    split; [by destruct (obj w scene)|]. split; [done|]. split; [done|].
    apply set_eq. intros x. set_unfold. tauto.
  - rewrite length_app, Nat.add_1_r. simpl.
    rewrite <- app_assoc in Hch. simpl in Hch.
    rewrite Hch, lookup_app_r, Nat.sub_diag by done. simpl.
    apply NoDup_app in Hnd as (Hnd & Hdis & _).
    assert (Hc : c ∉ pre). { intros Hin. apply (Hdis c Hin). by left. }
    apply Forall_app in Hw as [Hw Hwc]. apply Forall_cons in Hwc as [Hwc _].
    rewrite !List.filter_app. simpl. unfold anonymous at 2 4.
    unfold anonymous in Hwc.
    destruct (truthy (entityId (userData (obj w c)))) eqn:Ht; simpl.
    + set (w1 := Object3D_remove scene c w).
      assert (Hobj1 : ∀ b, b ≠ scene → obj w1 b = obj w b)
        by (intros b Hb; unfold w1; by rewrite obj_remove_ne).
      assert (Hwc1 : within (fun b => b ≠ scene) w1 fuel c).
      { eapply within_ext; [exact Hobj1|]. by apply Hwc. }
      rewrite <- (set_disposed_id w1).
      rewrite (traverse_dispose_within _ _ _ _ _ Hwc1). simpl.
      set (w2 := set_disposed _ w1).
      assert (Ha2 : ∀ b, anonymous w2 b = anonymous w b)
        by (intros b; apply anonymous_remove).
      destruct (IH post w2) as (w' & Hr & Ho & Hs' & Hn & Hd).
      { change (obj w2 scene) with (obj w1 scene). unfold w1.
        rewrite obj_remove_eq by done. simpl. rewrite Hch.
        by apply remove_first_app_notin. }
      { done. }
      { unfold w2, w1, Object3D_remove. simpl. by apply is_Some_update. }
      { eapply Forall_impl; [exact Hw|]. intros b Hb Hab.
        rewrite Ha2 in Hab. eapply within_ext; [|by apply Hb]. exact Hobj1. }
      exists w'. split; [done|].
      rewrite Ho. change (obj w2 scene) with (obj w1 scene).
      unfold w1 at 1. rewrite obj_remove_eq by done.
      rewrite (filter_anonymous_ext w) by done.
      rewrite app_nil_r. split; [by destruct (obj w scene)|].
      split; [done|]. split.
      { intros b Hb. rewrite Hn by done. unfold w2, w1, Object3D_remove, update_obj.
        simpl. by lookup_simpl. }
      rewrite Hd. simpl.
      assert (He1 : subtree_buffers fuel w1 c = subtree_buffers fuel w c).
      { eapply subtree_buffers_ext; [exact Hobj1|]. by apply Hwc. }
      rewrite He1.
      assert (He2 : map (subtree_buffers fuel w2)
                        (List.filter (fun c0 => negb (anonymous w2 c0)) pre)
                  = map (subtree_buffers fuel w)
                        (List.filter (fun c0 => negb (anonymous w c0)) pre)).
      { clear -Hw Ha2 Hobj1. induction Hw as [|b l Hb _ IHl]; simpl; [done|].
        rewrite Ha2. destruct (anonymous w b) eqn:Hab; simpl; [exact IHl|].
        rewrite IHl. f_equal.
        eapply (subtree_buffers_ext (fun x => x ≠ scene) w); [|by apply Hb].
        intros x Hx. change (obj w2 x) with (obj w1 x). by apply Hobj1. }
      rewrite He2, map_app, union_list_app_L. simpl.
      apply set_eq. intros x. set_unfold. tauto.
    + destruct (IH (c :: post) w) as (w' & Hr & Ho & Hs' & Hn & Hd); [done..|].
      exists w'. split; [done|]. rewrite Ho, <- app_assoc.
      split; [done|]. split; [done|]. split; [done|].
      rewrite Hd, app_nil_r. done.
Qed.

(** X19. The viewer's clean-up disposes what it removes, shared buffers
    included.  For a scene whose children are distinct objects, each
    identified child heading a subtree of depth at most [fuel] that does not
    contain the scene: the loop returns; the children that carry no
    identifier stay, in their order; and the buffers disposed afterwards are
    those disposed before together with the geometry and materials of every
    mesh under every removed child, whether or not another layout still
    refers to them. *)
Theorem viewer_cleanup_disposes_removed_subtrees fuel scene w :
  is_Some (nodes w !! scene) →
  NoDup (children (obj w scene)) →
  Forall (fun c => anonymous w c = false →
                   within (fun b => b ≠ scene) w fuel c)
         (children (obj w scene)) →
  ∃ w', ThreeDViewer.removeAndDispose fuel (length (children (obj w scene))) scene w
          = Some (Some w') ∧
    children (obj w' scene) = List.filter (anonymous w) (children (obj w scene)) ∧
    (∀ b, b ≠ scene → obj w' b = obj w b) ∧
    disposed w'
      = ⋃ (map (subtree_buffers fuel w)
               (List.filter (fun c => negb (anonymous w c)) (children (obj w scene))))
        ∪ disposed w.
Proof.
  intros Hs Hnd Hw.
  destruct (removeAndDispose_spec fuel scene (children (obj w scene)) [] w)
    as (w' & Hr & Ho & _ & Hn & Hd); [by rewrite app_nil_r|done..|].
  exists w'. split; [done|]. rewrite Ho, app_nil_r.
  split; [done|]. split; [|done].
  intros b Hb. unfold obj. by rewrite Hn.
Qed.

Lemma viewer_shows_the_new_layout_witness :
  let scene := fst scene101 in
  let w := snd scene101 in
  is_Some (nodes w !! scene) ∧
  NoDup (children (obj w scene)) ∧
  scene ≠ Layout3D.group master101 ∧
  ∃ w', ThreeDViewer.updateLayout (Some master101) (Some scene) w = Some w' ∧
    children (obj w' scene)
      = List.filter (fun c => anonymous w c
                              && negb (Nat.eqb c (Layout3D.group master101)))
                    (children (obj w scene))
        ++ [Layout3D.group master101] ∧
    (∀ a, a ≠ scene → Layout3D.group master101 ∉ children (obj w a) →
          obj w' a = obj w a) ∧
    disposed w' = disposed w.
Proof.
  intros scene w.
  assert (H1 : is_Some (nodes w !! scene)) by (vm_compute; by eexists).
  assert (H2 : NoDup (children (obj w scene))).
  { apply (bool_decide_unpack (NoDup (children (obj w scene)))). vm_compute. exact I. }
  assert (H3 : scene ≠ Layout3D.group master101) by (vm_compute; lia).
  split; [exact H1|]. split; [exact H2|]. split; [exact H3|].
  exact (viewer_shows_the_new_layout master101 scene w H1 H2 H3).
Defined.

Lemma viewer_cleanup_disposes_removed_subtrees_witness :
  let scene := fst scene101 in
  let w := snd scene101 in
  is_Some (nodes w !! scene) ∧
  NoDup (children (obj w scene)) ∧
  Forall (fun c => anonymous w c = false →
                   within (fun b => b ≠ scene) w 5 c)
         (children (obj w scene)) ∧
  ∃ w', ThreeDViewer.removeAndDispose 5 (length (children (obj w scene))) scene w
          = Some (Some w') ∧
    children (obj w' scene) = List.filter (anonymous w) (children (obj w scene)) ∧
    (∀ b, b ≠ scene → obj w' b = obj w b) ∧
    disposed w'
      = ⋃ (map (subtree_buffers 5 w)
               (List.filter (fun c => negb (anonymous w c)) (children (obj w scene))))
        ∪ disposed w.
Proof.
  intros scene w.
  assert (H1 : is_Some (nodes w !! scene)) by (vm_compute; by eexists).
  assert (H2 : NoDup (children (obj w scene))).
  { apply (bool_decide_unpack (NoDup (children (obj w scene)))). vm_compute. exact I. }
  assert (H3 : Forall (fun c => anonymous w c = false →
                   within (fun b => b ≠ scene) w 5 c) (children (obj w scene))).
  { assert (Hc : children (obj w scene)
                 = [next_node world101; Layout3D.group master101])
      by (vm_compute; reflexivity).
    rewrite Hc. constructor; [intros Ha; by vm_compute in Ha|].
    constructor; [|constructor].
    intros _. apply (within_impl (fun b => b < scene)); [intros b Hb; lia|].
    apply tree_within, treeb_tree. vm_compute. reflexivity. }
  split; [exact H1|]. split; [exact H2|]. split; [exact H3|].
  exact (viewer_cleanup_disposes_removed_subtrees 5 scene w H1 H2 H3).
Defined.

(** ** Two more instances *)

Lemma dispose_without_models_changes_nothing_witness :
  Layout3D.dispose 2 hall world_hall = Some world_hall.
Proof.
  apply (dispose_without_models_changes_nothing 2 hall world_hall).
  vm_compute. repeat constructor.
Defined.

Lemma scale_factor_is_reciprocal_witness :
  let r := Loading.loadModel_resume (Fetched cube4) sofa0 world_sofa in
  scale (obj (snd (snd r)) (Furniture.mesh (fst (snd r)))) =
    Vector3_multiplyScalar (gltf_scale (scene cube4))
                           (Qcdiv n1 (Loading.maxDim (bounds cube4))).
Proof.
  apply (scale_factor_is_reciprocal cube4 sofa0 world_sofa).
  - split; [vm_compute; lia|]. vm_compute. by eexists.
  - vm_compute. reflexivity.
Defined.

(** ** The import of drawings *)

Section DXF_import.
Import ReconstructionEngine.

(** *** The bounds *)

Lemma scanBounds_vertices entities :
  scanBounds entities
    = foldl (fun b v => updateBounds v b) None (all_vertices entities).
Proof.
  unfold scanBounds, all_vertices. generalize (@None Bounds).
  induction entities as [|e es IH]; intros b; simpl; [done|].
  rewrite foldl_app, IH. by destruct (entity_vertices e).
Qed.

(** The bounds stay at the infinities exactly when no vertex is seen. *)
Lemma foldl_updateBounds_None vs : ∀ ob,
  foldl (fun b v => updateBounds v b) ob vs = None ↔ vs = [] ∧ ob = None.
Proof.
  induction vs as [|v vs IH]; intros ob; simpl.
  - split; [done|by intros [_ ->]].
  - rewrite IH. split; [|by intros [? _]]. intros [_ H]. by destruct ob.
Qed.

Lemma scanBounds_None entities :
  scanBounds entities = None ↔ all_vertices entities = [].
Proof.
  rewrite scanBounds_vertices, foldl_updateBounds_None. split; [by intros []|done].
Qed.

(** *** The reconstruction, step by step *)

Lemma kept_refl g n r st : kept g n r st st.
Proof. split; [apply frame_refl|done]. Qed.

Lemma kept_trans g n r n' r' st1 st2 st3 :
  n ≤ n' → r ≤ r' → kept g n r st1 st2 → kept g n' r' st2 st3 → kept g n r st1 st3.
Proof.
  intros Hn Hr (F1 & C1) (F2 & C2). split.
  - eapply frame_trans; [exact F1|].
    eapply frame_weaken; [|exact F2]. simpl. intros a [? ?]. split; [done|lia].
  - intros h Hh. destruct (C1 h Hh) as [A1 B1].
    destruct (C2 h ltac:(lia)) as [A2 B2]. split; congruence.
Qed.

(** The walls built so far stay as they were built. *)
Lemma walls_built_kept this g r0 k st st' :
  kept g (S g + k) (r0 + 2 * k) st st' →
  walls_built this g r0 k st → walls_built this g r0 k st'.
Proof.
  intros [F C] Hw i Hi0 Hi. destruct (Hw i Hi0 Hi) as (Hy & (len & Hs & Hl) & Hm).
  destruct (C (r0 + 2 * i) ltac:(lia)) as [Cs _].
  destruct (C (S (r0 + 2 * i)) ltac:(lia)) as [_ Cm].
  split; [|split].
  - rewrite (frame_obj _ _ _ (S g + i) F); [done|]. simpl. lia.
  - exists len. split; [exact (eq_trans Cs Hs)|done].
  - exact (eq_trans Cm Hm).
Qed.

Lemma progress_refl this g r0 k st :
  reconstructed g r0 k (st_world st) → walls_built this g r0 k st →
  progress this g r0 k st st.
Proof.
  intros R W. exists k. split; [lia|]. split; [done|]. split; [done|apply kept_refl].
Qed.

Lemma progress_trans this g r0 k st1 st2 st3 :
  progress this g r0 k st1 st2 →
  (∀ k1, k ≤ k1 → reconstructed g r0 k1 (st_world st2) →
         walls_built this g r0 k1 st2 → progress this g r0 k1 st2 st3) →
  progress this g r0 k st1 st3.
Proof.
  intros (k1 & Hk1 & R1 & W1 & K1) H.
  destruct (H k1 Hk1 R1 W1) as (k2 & Hk2 & R2 & W2 & K2).
  exists k2. split; [lia|]. split; [done|]. split; [done|].
  eapply kept_trans; [| |exact K1|exact K2]; lia.
Qed.

(** Adding one more mesh on the next two buffers. *)
Lemma reconstructed_add g r0 k w w' o :
  reconstructed g r0 k w →
  isMesh o = true → children o = [] → geometry o = Some (r0 + 2 * k) →
  material o = Some (SingleMaterial (S (r0 + 2 * k))) →
  next_node w' = S (next_node w) → next_resource w' = 2 + next_resource w →
  nodes w' !! g = (fun p => set_children (children p ++ [next_node w]) p) <$> nodes w !! g →
  nodes w' !! next_node w = Some o →
  (∀ b, b ≠ g → b ≠ next_node w → nodes w' !! b = nodes w !! b) →
  reconstructed g r0 (S k) w'.
Proof.
  intros (Hn & Hr & (p & Hp & ->) & Hm) Ho1 Ho2 Ho3 Ho4 Hn' Hr' Hg Hnew Hother.
  split; [lia|]. split; [lia|]. split.
  - eexists. split; [rewrite Hg, Hp; reflexivity|].
    rewrite seq_S, Hn. reflexivity.
  - intros i Hi. destruct (decide (i = k)) as [->|Hne].
    + exists o. rewrite <- Hn. split; [done|]. by repeat split.
    + unfold dxf_mesh, node_at. rewrite Hother by lia. apply Hm. lia.
Qed.

Lemma addWallSegment_step M this x1 y1 x2 y2 g r0 k st :
  reconstructed g r0 k (st_world st) → walls_built this g r0 k st → 0 < k →
  progress this g r0 k st (addWallSegment M this x1 y1 x2 y2 g st).
Proof.
  intros Hrec Hw Hk. unfold addWallSegment. cbv zeta.
  destruct (num_ltb _ _) eqn:Hlen; [by apply progress_refl|].
  pose proof Hrec as (Hn & Hr & _).
  assert (Hgm : g ≠ next_node (st_world st)) by lia.
  match goal with |- progress _ _ _ _ _ ?S => set (st' := S) end.
  assert (K : kept g (S g + k) (r0 + 2 * k) st st').
  { split.
    - constructor; unfold slot_kept; simpl; auto.
      intros b [Hb1 Hb2]. rewrite lookup_alter_ne by done.
      rewrite !lookup_alter_ne by lia. rewrite lookup_insert_ne by lia. done.
    - intros h Hh. simpl. rewrite !lookup_insert_ne by lia. done. }
  exists (S k). split; [lia|]. split; [|split; [|exact K]].
  - eapply reconstructed_add with
      (o := set_rotation (mkV n0 (Math_atan2 M (Qcopp (Qcminus y2 y1)) (Qcminus x2 x1)) n0)
              (set_position (mkV (Qcdiv (Qcplus x1 x2) n2) (Qcdiv (wallHeight this) n2)
                                 (Qcdiv (Qcopp (Qcplus y1 y2)) n2))
                 (Mesh_blank (r0 + 2 * k) (S (r0 + 2 * k)))));
      [exact Hrec|done|done|done|done|done|simpl; lia| | |].
    + simpl. by lookup_simpl.
    + simpl. lookup_simpl. rewrite Hr. reflexivity.
    + intros b Hb1 Hb2. simpl. by lookup_simpl.
  - intros i Hi0 Hi. destruct (decide (i = k)) as [->|Hne].
    + replace (S g + k) with (next_node (st_world st)) by lia.
      replace (r0 + 2 * k) with (next_resource (st_world st)) by lia.
      split; [|split].
      * unfold obj. simpl. lookup_simpl. reflexivity.
      * eexists. split; [apply lookup_insert_eq|exact Hlen].
      * apply lookup_insert_eq.
    + apply (walls_built_kept this g r0 k st st' K Hw); [done|lia].
Qed.

Lemma addSegment_step M this f u v g r0 k st :
  reconstructed g r0 k (st_world st) → walls_built this g r0 k st → 0 < k →
  progress this g r0 k st (addSegment M this f u v g st).
Proof. intros. unfold addSegment. cbv zeta. by apply addWallSegment_step. Qed.

Lemma addPolyline_step M this f g r0 vs : ∀ k st,
  reconstructed g r0 k (st_world st) → walls_built this g r0 k st → 0 < k →
  progress this g r0 k st (addPolyline M this f vs g st).
Proof.
  induction vs as [|a l IH]; intros k st Hrec Hw Hk; [by apply progress_refl|].
  destruct l as [|c rest]; [by apply progress_refl|].
  change (addPolyline M this f (a :: c :: rest) g st)
    with (addPolyline M this f (c :: rest) g (addSegment M this f a c g st)).
  apply progress_trans with (st2 := addSegment M this f a c g st);
    [by apply addSegment_step|].
  intros k1 Hk1 R1 W1. apply IH; [done|done|lia].
Qed.

Lemma addEntity_step M this f e g r0 k st st' :
  reconstructed g r0 k (st_world st) → walls_built this g r0 k st → 0 < k →
  addEntity M this f e g st = Returned st' →
  progress this g r0 k st st'.
Proof.
  intros Hrec Hw Hk. unfold addEntity.
  destruct (isType e "LINE").
  { destruct (entity_vertices e) as [[|u [|v rest]]|]; try done.
    intros [= <-]. by apply addSegment_step. }
  destruct (isType e "LWPOLYLINE" || isType e "POLYLINE");
    [|intros [= <-]; by apply progress_refl].
  destruct (entity_vertices e) as [vs|]; [|done].
  destruct (entity_shape e || entity_closed e).
  - destruct (last vs) as [u|]; [|done]. destruct (head vs) as [v|]; [|done].
    intros [= <-].
    apply progress_trans with (st2 := addPolyline M this f vs g st);
      [by apply addPolyline_step|].
    intros k1 Hk1 R1 W1. apply addSegment_step; [done|done|lia].
  - intros [= <-]. by apply addPolyline_step.
Qed.

Lemma addEntities_step M this f g r0 es : ∀ k st r st',
  reconstructed g r0 k (st_world st) → walls_built this g r0 k st → 0 < k →
  addEntities M this f es g st = (r, st') →
  progress this g r0 k st st'.
Proof.
  induction es as [|e es IH]; intros k st r st' Hrec Hw Hk; simpl.
  - intros [= _ <-]. by apply progress_refl.
  - destruct (addEntity M this f e g st) as [st1|] eqn:Hadd.
    + intros Hrest. apply progress_trans with (st2 := st1);
        [by eapply addEntity_step|].
      intros k1 Hk1 R1 W1. eapply IH; [done|done|lia|exact Hrest].
    + intros [= _ <-]. by apply progress_refl.
Qed.

(** *** The whole run *)

Lemma addFloor_step M this b g r0 st :
  reconstructed g r0 0 (st_world st) →
  reconstructed g r0 1 (st_world (addFloor M b g st)) ∧
  walls_built this g r0 1 (addFloor M b g st) ∧
  kept g (S g) r0 st (addFloor M b g st) ∧
  floor_laid M (addFloor M b g st) (S g).
Proof.
  intros Hrec. pose proof Hrec as (Hn & Hr & _).
  assert (Hgm : g ≠ next_node (st_world st)) by lia.
  unfold addFloor. cbv zeta.
  split; [|split; [|split; [split|]]].
  - eapply reconstructed_add with
      (o := set_position (mkV n0 (Qcopp (Q2Qc (1 # 100))) n0)
              (set_rotation (mkV (Qcdiv (Qcopp (Math_PI M)) n2) n0 n0)
                 (Mesh_blank (r0 + 2 * 0) (S (r0 + 2 * 0)))));
      [exact Hrec|done|done|done|done|done|simpl; lia| | |].
    + simpl. by lookup_simpl.
    + simpl. lookup_simpl. rewrite Hr. reflexivity.
    + intros c Hc1 Hc2. simpl. by lookup_simpl.
  - intros i Hi0 Hi. lia.
  - constructor; unfold slot_kept; simpl; auto.
    intros c [Hc1 Hc2]. rewrite lookup_alter_ne by done.
    rewrite !lookup_alter_ne by lia. rewrite lookup_insert_ne by lia. done.
  - intros h Hh. simpl. rewrite !lookup_insert_ne by lia. done.
  - exists (next_resource (st_world st)). simpl.
    split; [do 2 eexists; apply lookup_insert_eq|].
    split; [apply lookup_insert_eq|].
    replace (S g) with (next_node (st_world st)) by lia.
    rewrite lookup_alter_ne by lia. lookup_simpl. reflexivity.
Qed.

(** The store just after [new THREE.Group()]. *)
Lemma group_reconstructed st :
  reconstructed (next_node (st_world st)) (next_resource (st_world st)) 0
    (snd (alloc_obj Group_blank (st_world st))).
Proof.
  split; [simpl; lia|]. split; [simpl; lia|]. split.
  - exists Group_blank. simpl. by rewrite lookup_insert_eq.
  - intros i Hi. lia.
Qed.

Lemma group_kept st :
  kept (next_node (st_world st)) (next_node (st_world st))
       (next_resource (st_world st)) st
       (with_world (snd (alloc_obj Group_blank (st_world st))) st).
Proof.
  split; [|done]. apply frame_alloc_obj. intros a [_ Ha]. done.
Qed.

(** What every run of [reconstruct] leaves behind, also one that
    throws. *)
Lemma reconstruct_spec M this model st r st' :
  reconstruct M this model st = (r, st') →
  let g := next_node (st_world st) in
  let r0 := next_resource (st_world st) in
  ∃ k, reconstructed g r0 k (st_world st') ∧ walls_built this g r0 k st' ∧
       kept g g r0 st st' ∧
       (r = Returned g ∨ r = TypeError) ∧
       (all_vertices (model_entities model) = [] → k = 0 ∧ r = Returned g) ∧
       (all_vertices (model_entities model) ≠ [] → 0 < k ∧ floor_laid M st' (S g)).
Proof.
  intros Hrun g r0. unfold reconstruct in Hrun.
  assert (Ha : alloc_obj Group_blank (st_world st)
               = (g, snd (alloc_obj Group_blank (st_world st)))) by reflexivity.
  rewrite Ha in Hrun. clear Ha. cbv beta iota zeta in Hrun.
  pose proof (group_reconstructed st) as R0. pose proof (group_kept st) as K0.
  fold g r0 in R0, K0.
  set (st0 := with_world _ st) in *.
  assert (Hempty : ∀ st1, (Returned g, st0) = (r, st1) →
            all_vertices (model_entities model) = [] →
            ∃ k, reconstructed g r0 k (st_world st1) ∧ walls_built this g r0 k st1 ∧
                 kept g g r0 st st1 ∧
                 (r = Returned g ∨ r = TypeError) ∧
                 (all_vertices (model_entities model) = [] → k = 0 ∧ r = Returned g) ∧
                 (all_vertices (model_entities model) ≠ [] →
                  0 < k ∧ floor_laid M st1 (S g))).
  { intros st1 [= <- <-] Hnone. exists 0.
    split; [exact R0|]. split; [intros i Hi0 Hi; lia|].
    split; [exact K0|]. split; [by left|]. split; [done|].
    intros Hne. by destruct Hne. }
  destruct model as [[[es|]]|]; [|by apply Hempty..].
  cbn [dxf_entities] in Hrun.
  change (model_entities (Some (mkDxfModel (Some es)))) with es in *.
  destruct (scanBounds es) as [b|] eqn:Hscan;
    [|apply Hempty; [done|by apply scanBounds_None]].
  clear Hempty.
  assert (Hne : all_vertices es ≠ []).
  { intros H. apply scanBounds_None in H. congruence. }
  destruct (addFloor_step M this b g r0 st0 R0) as (R1 & W1 & K1 & L1).
  set (st1 := addFloor M b g st0) in *.
  destruct (addEntities M this (fit b) es g st1) as [res st2] eqn:Hadd.
  destruct (addEntities_step M this (fit b) g r0 es 1 st1 res st2 R1 W1 ltac:(lia) Hadd)
    as (k & Hk & R2 & W2 & K2).
  assert (st' = st2 ∧ (r = Returned g ∨ r = TypeError)) as [-> Hr].
  { destruct res; injection Hrun as <- <-; auto. }
  exists k. split; [done|]. split; [done|]. split; [|split; [done|split; [done|]]].
  - apply kept_trans with (n' := S g) (r' := r0) (st2 := st0); [lia|lia|exact K0|].
    apply kept_trans with (n' := S g + 1) (r' := r0 + 2 * 1) (st2 := st1);
      [lia|lia|exact K1|exact K2].
  - intros _. split; [lia|].
    destruct L1 as (h & (wd & ht & Hs) & Hm & Hc). destruct K2 as [F2 C2].
    pose proof R1 as (_ & Hr1 & _).
    assert (Hh : h = r0).
    { unfold st1, addFloor in Hc. simpl in Hc.
      rewrite lookup_alter_ne in Hc by (fold g; lia). lookup_simpl.
      revert Hc. lookup_simpl. intros [= Hc _]. done. }
    subst h. exists r0. destruct (C2 r0 ltac:(lia)) as [Cs _].
    destruct (C2 (S r0) ltac:(lia)) as [_ Cm].
    split; [exists wd, ht; exact (eq_trans Cs Hs)|].
    split; [exact (eq_trans Cm Hm)|].
    rewrite (frame_nodes _ _ _ F2); [done|]. simpl. split; lia.
Qed.

(** *** What a reconstruction returns *)

(** X20. Nothing to draw.  For a drawing without a single vertex (no model,
    a model without [entities], an empty list, or entities none of which
    carries vertices), [reconstruct] returns the new group, empty, and
    creates nothing else: no floor, no wall, no buffer.  It does not throw
    either, not even for a line or a polyline that lacks its vertices: the
    early return comes before the pass that would read them. *)
Theorem reconstruct_without_vertices_returns_empty_group M this model st :
  all_vertices (model_entities model) = [] →
  reconstruct M this model st
    = (Returned (next_node (st_world st)),
       with_world (snd (alloc_obj Group_blank (st_world st))) st).
Proof.
  intros Hnone. unfold reconstruct.
  destruct model as [[[es|]]|]; try reflexivity.
  change (model_entities (Some (mkDxfModel (Some es)))) with es in Hnone.
  apply scanBounds_None in Hnone. cbn [alloc_obj dxf_entities]. by rewrite Hnone.
Qed.

Lemma reconstruct_without_vertices_returns_empty_group_witness :
  reconstruct sampleMath new (Some blank_drawing) studio0
    = (Returned (next_node world0),
       with_world (snd (alloc_obj Group_blank world0)) studio0).
Proof.
  apply (reconstruct_without_vertices_returns_empty_group sampleMath new
           (Some blank_drawing) studio0).
  reflexivity.
Defined.

(** X22. Every wall is a box of the engine's make.  Whatever the drawing and
    whatever [Math.sqrt] and [Math.atan2] return, every child but the first
    of the group that [reconstruct] returns is a mesh on a box geometry as
    high as the engine's [wallHeight] and 0.2 thick, of a length that is not
    below 0.001, with a one-sided material of the engine's [wallColor],
    standing at y = [wallHeight / 2]. *)
Theorem reconstruct_builds_walls_as_boxes M this model st g st' :
  reconstruct M this model st = (Returned g, st') →
  Forall (fun c => ∃ h, geometry (obj (st_world st') c) = Some h ∧
                        material (obj (st_world st') c)
                          = Some (SingleMaterial (S h)) ∧
                        wall_built this st' c h)
         (tail (children (obj (st_world st') g))).
Proof.
  intros Hrun.
  destruct (reconstruct_spec _ _ _ _ _ _ Hrun) as (k & R & W & _ & Hr & _).
  destruct Hr as [[= ->]|[=]].
  destruct R as (Hn & Hres & (p & Hp & ->) & Hm).
  assert (Hch : children (obj (st_world st') (next_node (st_world st)))
                = seq (S (next_node (st_world st))) k).
  { unfold obj. by rewrite Hp. }
  rewrite Hch.
  destruct k; simpl; [constructor|]. apply Forall_forall. intros c Hc.
  apply elem_of_seq in Hc.
  set (i := c - S (next_node (st_world st))).
  assert (Hci : c = S (next_node (st_world st)) + i) by (unfold i; lia).
  assert (Hi : 0 < i ∧ i < S k) by (unfold i; lia).
  clearbody i. subst c. destruct Hi as [Hi0 Hi].
  destruct (Hm i Hi) as (o & Ho & _ & _ & Hg & Hmat).
  exists (next_resource (st_world st) + 2 * i).
  unfold obj. rewrite Ho. split; [exact Hg|]. split; [exact Hmat|].
  by apply W.
Qed.

Lemma reconstruct_builds_walls_as_boxes_witness :
  let st' := snd (reconstruct sampleMath new (Some sample_drawing) studio0) in
  Forall (fun c => ∃ h, geometry (obj (st_world st') c) = Some h ∧
                        material (obj (st_world st') c)
                          = Some (SingleMaterial (S h)) ∧
                        wall_built new st' c h)
         (tail (children (obj (st_world st') (next_node world0)))).
Proof.
  apply (reconstruct_builds_walls_as_boxes sampleMath new (Some sample_drawing) studio0).
  rewrite (surjective_pairing (reconstruct sampleMath new (Some sample_drawing) studio0)).
  f_equal; vm_compute; reflexivity.
Defined.

(** X23. The floor comes first.  For a drawing with at least one vertex, the
    first child of the returned group is the floor: a mesh without children
    on a plane geometry, in the two-sided material of colour 0x333333,
    turned by [-Math.PI / 2] about x and laid at y = -0.01; and it stays so
    whatever walls are added after it. *)
Theorem floor_comes_first M this model st g st' :
  reconstruct M this model st = (Returned g, st') →
  all_vertices (model_entities model) ≠ [] →
  ∃ floor walls, children (obj (st_world st') g) = floor :: walls ∧
                 floor_laid M st' floor.
Proof.
  intros Hrun Hne.
  destruct (reconstruct_spec _ _ _ _ _ _ Hrun) as (k & R & _ & _ & Hr & _ & Hfl).
  destruct Hr as [[= ->]|[=]]. destruct (Hfl Hne) as [Hk L].
  destruct R as (Hn & Hres & (p & Hp & ->) & Hm).
  unfold obj. rewrite Hp. simpl.
  destruct k; [lia|]. simpl. eauto.
Qed.

Lemma floor_comes_first_witness :
  ∃ floor walls,
    children (obj (st_world (snd (reconstruct sampleMath new (Some sample_drawing) studio0)))
                  (next_node world0)) = floor :: walls ∧
    floor_laid sampleMath (snd (reconstruct sampleMath new (Some sample_drawing) studio0))
               floor.
Proof.
  apply (floor_comes_first sampleMath new (Some sample_drawing) studio0).
  - rewrite (surjective_pairing (reconstruct sampleMath new (Some sample_drawing) studio0)).
    f_equal; vm_compute; reflexivity.
  - discriminate.
Defined.

(** X24. Nothing is shared in an imported drawing.  Every child of the
    returned group is a mesh with a geometry and a material made for it
    alone: the child at index [i] uses the buffers number [2i] and [2i + 1]
    of those the call created, and the call created exactly two buffers for
    each child. *)
Theorem reconstruct_allocates_two_buffers_per_mesh M this model st g st' :
  reconstruct M this model st = (Returned g, st') →
  let r0 := next_resource (st_world st) in
  next_resource (st_world st')
    = r0 + 2 * length (children (obj (st_world st') g)) ∧
  ∀ i c, children (obj (st_world st') g) !! i = Some c →
         isMesh (obj (st_world st') c) = true ∧
         geometry (obj (st_world st') c) = Some (r0 + 2 * i) ∧
         material (obj (st_world st') c) = Some (SingleMaterial (r0 + 2 * i + 1)).
Proof.
  intros Hrun r0.
  destruct (reconstruct_spec _ _ _ _ _ _ Hrun) as (k & R & _ & _ & Hr & _).
  destruct Hr as [[= ->]|[=]]. fold r0 in R.
  destruct R as (Hn & Hres & (p & Hp & ->) & Hm).
  unfold obj at 1 2. rewrite Hp. simpl. rewrite length_seq. split; [done|].
  intros i c Hc. apply lookup_seq in Hc as [-> Hi].
  destruct (Hm i Hi) as (o & Ho & H1 & _ & H3 & H4).
  unfold obj. rewrite Ho. change (default Group_blank (Some o)) with o.
  rewrite H1, H3, H4. repeat split. do 2 f_equal. lia.
Qed.

Lemma reconstruct_allocates_two_buffers_per_mesh_witness :
  let st' := snd (reconstruct sampleMath new (Some sample_drawing) studio0) in
  let g := next_node world0 in
  let r0 := next_resource world0 in
  next_resource (st_world st') = r0 + 2 * length (children (obj (st_world st') g)) ∧
  ∀ i c, children (obj (st_world st') g) !! i = Some c →
         isMesh (obj (st_world st') c) = true ∧
         geometry (obj (st_world st') c) = Some (r0 + 2 * i) ∧
         material (obj (st_world st') c) = Some (SingleMaterial (r0 + 2 * i + 1)).
Proof.
  apply (reconstruct_allocates_two_buffers_per_mesh sampleMath new (Some sample_drawing)
           studio0).
  rewrite (surjective_pairing (reconstruct sampleMath new (Some sample_drawing) studio0)).
  f_equal; vm_compute; reflexivity.
Defined.

(** X25. A reconstruction only adds.  Whether [reconstruct] returns or
    throws, every object that existed before, the class-wide slots, the
    random stream and the set of disposed buffers are as they were, and so
    are the parameters of every buffer that existed. *)
Theorem reconstruct_keeps_the_store M this model st :
  let st' := snd (reconstruct M this model st) in
  frame (below (next_node (st_world st))) (st_world st) (st_world st') ∧
  same_catalogue (next_resource (st_world st)) st st'.
Proof.
  intros st'.
  destruct (reconstruct_spec M this model st (fst (reconstruct M this model st)) st')
    as (k & _ & _ & [F C] & _); [by rewrite <- surjective_pairing|].
  split; [|done]. eapply frame_weaken; [|exact F]. unfold below. simpl.
  intros a Ha. split; lia.
Qed.

(** *** Disposing of an imported layout *)

Lemma union_list_pairs (f : addr → gset handle) a r0 k :
  (∀ i, i < k → f (a + i) = {[r0 + 2 * i; S (r0 + 2 * i)]}) →
  ⋃ (map f (seq a k)) = list_to_set (seq r0 (2 * k)).
Proof.
  induction k as [|k IH]; intros Hf; [reflexivity|].
  rewrite (seq_S k a), map_app, union_list_app_L.
  replace (2 * S k) with (2 * k + 2) by lia.
  rewrite seq_app, list_to_set_app_L.
  specialize (IH (fun i Hi => Hf i (Nat.lt_lt_succ_r _ _ Hi))).
  specialize (Hf k (Nat.lt_succ_diag_r k)).
  f_equal; [exact IH|].
  cbn [map union_list foldr seq list_to_set]. rewrite Hf.
  apply set_eq. intros x. rewrite !elem_of_union, !elem_of_singleton, elem_of_empty.
  tauto.
Qed.

(** The buffers under a reconstructed group, whatever its [userData]. *)
Lemma reconstructed_buffers g r0 k w w1 fuel :
  reconstructed g r0 k w →
  (∀ c, c ≠ g → obj w1 c = obj w c) →
  isMesh (obj w1 g) = false → children (obj w1 g) = children (obj w g) →
  within (fun _ => True) w1 (S (S fuel)) g ∧
  subtree_buffers (S (S fuel)) w1 g = list_to_set (seq r0 (2 * k)).
Proof.
  intros (Hn & Hres & (p & Hp & ->) & Hm) Hother Hmesh Hch.
  assert (Hcs : children (obj w1 g) = seq (S g) k).
  { rewrite Hch. unfold obj. by rewrite Hp. }
  assert (Hleaf : ∀ i, i < k →
            children (obj w1 (S g + i)) = [] ∧
            node_buffers (obj w1 (S g + i)) = {[r0 + 2 * i; S (r0 + 2 * i)]}).
  { intros i Hi. rewrite Hother by lia.
    destruct (Hm i Hi) as (o & Ho & H1 & H2 & H3 & H4).
    unfold obj. rewrite Ho. change (default Group_blank (Some o)) with o.
    split; [done|]. unfold node_buffers. rewrite H1, H3, H4. reflexivity. }
  split.
  - split; [done|]. rewrite Hcs. apply Forall_forall. intros c Hc.
    apply elem_of_seq in Hc.
    assert (Hc' : children (obj w1 c) = []).
    { replace c with (S g + (c - S g)) by lia. apply Hleaf. lia. }
    split; [done|]. rewrite Hc'. constructor.
  - change (subtree_buffers (S (S fuel)) w1 g)
      with (node_buffers (obj w1 g)
            ∪ ⋃ (map (subtree_buffers (S fuel) w1) (children (obj w1 g)))).
    unfold node_buffers at 1. rewrite Hmesh, Hcs.
    rewrite (union_list_pairs _ (S g) r0 k).
    + apply set_eq. intros x. set_unfold. tauto.
    + intros i Hi. destruct (Hleaf i Hi) as [Hc Hb].
      change (subtree_buffers (S fuel) w1 (S g + i))
        with (node_buffers (obj w1 (S g + i))
              ∪ ⋃ (map (subtree_buffers fuel w1) (children (obj w1 (S g + i))))).
      rewrite Hc, Hb. cbn [map union_list foldr].
      apply set_eq. intros x. rewrite !elem_of_union, !elem_of_singleton, elem_of_empty.
      tauto.
Qed.

(** X28. Disposing of an imported layout releases what the import created.
    For the group a reconstruction returned, wrapped in an [ImportedLayout],
    [dispose] returns (two levels of traversal are enough); the buffers
    disposed afterwards are those disposed before together with every buffer
    the reconstruction created, and nothing else is changed. *)
Theorem imported_layout_dispose_releases_its_buffers M this model st g st' now fuel :
  reconstruct M this model st = (Returned g, st') →
  2 ≤ fuel →
  let r0 := next_resource (st_world st) in
  let w1 := snd (ImportedLayout.new now g (st_world st')) in
  ImportedLayout.dispose fuel (fst (ImportedLayout.new now g (st_world st'))) w1
    = Some (set_disposed
              (list_to_set (seq r0 (next_resource (st_world st') - r0))
               ∪ disposed (st_world st)) w1).
Proof.
  intros Hrun Hfuel r0 w1.
  destruct (reconstruct_spec _ _ _ _ _ _ Hrun) as (k & R & _ & [F _] & Hr & _).
  destruct Hr as [[= ->]|[=]]. fold r0 in R.
  set (g := next_node (st_world st)) in *.
  destruct fuel as [|[|fuel]]; [lia|lia|].
  pose proof R as (_ & Hres & (p & Hp & Hpeq) & _).
  destruct (reconstructed_buffers g r0 k (st_world st') w1 fuel R) as [Hw Hb].
  { intros c Hc. unfold w1, ImportedLayout.new. cbn [snd]. by apply obj_update_ne. }
  { unfold w1, ImportedLayout.new. cbn [snd]. rewrite obj_update_eq by eauto.
    unfold obj. rewrite Hp, Hpeq. reflexivity. }
  { unfold w1, ImportedLayout.new. cbn [snd]. rewrite obj_update_eq by eauto.
    reflexivity. }
  unfold ImportedLayout.dispose, ImportedLayout.new. cbn [fst ImportedLayout.group].
  rewrite <- (set_disposed_id w1) at 1.
  rewrite (traverse_dispose_within (fun _ => True)) by done.
  rewrite Hb. do 2 f_equal. f_equal.
  - rewrite Hres. by replace (r0 + 2 * k - r0) with (2 * k) by lia.
  - unfold w1, ImportedLayout.new. cbn [snd]. simpl. apply (frame_disposed _ _ _ F).
Qed.

Lemma imported_layout_dispose_releases_its_buffers_witness :
  let st' := snd (reconstruct sampleMath new (Some sample_drawing) studio0) in
  let r0 := next_resource (st_world studio0) in
  let w1 := snd (ImportedLayout.new 1700000000000 (next_node world0) (st_world st')) in
  ImportedLayout.dispose 2
      (fst (ImportedLayout.new 1700000000000 (next_node world0) (st_world st'))) w1
    = Some (set_disposed
              (list_to_set (seq r0 (next_resource (st_world st') - r0))
               ∪ disposed (st_world studio0)) w1).
Proof.
  apply (imported_layout_dispose_releases_its_buffers sampleMath new (Some sample_drawing)
           studio0 (next_node world0) _ 1700000000000%N 2).
  - rewrite (surjective_pairing (reconstruct sampleMath new (Some sample_drawing) studio0)).
    f_equal; vm_compute; reflexivity.
  - lia.
Defined.

(** *** Entities that cannot be read *)

Lemma addEntity_TypeError M this f e g st :
  addEntity M this f e g st = TypeError ↔ drawable e = false.
Proof.
  unfold addEntity, drawable.
  destruct (isType e "LINE").
  { destruct (entity_vertices e) as [[|u [|v rest]]|]; split; done. }
  destruct (isType e "LWPOLYLINE" || isType e "POLYLINE"); [|split; done].
  destruct (entity_vertices e) as [vs|]; [|split; done].
  destruct (entity_shape e || entity_closed e); [|split; done].
  destruct vs as [|v vs]; [split; done|].
  cbn [head]. destruct (last (v :: vs)) eqn:Hl; [split; done|].
  apply last_None in Hl. done.
Qed.

Lemma addEntities_TypeError M this f g es : ∀ st,
  fst (addEntities M this f es g st) = TypeError
  ↔ Exists (fun e => drawable e = false) es.
Proof.
  induction es as [|e es IH]; intros st; simpl.
  - split; [done|]. by intros ?%Exists_nil.
  - rewrite Exists_cons. destruct (addEntity M this f e g st) as [st1|] eqn:Hadd.
    + rewrite IH. split; [tauto|]. intros [He|]; [|done].
      apply (addEntity_TypeError M this f e g st) in He. congruence.
    + split; [|done]. intros _. left. by apply (addEntity_TypeError M this f e g st).
Qed.

(** X21. When a reconstruction throws.  [reconstruct] ends in a [TypeError]
    exactly when the drawing has a vertex somewhere and holds an entity the
    second pass cannot read: a LINE with fewer than two vertices, or a
    polyline without a list of vertices or to be closed over an empty one.
    Entities of other types never make it throw. *)
Theorem reconstruct_throws_iff M this model st :
  fst (reconstruct M this model st) = TypeError
  ↔ all_vertices (model_entities model) ≠ [] ∧
    Exists (fun e => drawable e = false) (model_entities model).
Proof.
  destruct (decide (all_vertices (model_entities model) = [])) as [Hnone|Hsome].
  - assert (fst (reconstruct M this model st) = Returned (next_node (st_world st)))
      as ->; [|split; [done|by intros [? _]]].
    destruct model as [[[es|]]|]; try reflexivity.
    change (model_entities (Some (mkDxfModel (Some es)))) with es in Hnone.
    apply scanBounds_None in Hnone. unfold reconstruct.
    cbn [alloc_obj dxf_entities]. by rewrite Hnone.
  - destruct model as [[[es|]]|]; try done.
    change (model_entities (Some (mkDxfModel (Some es)))) with es in *.
    unfold reconstruct. cbn [alloc_obj dxf_entities].
    destruct (scanBounds es) as [b|] eqn:Hscan;
      [|by apply scanBounds_None in Hscan].
    rewrite <- (addEntities_TypeError M this (fit b) (next_node (st_world st)) es
                  (addFloor M b (next_node (st_world st))
                     (with_world (snd (alloc_obj Group_blank (st_world st))) st))).
    cbn [alloc_obj snd].
    destruct (addEntities _ _ _ _ _ _) as [[?|] ?]; simpl;
      (split; [intros H; by split|by intros [_ H]]).
Qed.

(** *** A drawing that cannot be read *)

Lemma reconstruct_throws_iff_witness :
  fst (reconstruct sampleMath new (Some broken_drawing) studio0) = TypeError.
Proof.
  apply (reconstruct_throws_iff sampleMath new (Some broken_drawing) studio0).
  split; [discriminate|].
  apply Exists_exists. exists (mkEntity (Some "LINE") None false false).
  split; [|reflexivity]. vm_compute. repeat constructor.
Defined.

End DXF_import.
